(** * Sofie input-manager: the device registry and its lifecycle

    A shallow embedding of [InputManager] (the orchestration layer of the
    input gateway) and of the abstract [Device] base class, together with the
    properties of the specification that concern them.

    The program is single-threaded and promise-driven.  It is modelled as a
    labelled transition system: one transition is one synchronous segment of
    the program (the code that runs between two suspension points), and every
    [await] on a promise that the Manager does not settle itself is a
    [Frame] that the environment settles later, in any order.

    Modelling conventions.
    - A JavaScript object used as a dictionary is the list of its own
      enumerable properties, in the order in which JavaScript enumerates
      them: array indices first, in ascending order, then the other names
      in the order of their creation.  A property read also looks along the
      prototype chain ([devices_read] below).
    - The registry [#devices] is created by [{}], so its prototype is
      [Object.prototype] until an assignment under the name [__proto__]
      replaces it by a device object ([devices_proto]).
    - The classes of the integrations are not part of this development: what
      a read finds on a device object is a parameter ([Integrations]).
    - Closures are defunctionalised: a listener is a constructor carrying the
      variables the closure captured.
    - Error values are represented by their rendering as a string
      ([String(e)]).
    - A continuation that waits only for promises the environment has
      already settled runs in the transition that settles the last of them.
      The one [await] that the synchronous part of a method reaches with
      nothing for the environment to settle, [await Promise.all([])] in
      [destroy()], is a frame of its own: the caller runs on before the
      continuation does. *)

From Stdlib Require Import Ascii Lia.
From stdpp Require Import base option list strings numbers.

Set Default Proof Using "Type".
Open Scope string_scope.
Open Scope list_scope.

(** ** JavaScript objects used as dictionaries *)

Definition is_digit (c : ascii) : bool :=
  (48 <=? N_of_ascii c)%N && (N_of_ascii c <=? 57)%N.

(** The value of a string of decimal digits, read after [acc]. *)
Fixpoint digits_value (k : string) (acc : N) : option N :=
  match k with
  | EmptyString => Some acc
  | String c k' =>
      if is_digit c
      then digits_value k' (10 * acc + (N_of_ascii c - 48))%N
      else None
  end.

(** An array index: the canonical decimal form of an integer from [0] to
    [2^32 - 2]. *)
Definition array_index (k : string) : option N :=
  match k with
  | EmptyString => None
  | String c k' =>
      if decide (c = "0"%char)
      then (if decide (k' = EmptyString) then Some 0%N else None)
      else match digits_value k 0 with
           | Some n => if (n <? 4294967295)%N then Some n else None
           | None => None
           end
  end.

(** A new property [k] is enumerated before the existing property [k']. *)
Definition key_before (k k' : string) : bool :=
  match array_index k, array_index k' with
  | Some n, Some n' => (n <? n')%N
  | Some _, None => true
  | None, _ => false
  end.

(** The names of the members of [Object.prototype]. *)
Definition object_prototype_member (k : string) : bool :=
  bool_decide (k ∈ ["constructor"; "__defineGetter__"; "__defineSetter__";
                    "hasOwnProperty"; "__lookupGetter__"; "__lookupSetter__";
                    "isPrototypeOf"; "propertyIsEnumerable"; "toString";
                    "valueOf"; "__proto__"; "toLocaleString"]).

Section JSObject.
Context {A : Type}.

Definition JSObject := list (string * A).

(** The own property [k] of [o]. *)
Fixpoint obj_get (o : list (string * A)) (k : string) : option A :=
  match o with
  | [] => None
  | (k', v) :: o' => if decide (k = k') then Some v else obj_get o' k
  end.

(** The value of the own property [k] is replaced. *)
Fixpoint obj_replace (k : string) (v : A) (o : list (string * A)) : list (string * A) :=
  match o with
  | [] => []
  | (k', v') :: o' =>
      if decide (k = k') then (k, v) :: o' else (k', v') :: obj_replace k v o'
  end.

(** A new own property [k] takes its place in the enumeration. *)
Fixpoint obj_insert (k : string) (v : A) (o : list (string * A)) : list (string * A) :=
  match o with
  | [] => [(k, v)]
  | (k', v') :: o' =>
      if key_before k k' then (k, v) :: (k', v') :: o'
      else (k', v') :: obj_insert k v o'
  end.

(** [o[k] = v] for a name [k] that is, or becomes, an own property of [o]:
    an existing property keeps its position; a new one goes after the
    existing array indices below it when it is an array index, and last
    otherwise. *)
Definition obj_set (k : string) (v : A) (o : list (string * A)) : list (string * A) :=
  match obj_get o k with
  | Some _ => obj_replace k v o
  | None => obj_insert k v o
  end.

(** [delete o[k]] *)
Fixpoint obj_delete (k : string) (o : list (string * A)) : list (string * A) :=
  match o with
  | [] => []
  | (k', v') :: o' =>
      if decide (k = k') then obj_delete k o' else (k', v') :: obj_delete k o'
  end.

(** [Object.keys(o)], [Object.values(o)], [Object.entries(o)] *)
Definition obj_keys (o : list (string * A)) : list string := fst <$> o.
Definition obj_values (o : list (string * A)) : list A := snd <$> o.
Definition obj_entries (o : list (string * A)) : list (string * A) := o.
End JSObject.

Arguments JSObject : clear implicits.

(** ** eventemitter3, as far as the program uses it *)

Section EventEmitter.
Context {E L : Type} `{EqDecision E}.

Record EventEmitter := { _events : list (E * L) }.

(** [emitter.on(event, fn)] *)
Definition on (event : E) (fn : L) (em : EventEmitter) : EventEmitter :=
  {| _events := _events em ++ [(event, fn)] |}.

(** The listeners [emitter.emit(event, ...)] calls, in the order it calls them. *)
Fixpoint listeners_of (event : E) (evs : list (E * L)) : list L :=
  match evs with
  | [] => []
  | (e, fn) :: evs' =>
      if decide (event = e) then fn :: listeners_of event evs'
      else listeners_of event evs'
  end.

Definition listeners (event : E) (em : EventEmitter) : list L :=
  listeners_of event (_events em).

(** [emitter.removeAllListeners()] *)
Definition removeAllListeners (em : EventEmitter) : EventEmitter :=
  {| _events := [] |}.
End EventEmitter.

Arguments EventEmitter : clear implicits.

(** ** Promises *)

Inductive Outcome :=
| Resolved
| Rejected (reason : string).

(** Object references, promises of the Manager's methods and timers are
    numbered in the order of their creation. *)
Abbreviation DevRef := nat (only parsing).
Abbreviation CallId := nat (only parsing).
Abbreviation TimerId := nat (only parsing).
Abbreviation Logger := string (only parsing).

(** ** devices/device.ts *)

Inductive Scalar :=
| SString (s : string)
| SNumber (n : Z)
| SBoolean (b : bool).

Module Device.

(** [interface TriggerEventArgs] *)
Record TriggerEventArgs := {
  triggerId : string;
  arguments : option (list (string * Scalar));
  replacesPrevious : option bool
}.

(** [interface ErrorArgs] *)
Record ErrorArgs := { error : string }.

(** The keys of [type DeviceEvents]. *)
Inductive DeviceEvents := trigger | error_.

(** The listeners of a device are the two closures that
    [InputManager.createDevice] subscribes: the one on [trigger] captures
    [deviceId], the one on [error] captures [deviceId] and [erroredDevice]. *)
Inductive Listener :=
| forwardTrigger (deviceId : string)
| teardownOnError (deviceId : string) (erroredDevice : DevRef).

(** [abstract class Device extends EventEmitter<DeviceEvents>] *)
Record Device := {
  emitter : EventEmitter DeviceEvents Listener;
  logger : Logger
}.

(** [constructor(logger)] *)
Definition new (logger : Logger) : Device :=
  {| emitter := {| _events := [] |}; logger := logger |}.

Definition with_emitter (f : EventEmitter DeviceEvents Listener ->
                             EventEmitter DeviceEvents Listener)
    (d : Device) : Device :=
  {| emitter := f (emitter d); logger := logger d |}.

(** [async destroy(): Promise<void> { this.removeAllListeners() }] *)
Definition destroy (d : Device) : Device * Outcome :=
  (with_emitter removeAllListeners d, Resolved).

(** [n] successive calls of [destroy]; the outcomes are collected. *)
Fixpoint destroy_times (n : nat) (d : Device) : Device * list Outcome :=
  match n with
  | 0 => (d, [])
  | S n' =>
      let '(d1, o) := destroy d in
      let '(d2, os) := destroy_times n' d1 in
      (d2, o :: os)
  end.

End Device.

#[global] Instance DeviceEvents_eq_dec : EqDecision Device.DeviceEvents.
Proof. solve_decision. Defined.
#[global] Instance Outcome_eq_dec : EqDecision Outcome.
Proof. solve_decision. Defined.

(** ** The collaborators of the Manager that are outside this development *)

(** Modelled from the spec: the enumeration [DeviceType] of
    [integrations/deviceType]; the configuration shape gives its four tags,
    one per integration. *)
Inductive DeviceType := HTTP | MIDI | STREAM_DECK | X_KEYS.

Definition DeviceType_of_tag (tag : string) : option DeviceType :=
  if decide (tag = "http") then Some HTTP
  else if decide (tag = "midi") then Some MIDI
  else if decide (tag = "streamdeck") then Some STREAM_DECK
  else if decide (tag = "xkeys") then Some X_KEYS
  else None.

(** [type SomeDeviceConfig]: the tag as it is found at run time; the
    type-specific fields are opaque to the Manager. *)
Record SomeDeviceConfig := { type : string; settings : string }.

(** Modelled from the spec: [SomeFeedback] of [feedback/feedback], an
    externally defined tagged variant that the Manager passes on unchanged. *)
Inductive SomeFeedback := Feedback (payload : string).

(** Modelled from the spec: [throwNever] of [lib]; an unrecognized type tag
    is a programming error, so the call throws.  The value thrown is caught
    by [createDevice] and never looked at. *)
Definition throwNever (c : SomeDeviceConfig) : string :=
  "Unexpected type: " +:+ type c.

(** An instance of one of the integration classes.  What the integration
    does is the environment's business; the Manager sees the [Device] part. *)
Record DeviceObj := {
  class : DeviceType;
  base : Device.Device
}.

Definition with_base (f : Device.Device -> Device.Device) (o : DeviceObj) : DeviceObj :=
  {| class := class o; base := f (base o) |}.

(** What a property read finds, as far as the Manager tells values apart:
    [undefined]; a device; another falsy value ([null], [false], [0], ..);
    any other value, a function or an object without a method
    [setFeedback]. *)
Inductive Lookup :=
| LookupUndefined
| LookupDevice (device : DevRef)
| LookupFalsy
| LookupOther.

(** The properties of the objects that the integrations construct.  The
    classes [HTTPDevice], [MIDIDevice], [StreamDeckDevice] and [XKeysDevice]
    are not part of this development, so what they define is a parameter:
    [device_member d k] is what a read of the property [k] finds on the
    device object [d] (the objects are numbered in the order of their
    creation), as an own property or on its classes down to [Device] and
    [EventEmitter], and [None] when they define no such property (the read
    then goes on to [Object.prototype]). *)
Class Integrations := device_member : DevRef -> string -> option Lookup.

#[global] Instance Lookup_eq_dec : EqDecision Lookup.
Proof. solve_decision. Defined.

(** ** input-manager: data *)

(** [interface TriggerEventArgs extends DeviceTriggerEventArgs] *)
Record TriggerEventArgs := {
  triggerId : string;
  arguments : option (list (string * Scalar));
  replacesPrevious : option bool;
  deviceId : string
}.

(** The period of the reconciliation timer.  Time is not modelled: an
    active timer fires when the environment says so ([LTick] below). *)
Definition REFRESH_INTERVAL : nat := 5000.

Abbreviation Subscriber := nat (only parsing).

(** The methods of a device that the Manager calls. *)
Inductive Method :=
| MInit
| MDestroy
| MSetFeedback (triggerId : string) (feedback : SomeFeedback)
| MClearFeedbackAll.

(** One call of a device method; [by_call] is the invocation of a Manager
    method on whose behalf it is made ([None] for the error listener). *)
Record Invocation := {
  by_call : option CallId;
  target : DevRef;
  method : Method
}.

(** The suspension points of the Manager: each constructor is one [await]
    (or one [.catch().finally()] chain) whose continuation runs in a later
    transition, and carries the variables that are live across it.  All but
    [FDestroyEmpty] wait for a promise that the environment settles. *)
Inductive Frame :=
| FInitBitmap (c : CallId)
    (* init: await initBitmapFeedback() *)
| FDeviceInit (c : CallId) (deviceId : string) (device : DevRef)
    (* createDevice: await device.init() *)
| FCreateDestroy (c : CallId) (deviceId : string) (device : DevRef)
    (* createDevice, catch: await device.destroy() *)
| FErrorDestroy (deviceId : string) (erroredDevice : DevRef)
    (* error listener: erroredDevice.destroy().catch(..).finally(..) *)
| FManagerDestroy (c : CallId) (device : DevRef)
    (* destroy: one promise of the Promise.all *)
| FSetFeedback (c : CallId) (device : DevRef)
    (* setFeedback: await device.setFeedback(..) *)
| FClearFeedbackAll (c : CallId) (device : DevRef) (rest : list DevRef)
    (* clearFeedbackAll: await device.clearFeedbackAll(), then the rest of the loop *)
| FDestroyEmpty (c : CallId).
    (* destroy: await Promise.all([]), no device being registered; the
       promise is fulfilled, the continuation has yet to run *)

(** Which method of the Manager an invocation belongs to;
    [KClearFeedbackAll] records the array that [Object.values] returned. *)
Inductive CallKind :=
| KInit
| KRefreshDevices
| KDestroy
| KSetFeedback
| KClearFeedbackAll (snapshot : list DevRef).

(** The promise returned by one invocation of an async method of the
    Manager: [awaiting] counts the promises of its [Promise.all] or
    [Promise.allSettled] that have not settled, [result] is [None] while the
    promise is pending. *)
Record Call := {
  kind : CallKind;
  awaiting : nat;
  result : option Outcome
}.

(** The Manager, the device objects it created and the promises in flight. *)
Record State := {
  config : JSObject SomeDeviceConfig;    (* this.config.devices *)
  logger : Logger;                       (* this.#logger *)
  devices : JSObject DevRef;             (* this.#devices: its own properties *)
  devices_proto : option DevRef;         (* this.#devices: its prototype, when
                                            an assignment under __proto__ has
                                            made a device of it *)
  refreshInterval : option TimerId;      (* this.#refreshInterval *)
  subscribers : list Subscriber;         (* listeners on the Manager's 'trigger' *)
  logged : list string;                  (* what went to this.#logger.error *)
  timers : list bool;                    (* the timers of setInterval: still active? *)
  heap : list DeviceObj;                 (* the device objects, by reference *)
  calls : list Call;                     (* the promises of the Manager's methods *)
  pending : list Frame;                  (* the awaits in flight *)
  invoked : list Invocation;             (* trace: device methods called *)
  delivered : list (Subscriber * TriggerEventArgs)  (* trace: events delivered *)
}.

#[global] Instance Frame_eq_dec : EqDecision Frame.
Proof. solve_decision. Defined.
#[global] Instance SomeFeedback_eq_dec : EqDecision SomeFeedback.
Proof. solve_decision. Defined.
#[global] Instance Method_eq_dec : EqDecision Method.
Proof. solve_decision. Defined.
#[global] Instance Invocation_eq_dec : EqDecision Invocation.
Proof. solve_decision. Defined.

(** Field updates. *)
Definition set_devices (v : JSObject DevRef) (s : State) : State :=
  {| config := config s;
     logger := logger s;
     devices := v;
     devices_proto := devices_proto s;
     refreshInterval := refreshInterval s;
     subscribers := subscribers s;
     logged := logged s;
     timers := timers s;
     heap := heap s;
     calls := calls s;
     pending := pending s;
     invoked := invoked s;
     delivered := delivered s |}.
Definition set_devices_proto (v : option DevRef) (s : State) : State :=
  {| config := config s;
     logger := logger s;
     devices := devices s;
     devices_proto := v;
     refreshInterval := refreshInterval s;
     subscribers := subscribers s;
     logged := logged s;
     timers := timers s;
     heap := heap s;
     calls := calls s;
     pending := pending s;
     invoked := invoked s;
     delivered := delivered s |}.
Definition set_refreshInterval (v : option TimerId) (s : State) : State :=
  {| config := config s;
     logger := logger s;
     devices := devices s;
     devices_proto := devices_proto s;
     refreshInterval := v;
     subscribers := subscribers s;
     logged := logged s;
     timers := timers s;
     heap := heap s;
     calls := calls s;
     pending := pending s;
     invoked := invoked s;
     delivered := delivered s |}.
Definition set_subscribers (v : list Subscriber) (s : State) : State :=
  {| config := config s;
     logger := logger s;
     devices := devices s;
     devices_proto := devices_proto s;
     refreshInterval := refreshInterval s;
     subscribers := v;
     logged := logged s;
     timers := timers s;
     heap := heap s;
     calls := calls s;
     pending := pending s;
     invoked := invoked s;
     delivered := delivered s |}.
Definition set_logged (v : list string) (s : State) : State :=
  {| config := config s;
     logger := logger s;
     devices := devices s;
     devices_proto := devices_proto s;
     refreshInterval := refreshInterval s;
     subscribers := subscribers s;
     logged := v;
     timers := timers s;
     heap := heap s;
     calls := calls s;
     pending := pending s;
     invoked := invoked s;
     delivered := delivered s |}.
Definition set_timers (v : list bool) (s : State) : State :=
  {| config := config s;
     logger := logger s;
     devices := devices s;
     devices_proto := devices_proto s;
     refreshInterval := refreshInterval s;
     subscribers := subscribers s;
     logged := logged s;
     timers := v;
     heap := heap s;
     calls := calls s;
     pending := pending s;
     invoked := invoked s;
     delivered := delivered s |}.
Definition set_heap (v : list DeviceObj) (s : State) : State :=
  {| config := config s;
     logger := logger s;
     devices := devices s;
     devices_proto := devices_proto s;
     refreshInterval := refreshInterval s;
     subscribers := subscribers s;
     logged := logged s;
     timers := timers s;
     heap := v;
     calls := calls s;
     pending := pending s;
     invoked := invoked s;
     delivered := delivered s |}.
Definition set_calls (v : list Call) (s : State) : State :=
  {| config := config s;
     logger := logger s;
     devices := devices s;
     devices_proto := devices_proto s;
     refreshInterval := refreshInterval s;
     subscribers := subscribers s;
     logged := logged s;
     timers := timers s;
     heap := heap s;
     calls := v;
     pending := pending s;
     invoked := invoked s;
     delivered := delivered s |}.
Definition set_pending (v : list Frame) (s : State) : State :=
  {| config := config s;
     logger := logger s;
     devices := devices s;
     devices_proto := devices_proto s;
     refreshInterval := refreshInterval s;
     subscribers := subscribers s;
     logged := logged s;
     timers := timers s;
     heap := heap s;
     calls := calls s;
     pending := v;
     invoked := invoked s;
     delivered := delivered s |}.
Definition set_invoked (v : list Invocation) (s : State) : State :=
  {| config := config s;
     logger := logger s;
     devices := devices s;
     devices_proto := devices_proto s;
     refreshInterval := refreshInterval s;
     subscribers := subscribers s;
     logged := logged s;
     timers := timers s;
     heap := heap s;
     calls := calls s;
     pending := pending s;
     invoked := v;
     delivered := delivered s |}.
Definition set_delivered (v : list (Subscriber * TriggerEventArgs)) (s : State) : State :=
  {| config := config s;
     logger := logger s;
     devices := devices s;
     devices_proto := devices_proto s;
     refreshInterval := refreshInterval s;
     subscribers := subscribers s;
     logged := logged s;
     timers := timers s;
     heap := heap s;
     calls := calls s;
     pending := pending s;
     invoked := invoked s;
     delivered := v |}.

(** [new InputManager(config, logger)] *)
Definition new_InputManager (config : JSObject SomeDeviceConfig) (logger : Logger) : State :=
  {| config := config; logger := logger; devices := []; devices_proto := None;
     refreshInterval := None;
     subscribers := []; logged := []; timers := []; heap := []; calls := [];
     pending := []; invoked := []; delivered := [] |}.

(** ** input-manager: the synchronous segments *)

Module InputManager.

Section WithIntegrations.
Context {integrations : Integrations}.

Definition quoted (x : string) : string :=
  String "034"%char x +:+ String "034"%char EmptyString.

(** [this.#logger.error(msg)] *)
Definition log_error (msg : string) (s : State) : State :=
  set_logged (logged s ++ [msg]) s.

(** A device method is called: the call is recorded. *)
Definition invoke (by_ : option CallId) (device : DevRef) (m : Method) (s : State) : State :=
  set_invoked (invoked s ++ [{| by_call := by_; target := device; method := m |}]) s.

(** The running function suspends on a promise of the environment. *)
Definition await (f : Frame) (s : State) : State :=
  set_pending (pending s ++ [f]) s.

(** One of the Manager's async methods is called: its promise is [length (calls s)]. *)
Definition new_call (k : CallKind) (n : nat) (r : option Outcome) (s : State) : State :=
  set_calls (calls s ++ [{| kind := k; awaiting := n; result := r |}]) s.

Definition settle_call (c : CallId) (o : Outcome) (s : State) : State :=
  set_calls
    (alter (fun cl => {| kind := kind cl; awaiting := awaiting cl; result := Some o |})
       c (calls s)) s.

Definition set_awaiting (c : CallId) (n : nat) (s : State) : State :=
  set_calls
    (alter (fun cl => {| kind := kind cl; awaiting := n; result := result cl |})
       c (calls s)) s.

(** [setInterval(..)] and [clearInterval(t)] *)
Definition setInterval (s : State) : TimerId * State :=
  (length (timers s), set_timers (timers s ++ [true]) s).

Definition clearInterval (t : TimerId) (s : State) : State :=
  set_timers (<[t := false]> (timers s)) s.

(** [device.on(event, fn)] *)
Definition device_on (device : DevRef) (event : Device.DeviceEvents)
    (fn : Device.Listener) (s : State) : State :=
  set_heap (alter (with_base (Device.with_emitter (on event fn))) device (heap s)) s.

(** [this.#devices[deviceId]]: the own property or, failing that, what the
    prototype chain has under that name.  On [Object.prototype] every member
    is a function, but for the accessor [__proto__], which returns the
    prototype of the object it is read on. *)
Definition devices_read (deviceId : string) (s : State) : Lookup :=
  match obj_get (devices s) deviceId with
  | Some device => LookupDevice device
  | None =>
      match devices_proto s with
      | None =>
          if object_prototype_member deviceId then LookupOther else LookupUndefined
      | Some p =>
          if decide (deviceId = "__proto__") then LookupDevice p
          else match device_member p deviceId with
               | Some found => found
               | None =>
                   if object_prototype_member deviceId then LookupOther
                   else LookupUndefined
               end
      end
  end.

(** [this.#devices[deviceId] = device]: under the name [__proto__] the
    assignment runs the setter of [Object.prototype], which makes [device]
    the prototype of [#devices] and creates no property. *)
Definition devices_assign (deviceId : string) (device : DevRef) (s : State) : State :=
  if decide (deviceId = "__proto__") then set_devices_proto (Some device) s
  else set_devices (obj_set deviceId device (devices s)) s.

(** [this.#devices = {}] *)
Definition devices_reset (s : State) : State :=
  set_devices_proto None (set_devices [] s).

(** [function createNewDevice(deviceConfig, logger)]: the switch over the
    type tag; [inr] is the value thrown in the default branch. *)
Definition createNewDevice (deviceConfig : SomeDeviceConfig) (s : State)
    : (DevRef * State) + string :=
  match DeviceType_of_tag (type deviceConfig) with
  | Some cls =>
      inl (length (heap s),
           set_heap (heap s ++ [{| class := cls; base := Device.new (logger s) |}]) s)
  | None => inr (throwNever deviceConfig)
  end.

(** [createDevice(deviceId, deviceConfig)] up to its first suspension.
    The boolean tells whether the function is suspended ([true]: on
    [device.init()]) or has returned. *)
Definition createDevice (c : CallId) (deviceId : string)
    (deviceConfig : SomeDeviceConfig) (s : State) : State * bool :=
  match createNewDevice deviceConfig s with
  | inl (device, s1) =>
      let s2 := device_on device Device.trigger (Device.forwardTrigger deviceId) s1 in
      let erroredDevice := device in
      let s3 := device_on device Device.error_
                  (Device.teardownOnError deviceId erroredDevice) s2 in
      let s4 := devices_assign deviceId device s3 in
      (await (FDeviceInit c deviceId device) (invoke (Some c) device MInit s4), true)
  | inr _ =>
      (* catch (e): device is undefined *)
      (set_devices (obj_delete deviceId (devices s)) s, false)
  end.

(** [Object.entries(this.config.devices).map(async ([deviceId, deviceConfig]) =>
    this.createDevice(deviceId, deviceConfig))]; the number is that of the
    promises still pending when the [map] returns. *)
Fixpoint createDevices (c : CallId) (entries : list (string * SomeDeviceConfig))
    (s : State) : State * nat :=
  match entries with
  | [] => (s, 0)
  | (deviceId, deviceConfig) :: rest =>
      let '(s1, p) := createDevice c deviceId deviceConfig s in
      let '(s2, n) := createDevices c rest s1 in
      (s2, (if p then 1 else 0) + n)
  end.

(** The same for the callback of [refreshDevices], which returns at once
    when [this.#devices[deviceId] !== undefined]. *)
Fixpoint refreshEntries (c : CallId) (entries : list (string * SomeDeviceConfig))
    (s : State) : State * nat :=
  match entries with
  | [] => (s, 0)
  | (deviceId, deviceConfig) :: rest =>
      match devices_read deviceId s with
      | LookupUndefined =>
          let '(s1, p) := createDevice c deviceId deviceConfig s in
          let '(s2, n) := refreshEntries c rest s1 in
          (s2, (if p then 1 else 0) + n)
      | _ => refreshEntries c rest s
      end
  end.

(** [init()] up to [await initBitmapFeedback()] *)
Definition init (s : State) : State :=
  let c := length (calls s) in
  await (FInitBitmap c) (new_call KInit 0 None (devices_reset s)).

(** [init()] after its [Promise.all] has resolved *)
Definition init_finish (c : CallId) (s : State) : State :=
  let '(t, s1) := setInterval s in
  settle_call c Resolved (set_refreshInterval (Some t) s1).

(** [init()] from the return of [initBitmapFeedback()] to the [Promise.all] *)
Definition init_createAll (c : CallId) (s : State) : State :=
  let '(s1, n) := createDevices c (obj_entries (config s)) s in
  if decide (n = 0) then init_finish c s1 else set_awaiting c n s1.

(** [refreshDevices()] up to its [Promise.allSettled] *)
Definition refreshDevices (s : State) : State :=
  let c := length (calls s) in
  let '(s1, n) := refreshEntries c (obj_entries (config s))
                    (new_call KRefreshDevices 0 None s) in
  if decide (n = 0) then settle_call c Resolved s1 else set_awaiting c n s1.

(** The promise of one [createDevice] settles: what the [Promise.all] of
    [init] and the [Promise.allSettled] of [refreshDevices] make of it. *)
Definition createDevice_settled (c : CallId) (o : Outcome) (s : State) : State :=
  match calls s !! c with
  | None => s
  | Some cl =>
      let n := pred (awaiting cl) in
      let s1 := set_awaiting c n s in
      match kind cl, result cl with
      | KInit, None =>
          match o with
          | Rejected e => settle_call c (Rejected e) s1
          | Resolved => if decide (n = 0) then init_finish c s1 else s1
          end
      | KRefreshDevices, None =>
          if decide (n = 0) then settle_call c Resolved s1 else s1
      | _, _ => s1
      end
  end.

(** [if (this.#refreshInterval) clearInterval(this.#refreshInterval)] *)
Definition clearRefreshInterval (s : State) : State :=
  match refreshInterval s with
  | Some t => clearInterval t s
  | None => s
  end.

(** [devices.map(async (device) => device.destroy())]: every [destroy()]
    is called before the [map] returns. *)
Definition destroy_each (c : CallId) (ds : list DevRef) (s : State) : State :=
  set_pending (pending s ++ (FManagerDestroy c <$> ds))
    (set_invoked
       (invoked s ++
        ((fun d => {| by_call := Some c; target := d; method := MDestroy |}) <$> ds))
       s).

(** [destroy()] up to its [await Promise.all(..)].  With no device
    registered there is nothing for the environment to settle, but the
    continuation still runs later, after the caller's synchronous code:
    [awaiting] then counts the promise of [Promise.all([])] itself. *)
Definition destroy (s : State) : State :=
  let c := length (calls s) in
  let s1 := set_subscribers [] s in
  let s2 := clearRefreshInterval s1 in
  let ds := obj_values (devices s2) in
  let s3 := destroy_each c ds s2 in
  match ds with
  | [] => await (FDestroyEmpty c) (new_call KDestroy 1 None s3)
  | _ :: _ => new_call KDestroy (length ds) None s3
  end.

(** One promise of the [Promise.all] of [destroy()] settles; when all have
    resolved, [this.#devices = {}] runs. *)
Definition destroy_settled (c : CallId) (o : Outcome) (s : State) : State :=
  match calls s !! c with
  | None => s
  | Some cl =>
      let n := pred (awaiting cl) in
      let s1 := set_awaiting c n s in
      match result cl, o with
      | None, Rejected e => settle_call c (Rejected e) s1
      | None, Resolved =>
          if decide (n = 0) then settle_call c Resolved (devices_reset s1) else s1
      | Some _, _ => s1
      end
  end.

(** [setFeedback(deviceId, triggerId, feedback)] up to its [await] *)
Definition setFeedback (deviceId triggerId : string) (feedback : SomeFeedback)
    (s : State) : State :=
  let c := length (calls s) in
  match devices_read deviceId s with
  | LookupUndefined | LookupFalsy =>
      (* if (!device) throw new Error(..) *)
      new_call KSetFeedback 0
        (Some (Rejected ("Error: Could not find device " +:+ quoted deviceId))) s
  | LookupDevice device =>
      await (FSetFeedback c device)
        (invoke (Some c) device (MSetFeedback triggerId feedback)
           (new_call KSetFeedback 0 None s))
  | LookupOther =>
      (* device.setFeedback is undefined: the call throws *)
      new_call KSetFeedback 0
        (Some (Rejected "TypeError: device.setFeedback is not a function")) s
  end.

(** The [for .. of] loop of [clearFeedbackAll()] over what is left of the array *)
Definition clearFeedbackAll_loop (c : CallId) (ds : list DevRef) (s : State) : State :=
  match ds with
  | [] => settle_call c Resolved s
  | device :: rest =>
      await (FClearFeedbackAll c device rest) (invoke (Some c) device MClearFeedbackAll s)
  end.

(** [clearFeedbackAll()] up to its first [await] *)
Definition clearFeedbackAll (s : State) : State :=
  let c := length (calls s) in
  let ds := obj_values (devices s) in
  clearFeedbackAll_loop c ds (new_call (KClearFeedbackAll ds) 0 None s).

(** [this.emit('trigger', payload)]: each subscriber is called, in
    subscription order. *)
Definition emit_trigger (payload : TriggerEventArgs) (s : State) : State :=
  set_delivered (delivered s ++ ((fun sub => (sub, payload)) <$> subscribers s)) s.

(** The listener on [trigger]: [this.emit('trigger', { ...eventArgs, deviceId })] *)
Definition on_trigger (deviceId : string) (eventArgs : Device.TriggerEventArgs)
    (s : State) : State :=
  emit_trigger
    {| triggerId := Device.triggerId eventArgs;
       arguments := Device.arguments eventArgs;
       replacesPrevious := Device.replacesPrevious eventArgs;
       deviceId := deviceId |} s.

(** The listener on [error], up to the call of [erroredDevice.destroy()] *)
Definition on_error (deviceId : string) (erroredDevice : DevRef)
    (errorArgs : Device.ErrorArgs) (s : State) : State :=
  let s1 := log_error ("Error in " +:+ quoted deviceId +:+ ": " +:+ Device.error errorArgs) s in
  await (FErrorDestroy deviceId erroredDevice) (invoke None erroredDevice MDestroy s1).

(** What a device emits. *)
Inductive Emission :=
| EmitTrigger (eventArgs : Device.TriggerEventArgs)
| EmitError (errorArgs : Device.ErrorArgs).

Definition event_of (e : Emission) : Device.DeviceEvents :=
  match e with
  | EmitTrigger _ => Device.trigger
  | EmitError _ => Device.error_
  end.

Definition call_listener (e : Emission) (s : State) (fn : Device.Listener) : State :=
  match fn, e with
  | Device.forwardTrigger deviceId, EmitTrigger eventArgs =>
      on_trigger deviceId eventArgs s
  | Device.teardownOnError deviceId erroredDevice, EmitError errorArgs =>
      on_error deviceId erroredDevice errorArgs s
  | _, _ => s
  end.

(** [device.emit(event, args)]: the listeners subscribed at that moment run in turn. *)
Definition device_emit (device : DevRef) (e : Emission) (s : State) : option State :=
  match heap s !! device with
  | None => None
  | Some o =>
      Some (fold_left (call_listener e) (listeners (event_of e) (Device.emitter (base o))) s)
  end.

(** The first occurrence of a frame is taken out of the list. *)
Fixpoint remove_first (f : Frame) (l : list Frame) : list Frame :=
  match l with
  | [] => []
  | g :: l' => if decide (f = g) then l' else g :: remove_first f l'
  end.

(** The code that runs when the promise a frame waits for settles with [o]. *)
Definition resume (f : Frame) (o : Outcome) (s : State) : State :=
  match f with
  | FInitBitmap c =>
      match o with
      | Resolved => init_createAll c s
      | Rejected e => settle_call c (Rejected e) s
      end
  | FDeviceInit c deviceId device =>
      match o with
      | Resolved => createDevice_settled c Resolved s
      | Rejected _ =>
          (* catch (e) { if (device) await device.destroy() .. *)
          await (FCreateDestroy c deviceId device) (invoke (Some c) device MDestroy s)
      end
  | FCreateDestroy c deviceId device =>
      match o with
      | Resolved =>
          (* .. delete this.#devices[deviceId] } *)
          createDevice_settled c Resolved
            (set_devices (obj_delete deviceId (devices s)) s)
      | Rejected e => createDevice_settled c (Rejected e) s
      end
  | FErrorDestroy deviceId _ =>
      let s1 := match o with
                | Resolved => s
                | Rejected e =>
                    log_error ("Error when trying to destroy " +:+ quoted deviceId
                               +:+ ": " +:+ e) s
                end in
      set_devices (obj_delete deviceId (devices s1)) s1
  | FManagerDestroy c _ => destroy_settled c o s
  | FDestroyEmpty c =>
      (* the promise of Promise.all([]) is fulfilled: [o] is not looked at *)
      destroy_settled c Resolved s
  | FSetFeedback c _ => settle_call c o s
  | FClearFeedbackAll c _ rest =>
      match o with
      | Resolved => clearFeedbackAll_loop c rest s
      | Rejected e => settle_call c (Rejected e) s
      end
  end.

End WithIntegrations.

End InputManager.

(** The members of the base class [Device] and of eventemitter3's
    [EventEmitter]: all of them, but the logger, are functions. *)
Definition base_members : Integrations :=
  fun _ k =>
    if bool_decide (k ∈ ["logger"; "setFeedback"; "clearFeedbackAll"; "init"; "destroy";
                         "eventNames"; "listeners"; "listenerCount"; "emit"; "on";
                         "addListener"; "once"; "removeListener"; "off";
                         "removeAllListeners"; "_events"; "_eventsCount"])
    then Some LookupOther else None.

Section Manager.
Context {integrations : Integrations}.

(** ** The transition system *)

Inductive Label :=
| LOnTrigger (sub : Subscriber)
    (* a client subscribes: manager.on('trigger', sub) *)
| LInit
| LRefreshDevices
| LDestroy
| LSetFeedback (deviceId triggerId : string) (feedback : SomeFeedback)
| LClearFeedbackAll
| LTick (t : TimerId)
    (* the interval timer t fires *)
| LSettle (f : Frame) (o : Outcome)
    (* the promise that f waits for settles *)
| LDeviceEmit (device : DevRef) (e : InputManager.Emission)
| LDeviceRemoveAllListeners (device : DevRef).
    (* an integration detaches its listeners, as Device.destroy does *)

Definition step (l : Label) (s : State) : option State :=
  match l with
  | LOnTrigger sub => Some (set_subscribers (subscribers s ++ [sub]) s)
  | LInit => Some (InputManager.init s)
  | LRefreshDevices => Some (InputManager.refreshDevices s)
  | LDestroy => Some (InputManager.destroy s)
  | LSetFeedback deviceId triggerId feedback =>
      Some (InputManager.setFeedback deviceId triggerId feedback s)
  | LClearFeedbackAll => Some (InputManager.clearFeedbackAll s)
  | LTick t =>
      match timers s !! t with
      | Some true => Some (InputManager.refreshDevices s)
      | _ => None
      end
  | LSettle f o =>
      if decide (f ∈ pending s)
      then Some (InputManager.resume f o
                   (set_pending (InputManager.remove_first f (pending s)) s))
      else None
  | LDeviceEmit device e => InputManager.device_emit device e s
  | LDeviceRemoveAllListeners device =>
      match heap s !! device with
      | None => None
      | Some _ =>
          Some (set_heap
                  (alter (with_base (fun d => fst (Device.destroy d))) device (heap s)) s)
      end
  end.

(** A run: the labels are taken from left to right. *)
Fixpoint run (ls : list Label) (s : State) : option State :=
  match ls with
  | [] => Some s
  | l :: ls' =>
      match step l s with
      | Some s' => run ls' s'
      | None => None
      end
  end.

(** The states a Manager built over [cfg] can be in. *)
Inductive reachable (cfg : JSObject SomeDeviceConfig) (lg : Logger) : State -> Prop :=
| reachable_new : reachable cfg lg (new_InputManager cfg lg)
| reachable_step s l s' :
    reachable cfg lg s -> step l s = Some s' -> reachable cfg lg s'.

(** ** Well-formed states *)

(** The listeners [createDevice] subscribes on the device it creates. *)
Definition standard_events (deviceId : string) (device : DevRef)
    : list (Device.DeviceEvents * Device.Listener) :=
  [(Device.trigger, Device.forwardTrigger deviceId);
   (Device.error_, Device.teardownOnError deviceId device)].

Definition events_of (o : DeviceObj) : list (Device.DeviceEvents * Device.Listener) :=
  _events (Device.emitter (base o)).

(** The device has listeners: it has not detached them. *)
Definition listening (s : State) (device : DevRef) : Prop :=
  exists o, heap s !! device = Some o /\ events_of o <> [].

(** A registered device is an object of the heap, and the listeners it has,
    if it still has them, are those of its own device-id. *)
Definition wired (s : State) (deviceId : string) (device : DevRef) : Prop :=
  exists o, heap s !! device = Some o
            /\ (events_of o = [] \/ events_of o = standard_events deviceId device).

Definition registry_wired (s : State) : Prop :=
  forall deviceId device, obj_get (devices s) deviceId = Some device ->
                          wired s deviceId device.

(** The invocation of a Manager method that a frame belongs to. *)
Definition frame_call (f : Frame) : option CallId :=
  match f with
  | FInitBitmap c | FDeviceInit c _ _ | FCreateDestroy c _ _
  | FManagerDestroy c _ | FDestroyEmpty c | FSetFeedback c _
  | FClearFeedbackAll c _ _ => Some c
  | FErrorDestroy _ _ => None
  end.

(** A frame can only be suspended in a method of its own kind. *)
Definition frame_fits (f : Frame) (k : CallKind) : Prop :=
  match f, k with
  | FInitBitmap _, KInit => True
  | (FDeviceInit _ _ _ | FCreateDestroy _ _ _), (KInit | KRefreshDevices) => True
  | (FManagerDestroy _ _ | FDestroyEmpty _), KDestroy => True
  | FSetFeedback _ _, KSetFeedback => True
  | FClearFeedbackAll _ _ _, KClearFeedbackAll _ => True
  | _, _ => False
  end.

Definition kinds (s : State) : list CallKind := kind <$> calls s.

Definition call_kind (s : State) (c : CallId) : option CallKind := kinds s !! c.

Definition frames_fit (s : State) : Prop :=
  forall f c, f ∈ pending s -> frame_call f = Some c ->
              exists k, call_kind s c = Some k /\ frame_fits f k.

Definition invoked_known (s : State) : Prop :=
  forall i c, i ∈ invoked s -> by_call i = Some c -> is_Some (call_kind s c).

Definition wf (s : State) : Prop :=
  registry_wired s /\ frames_fit s /\ invoked_known s.

(** What the creation of devices on behalf of the invocation [c] changes:
    device objects are added to the heap, [n] frames on their [init()] are
    suspended, and nothing else but the registry is touched. *)
Definition created (c : CallId) (n : nat) (s s' : State) : Prop :=
  config s' = config s /\ logger s' = logger s
  /\ refreshInterval s' = refreshInterval s /\ subscribers s' = subscribers s
  /\ logged s' = logged s /\ timers s' = timers s
  /\ calls s' = calls s /\ delivered s' = delivered s
  /\ (exists l, heap s' = heap s ++ l)
  /\ (exists fs, pending s' = pending s ++ fs /\ length fs = n
                 /\ Forall (fun f => exists id d, f = FDeviceInit c id d) fs)
  /\ (exists ivs, invoked s' = invoked s ++ ivs
                  /\ Forall (fun i => by_call i = Some c /\ method i = MInit
                                      /\ length (heap s) <= target i) ivs)
  /\ (registry_wired s -> registry_wired s').

(** Two states that differ at most in what well-formedness does not look at. *)
Definition core_eq (s s' : State) : Prop :=
  devices s' = devices s /\ heap s' = heap s /\ pending s' = pending s
  /\ invoked s' = invoked s /\ kinds s' = kinds s.

(** The invocation of a Manager method that a transition belongs to: the
    one it starts, or the one whose frame it resumes. *)
Definition origin (l : Label) (s : State) : option CallId :=
  match l with
  | LInit | LRefreshDevices | LDestroy | LSetFeedback _ _ _ | LClearFeedbackAll
  | LTick _ => Some (length (calls s))
  | LSettle f _ => frame_call f
  | LOnTrigger _ | LDeviceEmit _ _ | LDeviceRemoveAllListeners _ => None
  end.

(** The state in which the code of a transition starts to run. *)
Definition before (l : Label) (s : State) : State :=
  match l with
  | LSettle f _ => set_pending (InputManager.remove_first f (pending s)) s
  | _ => s
  end.

(** Code that runs on behalf of [oc] leaves the promises of the other
    invocations alone, and the frames it suspends and the device calls it
    makes are marked with [oc]. *)
Definition on_behalf (oc : option CallId) (s s' : State) : Prop :=
  (forall c, Some c <> oc -> calls s' !! c = calls s !! c)
  /\ (exists fs, pending s' = pending s ++ fs /\ Forall (fun g => frame_call g = oc) fs)
  /\ (exists ivs, invoked s' = invoked s ++ ivs /\ Forall (fun i => by_call i = oc) ivs)
  /\ (exists ks, kinds s' = kinds s ++ ks).



(** ** clearFeedbackAll: what can be observed of one invocation *)

(** The devices on which the invocation [c] has called [clearFeedbackAll],
    in the order of the calls. *)
Definition is_cleared_by (c : CallId) (i : Invocation) : bool :=
  bool_decide (by_call i = Some c /\ method i = MClearFeedbackAll).

Definition cleared_by (c : CallId) (s : State) : list DevRef :=
  map target (List.filter (is_cleared_by c) (invoked s)).

(** The device calls of the invocation [c] that are in flight. *)
Definition is_in_flight (c : CallId) (f : Frame) : bool :=
  match f with
  | FClearFeedbackAll c' _ _ => bool_decide (c' = c)
  | _ => false
  end.

Definition in_flight (c : CallId) (s : State) : list Frame :=
  List.filter (is_in_flight c) (pending s).

(** What holds at any moment of the invocation [c] of [clearFeedbackAll()]
    that iterates over [snapshot]: while its promise is pending, the devices
    called so far are a prefix of [snapshot] and the call on the last of them,
    and no other, is in flight; once it has resolved, every device of
    [snapshot] has been called, in that order; once it has rejected, the
    devices called are a prefix of [snapshot]; nothing is in flight then. *)
Definition sequential (c : CallId) (snapshot : list DevRef) (s : State) : Prop :=
  exists cl,
    calls s !! c = Some cl /\ kind cl = KClearFeedbackAll snapshot
    /\ match result cl with
       | None =>
           exists done device rest,
             snapshot = done ++ device :: rest
             /\ cleared_by c s = done ++ [device]
             /\ in_flight c s = [FClearFeedbackAll c device rest]
       | Some Resolved => cleared_by c s = snapshot /\ in_flight c s = []
       | Some (Rejected _) =>
           in_flight c s = []
           /\ exists done device rest,
                snapshot = done ++ device :: rest /\ cleared_by c s = done ++ [device]
       end.

(** ** Scenarios *)

(** The configuration [{a: midi, b: http}] of the specification's scenarios. *)
Definition config_ab : JSObject SomeDeviceConfig :=
  [("a", {| type := "midi"; settings := EmptyString |});
   ("b", {| type := "http"; settings := EmptyString |})].

Definition manager_ab : State := new_InputManager config_ab "logger".

(** [init()] has been called, [initBitmapFeedback()] has resolved and both
    devices have been created; their [init()] are pending. *)
Definition start_ab : list Label := [LInit; LSettle (FInitBitmap 0) Resolved].

(** Both devices are active and the reconciliation timer runs. *)
Definition up_ab : list Label :=
  start_ab ++ [LSettle (FDeviceInit 0 "a" 0) Resolved;
               LSettle (FDeviceInit 0 "b" 1) Resolved].

Definition state_up_ab : State :=
  Eval vm_compute in default manager_ab (run up_ab manager_ab).

(** The same with one subscriber, [7], on the Manager. *)
Definition subscribed_ab : list Label := LOnTrigger 7 :: up_ab.

Definition state_subscribed_ab : State :=
  Eval vm_compute in default manager_ab (run subscribed_ab manager_ab).

(** A race: device [0], registered under [a], emits [error] while its
    [init()] is still pending, and that [init()] then rejects.  The teardown
    of [createDevice] settles first and evicts [a]; the next reconciliation
    pass creates device [2] for [a]; the [destroy()] that the error listener
    called is still pending. *)
Definition race_ab : list Label :=
  start_ab ++
  [LSettle (FDeviceInit 0 "b" 1) Resolved;
   LDeviceEmit 0 (InputManager.EmitError {| Device.error := "Error: port closed" |});
   LSettle (FDeviceInit 0 "a" 0) (Rejected "Error: port closed");
   LSettle (FCreateDestroy 0 "a" 0) Resolved;
   LTick 0].

Definition state_race_ab : State :=
  Eval vm_compute in default manager_ab (run race_ab manager_ab).

(** The specification's scenario: [b] fails to initialise and is evicted,
    [a] is active and the reconciliation timer runs. *)
Definition b_failed_ab : list Label :=
  start_ab ++ [LSettle (FDeviceInit 0 "b" 1) (Rejected "Error: unreachable");
               LSettle (FCreateDestroy 0 "b" 1) Resolved;
               LSettle (FDeviceInit 0 "a" 0) Resolved].

Definition state_b_failed_ab : State :=
  Eval vm_compute in default manager_ab (run b_failed_ab manager_ab).

(** ** What a transition leaves alone *)

(** Code that, of the fields below, changes nothing but what its parameters
    say: it logs the lines [lg], delivers the events [dl], adds device
    objects to the heap without touching those that exist, and, when [tm] is
    set, starts one timer and stores it in [refreshInterval]. *)
Definition fields_step (lg : list string) (dl : list (nat * TriggerEventArgs)) (tm : bool)
    (s s' : State) : Prop :=
  config s' = config s /\ logger s' = logger s
  /\ subscribers s' = subscribers s
  /\ logged s' = logged s ++ lg
  /\ delivered s' = delivered s ++ dl
  /\ (exists new, heap s' = heap s ++ new)
  /\ if tm
     then timers s' = timers s ++ [true] /\ refreshInterval s' = Some (length (timers s))
     else timers s' = timers s /\ refreshInterval s' = refreshInterval s.

Definition is_error_emit (l : Label) : bool :=
  match l with
  | LDeviceEmit _ (InputManager.EmitError _) => true
  | _ => false
  end.

Definition is_detach (l : Label) : bool :=
  match l with
  | LDeviceRemoveAllListeners _ => true
  | _ => false
  end.

Definition is_subscribe (l : Label) : bool :=
  match l with
  | LOnTrigger _ => true
  | _ => false
  end.

(** Both devices are active; [init()] is called a second time and both new
    devices become active too. *)
Definition reinit_ab : list Label :=
  up_ab ++ [LInit; LSettle (FInitBitmap 1) Resolved;
            LSettle (FDeviceInit 1 "a" 2) Resolved;
            LSettle (FDeviceInit 1 "b" 3) Resolved].

Definition state_reinit_ab : State :=
  Eval vm_compute in default manager_ab (run reinit_ab manager_ab).

(** ** getIntegrationsConfigManifest *)

(** Modelled from the spec: the string value of each member of
    [DeviceType], as the configuration shape lists them. *)
Definition DeviceType_tag (t : DeviceType) : string :=
  match t with
  | HTTP => "http"
  | MIDI => "midi"
  | STREAM_DECK => "streamdeck"
  | X_KEYS => "xkeys"
  end.

(** [function getIntegrationsConfigManifest()]: an object literal with four
    computed keys, written in the order of the source.  The manifests
    themselves ([DEVICE_CONFIG] of each integration) are parameters. *)
Definition getIntegrationsConfigManifest {M : Type}
    (HTTP_CONFIG MIDI_CONFIG STREAM_DECK_CONFIG XKEYS_CONFIG : M) : JSObject M :=
  obj_set (DeviceType_tag X_KEYS) XKEYS_CONFIG
    (obj_set (DeviceType_tag STREAM_DECK) STREAM_DECK_CONFIG
       (obj_set (DeviceType_tag MIDI) MIDI_CONFIG
          (obj_set (DeviceType_tag HTTP) HTTP_CONFIG []))).

(** ** Further notions *)

(** A pass of [refreshDevices()] has nothing to create: every configured
    device-id is registered, or its type tag is not a known one. *)
Definition nothing_to_create (s : State) : Prop :=
  forall id cf, (id, cf) ∈ obj_entries (config s) ->
                is_Some (obj_get (devices s) id) \/ DeviceType_of_tag (type cf) = None.

(** Every registered device-id is a configured one, of a known type. *)
Definition registered_configured (s : State) : Prop :=
  forall id d, obj_get (devices s) id = Some d ->
               exists cf cls, (id, cf) ∈ obj_entries (config s)
                              /\ DeviceType_of_tag (type cf) = Some cls.

(** The timer stored in [refreshInterval] is one that [setInterval] returned. *)
Definition timer_known (s : State) : Prop :=
  forall t, refreshInterval s = Some t -> t < length (timers s).

(** Device [a] errors and is evicted, then the Manager is destroyed. *)
Definition evicted_destroyed_ab : list Label :=
  up_ab ++ [LDeviceEmit 0 (InputManager.EmitError {| Device.error := "Error: unplugged" |});
            LSettle (FErrorDestroy "a" 0) Resolved;
            LDestroy;
            LSettle (FManagerDestroy 1 1) Resolved].

Definition state_evicted_destroyed_ab : State :=
  Eval vm_compute in default manager_ab (run evicted_destroyed_ab manager_ab).

(** A configuration with a device of a type that no integration implements. *)
Definition config_ax : JSObject SomeDeviceConfig :=
  [("a", {| type := "midi"; settings := EmptyString |});
   ("x", {| type := "osc"; settings := EmptyString |})].

Definition state_ax : State :=
  Eval vm_compute in
    default manager_ab
      (run [LInit; LSettle (FInitBitmap 0) Resolved; LSettle (FDeviceInit 0 "a" 0) Resolved]
         (new_InputManager config_ax "logger")).

(** The Manager's [destroy()] is under way; both devices resolve, and
    [init()] is called again and completes. *)
Definition restart_ab : list Label :=
  [LSettle (FManagerDestroy 1 0) Resolved; LSettle (FManagerDestroy 1 1) Resolved;
   LInit; LSettle (FInitBitmap 2) Resolved;
   LSettle (FDeviceInit 2 "a" 2) Resolved; LSettle (FDeviceInit 2 "b" 3) Resolved].

Definition state_restart_ab : State :=
  Eval vm_compute in
    default manager_ab (run restart_ab (InputManager.destroy state_up_ab)).

Definition state_reinit_destroyed_ab : State :=
  Eval vm_compute in InputManager.destroy state_reinit_ab.

(** Device [a] emits [{triggerId: "t1"}]. *)
Definition emit_t1 : Label :=
  LDeviceEmit 0 (InputManager.EmitTrigger
                   {| Device.triggerId := "t1"; Device.arguments := None;
                      Device.replacesPrevious := None |}).

Definition state_destroyed_t1_ab : State :=
  Eval vm_compute in
    default manager_ab (run [emit_t1] (InputManager.destroy state_subscribed_ab)).

Definition state_start_ab : State :=
  Eval vm_compute in default manager_ab (run start_ab manager_ab).

(** The registry of [s'] holds nothing that the registry of [s] did not
    hold, but for devices of the entries [es], of a known type. *)
Definition registry_from (es : list (string * SomeDeviceConfig)) (s s' : State) : Prop :=
  forall id d, obj_get (devices s') id = Some d ->
               obj_get (devices s) id = Some d
               \/ exists cf cls, (id, cf) ∈ es /\ DeviceType_of_tag (type cf) = Some cls.

(** ** The promises of the Manager and the frames they wait for *)

Definition belongs_to (c : CallId) (f : Frame) : bool :=
  bool_decide (frame_call f = Some c).

(** The frames in flight that belong to the invocation [c]. *)
Definition frames_of (c : CallId) (s : State) : list Frame :=
  List.filter (belongs_to c) (pending s).

Definition is_creation_frame (f : Frame) : Prop :=
  match f with
  | FDeviceInit _ _ _ | FCreateDestroy _ _ _ => True
  | _ => False
  end.

(** How the promise of the invocation [c] stands to the frames it waits
    for.  [init()] first waits for [initBitmapFeedback()] alone; after that,
    like [refreshDevices()], it waits for its creations, one frame each, and
    [awaiting] counts them.  A pending promise always waits for something; a
    resolved one waits for nothing; after a [Promise.all] has rejected
    ([init()], [destroy()]) its other promises may still be in flight. *)
Definition accounted (c : CallId) (s : State) : Prop :=
  exists cl,
    calls s !! c = Some cl
    /\ match kind cl, result cl with
       | KInit, None =>
           (frames_of c s = [FInitBitmap c] /\ awaiting cl = 0)
           \/ (Forall is_creation_frame (frames_of c s)
               /\ awaiting cl = length (frames_of c s) /\ frames_of c s <> [])
       | KInit, Some Resolved => frames_of c s = []
       | KInit, Some (Rejected _) =>
           Forall is_creation_frame (frames_of c s)
           /\ awaiting cl = length (frames_of c s)
       | KRefreshDevices, None =>
           awaiting cl = length (frames_of c s) /\ frames_of c s <> []
       | KRefreshDevices, Some _ => frames_of c s = []
       | KDestroy, None =>
           awaiting cl = length (frames_of c s) /\ frames_of c s <> []
       | KDestroy, Some Resolved => frames_of c s = []
       | KDestroy, Some (Rejected _) => awaiting cl = length (frames_of c s)
       | KSetFeedback, None => length (frames_of c s) = 1
       | KSetFeedback, Some _ => frames_of c s = []
       | KClearFeedbackAll _, None => length (frames_of c s) = 1
       | KClearFeedbackAll _, Some _ => frames_of c s = []
       end.

Definition all_accounted (s : State) : Prop :=
  forall c, c < length (calls s) -> accounted c s.

(** Both devices are active and the Manager's [destroy()] is under way: the
    [destroy()] of device [0] has resolved, that of device [1] is pending. *)
Definition destroying_ab : list Label :=
  up_ab ++ [LDestroy; LSettle (FManagerDestroy 1 0) Resolved].

Definition state_destroying_ab : State :=
  Eval vm_compute in default manager_ab (run destroying_ab manager_ab).

Definition state_destroying_done_ab : State :=
  Eval vm_compute in
    default manager_ab (run [LSettle (FManagerDestroy 1 1) Resolved] state_destroying_ab).

(** [init()] is under way: the [init()] of device [0] has resolved, that of
    device [1] is pending. *)
Definition a_up_ab : list Label := start_ab ++ [LSettle (FDeviceInit 0 "a" 0) Resolved].

Definition state_a_up_ab : State :=
  Eval vm_compute in default manager_ab (run a_up_ab manager_ab).

(** ** The work that outstanding promises can still cause *)

(** A bound on the number of settlements that follow from one frame, itself
    included, over a configuration of [n] entries: the continuation of
    [await initBitmapFeedback()] creates at most [n] devices, each of which
    awaits [init()] and then, on failure, [destroy()]; the loop of
    [clearFeedbackAll] awaits once per device left. *)
Definition frame_weight (n : nat) (f : Frame) : nat :=
  match f with
  | FInitBitmap _ => 1 + 2 * n
  | FDeviceInit _ _ _ => 2
  | FClearFeedbackAll _ _ rest => 1 + length rest
  | FCreateDestroy _ _ _ | FErrorDestroy _ _ | FManagerDestroy _ _ | FDestroyEmpty _
  | FSetFeedback _ _ => 1
  end.

Definition backlog (s : State) : nat :=
  sum_list_with (frame_weight (length (obj_entries (config s)))) (pending s).

Definition is_settle (l : Label) : bool :=
  match l with
  | LSettle _ _ => true
  | _ => false
  end.

(** The label settles a frame with the outcome that [o] assigns to it. *)
Definition settles_with (o : Frame -> Outcome) (l : Label) : Prop :=
  exists f, l = LSettle f (o f).

(** Both devices are active; [setFeedback] on [a] and [clearFeedbackAll()]
    are under way. *)
Definition busy_ab : list Label :=
  up_ab ++ [LSetFeedback "a" "t1" (Feedback "on"); LClearFeedbackAll].

Definition state_busy_ab : State :=
  Eval vm_compute in default manager_ab (run busy_ab manager_ab).

(** Both devices are active and the Manager's [destroy()] has been called. *)
Definition destroy_called_ab : list Label := up_ab ++ [LDestroy].

Definition state_destroy_called_ab : State :=
  Eval vm_compute in default manager_ab (run destroy_called_ab manager_ab).

Definition state_destroy_rejected_ab : State :=
  Eval vm_compute in
    default manager_ab
      (run [LSettle (FManagerDestroy 1 1) (Rejected "Error: busy")] state_destroy_called_ab).

(** ** The calls of device.init() *)

Definition is_init (i : Invocation) : bool := bool_decide (method i = MInit).

(** The devices on which [init()] has been called, in the order of the calls. *)
Definition init_targets (s : State) : list DevRef :=
  target <$> List.filter is_init (invoked s).

(** From [s] to [s'], [k] device objects have been created and [init()] has
    been called on each of them, once, in the order of their creation, and
    on nothing else. *)
Definition inits_follow (s s' : State) : Prop :=
  exists k, length (heap s') = length (heap s) + k
            /\ init_targets s' = init_targets s ++ seq (length (heap s)) k.

(** ** What a reconciliation pass looks for *)


(** The device object that [createDevice] leaves in the heap: an instance
    of the integration, with the two listeners of its device-id. *)
Definition new_device (cls : DeviceType) (deviceId : string) (device : DevRef)
    (lg : Logger) : DeviceObj :=
  {| class := cls;
     base := {| Device.emitter := {| _events := standard_events deviceId device |};
                Device.logger := lg |} |}.

(** The pass [c] has created the device [d] for [deviceId]: the object is
    in the heap and in the registry, its [init()] has been called and
    [createDevice] waits for it. *)
Definition created_for (c : CallId) (cls : DeviceType) (deviceId : string) (d : DevRef)
    (s : State) : Prop :=
  obj_get (devices s) deviceId = Some d
  /\ heap s !! d = Some (new_device cls deviceId d (logger s))
  /\ {| by_call := Some c; target := d; method := MInit |} ∈ invoked s
  /\ FDeviceInit c deviceId d ∈ pending s.

(** ** Device-ids that name inherited properties *)







(** ** Two invocations of clearFeedbackAll() at once *)

(** Both devices are active and [clearFeedbackAll()] is called twice, the
    second time before the first call on a device has settled. *)
Definition overlap_ab : list Label := [LClearFeedbackAll; LClearFeedbackAll].

Definition state_overlap_ab : State :=
  Eval vm_compute in default manager_ab (run overlap_ab state_up_ab).

(** ** Proof tools *)

(** Projections of updated states are computed, and nothing else is unfolded. *)
Ltac sstate :=
  cbn [config logger devices devices_proto refreshInterval subscribers logged timers
       heap calls pending invoked delivered fst snd
       set_devices set_devices_proto set_refreshInterval set_subscribers set_logged
       set_timers set_heap set_calls set_pending set_invoked set_delivered
       InputManager.devices_reset InputManager.log_error InputManager.invoke InputManager.await
       InputManager.new_call InputManager.settle_call InputManager.set_awaiting
       InputManager.init_finish InputManager.setInterval InputManager.clearInterval
       InputManager.destroy_each InputManager.device_on InputManager.on_trigger
       InputManager.on_error InputManager.emit_trigger] in *.

(** ** Dictionaries *)

Section JSObjectFacts.
Context {A : Type}.
Implicit Types (o : list (string * A)) (k : string) (v : A).

Lemma obj_get_replace_eq o k v : is_Some (obj_get o k) -> obj_get (obj_replace k v o) k = Some v.
Proof.
  induction o as [|[k' v'] o IH]; simpl; [by intros [? ?]|].
  destruct (decide (k = k')) as [->|Hne]; simpl; intros Hs.
  - by rewrite decide_True.
  - rewrite decide_False by done. by apply IH.
Qed.

Lemma obj_get_replace_ne o k k' v : k' <> k -> obj_get (obj_replace k v o) k' = obj_get o k'.
Proof.
  intros Hne. induction o as [|[k0 v0] o IH]; simpl; [done|].
  destruct (decide (k = k0)) as [->|Hk]; simpl.
  - by rewrite !decide_False.
  - destruct (decide (k' = k0)); [done | apply IH].
Qed.

Lemma obj_get_insert_eq o k v : obj_get o k = None -> obj_get (obj_insert k v o) k = Some v.
Proof.
  induction o as [|[k' v'] o IH]; simpl; [by rewrite decide_True|].
  destruct (decide (k = k')) as [->|Hne]; [done|]. intros Hn.
  destruct (key_before k k'); simpl.
  - by rewrite decide_True.
  - rewrite decide_False by done. by apply IH.
Qed.

Lemma obj_get_insert_ne o k k' v : k' <> k -> obj_get (obj_insert k v o) k' = obj_get o k'.
Proof.
  intros Hne. induction o as [|[k0 v0] o IH]; simpl; [by rewrite decide_False|].
  destruct (key_before k k0); simpl.
  - by rewrite decide_False.
  - destruct (decide (k' = k0)); [done | apply IH].
Qed.

Lemma obj_get_set_eq o k v : obj_get (obj_set k v o) k = Some v.
Proof.
  unfold obj_set. destruct (obj_get o k) as [v0|] eqn:Hk.
  - apply obj_get_replace_eq. by rewrite Hk.
  - by apply obj_get_insert_eq.
Qed.

Lemma obj_get_set_ne o k k' v : k' <> k -> obj_get (obj_set k v o) k' = obj_get o k'.
Proof.
  intros Hne. unfold obj_set. destruct (obj_get o k).
  - by apply obj_get_replace_ne.
  - by apply obj_get_insert_ne.
Qed.

Lemma obj_get_delete_eq o k : obj_get (obj_delete k o) k = None.
Proof.
  induction o as [|[k' v'] o IH]; simpl; [done|].
  destruct (decide (k = k')) as [->|Hne]; simpl; [done|].
  by rewrite decide_False.
Qed.

Lemma obj_get_delete_ne o k k' : k' <> k -> obj_get (obj_delete k o) k' = obj_get o k'.
Proof.
  intros Hne. induction o as [|[k0 v0] o IH]; simpl; [done|].
  destruct (decide (k = k0)) as [->|Hk]; simpl.
  - by rewrite decide_False.
  - destruct (decide (k' = k0)); [done | apply IH].
Qed.

End JSObjectFacts.

(** The enumeration order: array indices by value ([2] before [10]), then
    the other names as they were created; an assignment to an existing
    property leaves it where it is. *)
Lemma obj_set_enumeration :
  obj_entries (obj_set "b" 5 (obj_set "2" 4 (obj_set "a" 3 (obj_set "10" 2
                 (obj_set "b" 1 (obj_set "01" 0 []))))))
  = [("2", 4); ("10", 2); ("01", 0); ("b", 5); ("a", 3)].
Proof. reflexivity. Qed.

Lemma obj_get_NoDup {A : Type} (o : list (string * A)) (k : string) (v : A) :
  NoDup (obj_keys o) -> (k, v) ∈ o -> obj_get o k = Some v.
Proof.
  induction o as [|[k' v'] o IH]; intros Hnd Hin; [by apply elem_of_nil in Hin|].
  unfold obj_keys in Hnd. rewrite fmap_cons in Hnd.
  apply list.NoDup_cons in Hnd as [Hk Hnd]. simpl.
  apply elem_of_cons in Hin as [[= -> ->]|Hin].
  - by rewrite decide_True.
  - rewrite decide_False; [by apply IH|].
    intros ->. apply Hk. apply list_elem_of_fmap. by exists (k', v).
Qed.


(** ** The base [Device] *)

Lemma destroy_times_S (n : nat) (d : Device.Device) :
  Device.destroy_times (S n) d
  = (fst (Device.destroy d), replicate (S n) Resolved).
Proof.
  revert d. induction n as [|n IH]; intros d; [reflexivity|].
  remember (S n) as m eqn:Hm.
  cbn [Device.destroy_times].
  destruct (Device.destroy d) as [d1 o] eqn:Hd.
  rewrite IH.
  unfold Device.destroy in Hd. injection Hd as <- <-.
  reflexivity.
Qed.

(** C9.  The base [Device.destroy()] never fails, leaves the device without
    any listener and changes nothing else; a second call returns the state
    and the outcome of the first, and so does any number of calls: there is
    nothing it could release twice. *)
Theorem Device_destroy_idempotent (d : Device.Device) (n : nat) :
  snd (Device.destroy d) = Resolved
  /\ _events (Device.emitter (fst (Device.destroy d))) = []
  /\ Device.logger (fst (Device.destroy d)) = Device.logger d
  /\ Device.destroy (fst (Device.destroy d)) = Device.destroy d
  /\ Device.destroy_times (S n) d
     = (fst (Device.destroy d), replicate (S n) Resolved).
Proof.
  repeat split. apply destroy_times_S.
Qed.

(** ** Settling a frame *)

Lemma step_settle (f : Frame) (o : Outcome) (s : State) :
  f ∈ pending s ->
  step (LSettle f o) s
  = Some (InputManager.resume f o
            (set_pending (InputManager.remove_first f (pending s)) s)).
Proof. intros Hin. simpl. by rewrite decide_True. Qed.

Lemma settle_call_lookup (c : CallId) (o : Outcome) (s : State) (cl : Call) :
  calls s !! c = Some cl ->
  calls (InputManager.settle_call c o s) !! c
  = Some {| kind := kind cl; awaiting := awaiting cl; result := Some o |}.
Proof.
  intros H. unfold InputManager.settle_call, set_calls. cbn [calls].
  by rewrite list_lookup_alter_eq, H.
Qed.

Lemma new_call_lookup (k : CallKind) (n : nat) (r : option Outcome) (s : State) :
  calls (InputManager.new_call k n r s) !! length (calls s)
  = Some {| kind := k; awaiting := n; result := r |}.
Proof.
  unfold InputManager.new_call, set_calls. cbn [calls].
  by rewrite lookup_app_r, Nat.sub_diag.
Qed.

(** ** setFeedback *)


Lemma devices_read_own (s : State) (deviceId : string) (device : DevRef) :
  obj_get (devices s) deviceId = Some device ->
  InputManager.devices_read deviceId s = LookupDevice device.
Proof. intros H. unfold InputManager.devices_read. by rewrite H. Qed.


(** ** Creating devices *)

(** Two states with the same fields are the same state. *)
Lemma state_ext (s s' : State) :
  config s = config s' -> logger s = logger s' -> devices s = devices s' ->
  devices_proto s = devices_proto s' ->
  refreshInterval s = refreshInterval s' -> subscribers s = subscribers s' ->
  logged s = logged s' -> timers s = timers s' -> heap s = heap s' ->
  calls s = calls s' -> pending s = pending s' -> invoked s = invoked s' ->
  delivered s = delivered s' ->
  s = s'.
Proof. destruct s, s'; cbn. intros; subst; reflexivity. Qed.

Lemma alter_snoc {A : Type} (f : A -> A) (l : list A) (x : A) :
  alter f (length l) (l ++ [x]) = l ++ [f x].
Proof. rewrite alter_app_r_alt by lia. by rewrite Nat.sub_diag. Qed.

Lemma createDevice_known (c : CallId) (deviceId : string) (deviceConfig : SomeDeviceConfig)
    (s : State) (cls : DeviceType) :
  DeviceType_of_tag (type deviceConfig) = Some cls ->
  InputManager.createDevice c deviceId deviceConfig s
  = (set_pending (pending s ++ [FDeviceInit c deviceId (length (heap s))])
       (set_invoked
          (invoked s ++ [{| by_call := Some c; target := length (heap s); method := MInit |}])
          (InputManager.devices_assign deviceId (length (heap s))
             (set_heap
                (heap s ++
                 [{| class := cls;
                     base := {| Device.emitter :=
                                  {| _events := standard_events deviceId (length (heap s)) |};
                                Device.logger := logger s |} |}])
                s))),
     true).
Proof.
  intros Hcls. unfold InputManager.createDevice, InputManager.createNewDevice.
  rewrite Hcls. f_equal. unfold InputManager.devices_assign.
  destruct (decide (deviceId = "__proto__"));
    (apply state_ext; sstate; try reflexivity; rewrite !alter_snoc; reflexivity).
Qed.

(** The two cases of [this.#devices[deviceId] = device]. *)
Ltac assign_cases :=
  unfold InputManager.devices_assign in *;
  match goal with
  | |- context [decide (?k = "__proto__")] =>
      destruct (decide (k = "__proto__")) as [?Hproto|?Hproto]
  | _ : context [decide (?k = "__proto__")] |- _ =>
      destruct (decide (k = "__proto__")) as [?Hproto|?Hproto]
  end.

Lemma createDevice_unknown (c : CallId) (deviceId : string)
    (deviceConfig : SomeDeviceConfig) (s : State) :
  DeviceType_of_tag (type deviceConfig) = None ->
  InputManager.createDevice c deviceId deviceConfig s
  = (set_devices (obj_delete deviceId (devices s)) s, false).
Proof.
  intros Hcls. unfold InputManager.createDevice, InputManager.createNewDevice.
  by rewrite Hcls.
Qed.

Lemma created_refl (c : CallId) (s : State) : created c 0 s s.
Proof.
  unfold created. repeat (split; [reflexivity|]).
  split; [exists []; by rewrite app_nil_r|].
  split; [exists []; by rewrite app_nil_r|].
  split; [exists []; by rewrite app_nil_r|]. done.
Qed.

Lemma created_trans (c : CallId) (n m : nat) (s s1 s2 : State) :
  created c n s s1 -> created c m s1 s2 -> created c (n + m) s s2.
Proof.
  intros (A1 & A2 & A3 & A4 & A5 & A6 & A7 & A8 & [l1 Hh1] & (fs1 & Hp1 & Hn1 & Hf1)
          & (iv1 & Hi1 & Hv1) & Hw1)
         (B1 & B2 & B3 & B4 & B5 & B6 & B7 & B8 & [l2 Hh2] & (fs2 & Hp2 & Hn2 & Hf2)
          & (iv2 & Hi2 & Hv2) & Hw2).
  unfold created.
  repeat (split; [congruence|]).
  split; [exists (l1 ++ l2); by rewrite Hh2, Hh1, app_assoc|].
  split.
  { exists (fs1 ++ fs2). rewrite Hp2, Hp1, app_assoc, length_app.
    split; [done|]. split; [lia|]. by apply Forall_app. }
  split; [|tauto].
  exists (iv1 ++ iv2). rewrite Hi2, Hi1, app_assoc. split; [done|].
  apply Forall_app. split; [done|].
  eapply List.Forall_impl; [|exact Hv2]. intros i (? & ? & Hle).
  rewrite Hh1, length_app in Hle. repeat split; [done..|lia].
Qed.

Lemma createDevice_created (c : CallId) (deviceId : string)
    (deviceConfig : SomeDeviceConfig) (s : State) :
  created c (if snd (InputManager.createDevice c deviceId deviceConfig s) then 1 else 0)
    s (fst (InputManager.createDevice c deviceId deviceConfig s)).
Proof.
  destruct (DeviceType_of_tag (type deviceConfig)) as [cls|] eqn:Hcls.
  - rewrite (createDevice_known _ _ _ _ cls Hcls). unfold created.
    assign_cases; sstate;
      (repeat (split; [reflexivity|]);
       split; [by eexists|];
       split;
       [eexists; split; [done|]; split; [done|]; apply Forall_singleton; by do 2 eexists|];
       split; [eexists; split; [done|]; by apply Forall_singleton|]).
    + intros Hw id d Hget. unfold wired. sstate.
      destruct (Hw id d Hget) as (o & Ho & Hev).
      exists o. split; [|done]. by apply lookup_app_l_Some.
    + intros Hw id d Hget. unfold wired. sstate.
      destruct (decide (id = deviceId)) as [->|Hne].
      * rewrite obj_get_set_eq in Hget. injection Hget as <-.
        eexists. split; [by rewrite lookup_app_r, Nat.sub_diag|]. by right.
      * rewrite obj_get_set_ne in Hget by done.
        destruct (Hw id d Hget) as (o & Ho & Hev).
        exists o. split; [|done]. by apply lookup_app_l_Some.
  - rewrite (createDevice_unknown _ _ _ _ Hcls). unfold created. sstate.
    repeat (split; [reflexivity|]).
    split; [exists []; by rewrite app_nil_r|].
    split; [exists []; by rewrite app_nil_r|].
    split; [exists []; by rewrite app_nil_r|].
    intros Hw id d Hget. unfold wired. sstate.
    destruct (decide (id = deviceId)) as [->|Hne].
    + by rewrite obj_get_delete_eq in Hget.
    + rewrite obj_get_delete_ne in Hget by done. exact (Hw id d Hget).
Qed.

Lemma createDevices_created (c : CallId) (entries : list (string * SomeDeviceConfig))
    (s : State) :
  created c (snd (InputManager.createDevices c entries s))
    s (fst (InputManager.createDevices c entries s)).
Proof.
  revert s. induction entries as [|[id cfg] rest IH]; intros s; simpl.
  - apply created_refl.
  - pose proof (createDevice_created c id cfg s) as H1.
    destruct (InputManager.createDevice c id cfg s) as [s1 p].
    pose proof (IH s1) as H2.
    destruct (InputManager.createDevices c rest s1) as [s2 n].
    simpl in *. eapply created_trans; eauto.
Qed.

Lemma refreshEntries_created (c : CallId) (entries : list (string * SomeDeviceConfig))
    (s : State) :
  created c (snd (InputManager.refreshEntries c entries s))
    s (fst (InputManager.refreshEntries c entries s)).
Proof.
  revert s. induction entries as [|[id cfg] rest IH]; intros s; simpl.
  - apply created_refl.
  - destruct (InputManager.devices_read id s); try apply IH.
    pose proof (createDevice_created c id cfg s) as H1.
    destruct (InputManager.createDevice c id cfg s) as [s1 p].
    pose proof (IH s1) as H2.
    destruct (InputManager.refreshEntries c rest s1) as [s2 n].
    simpl in *. eapply created_trans; eauto.
Qed.

(** ** Well-formedness is invariant *)

Lemma kinds_alter (f : Call -> Call) (c : CallId) (l : list Call) :
  (forall cl, kind (f cl) = kind cl) -> kind <$> alter f c l = kind <$> l.
Proof.
  intros Hf. revert c. induction l as [|x l IH]; intros [|c]; try done.
  - cbn. by rewrite Hf.
  - cbn. f_equal. apply IH.
Qed.

Lemma call_kind_lt (s : State) (c : CallId) :
  is_Some (call_kind s c) <-> c < length (calls s).
Proof.
  unfold call_kind, kinds. rewrite lookup_lt_is_Some. by rewrite length_fmap.
Qed.

Lemma call_kind_lookup (s : State) (c : CallId) (cl : Call) :
  calls s !! c = Some cl -> call_kind s c = Some (kind cl).
Proof. intros H. unfold call_kind, kinds. by rewrite list_lookup_fmap, H. Qed.

Lemma core_eq_refl (s : State) : core_eq s s.
Proof. by repeat split. Qed.

Lemma core_eq_trans (s1 s2 s3 : State) : core_eq s1 s2 -> core_eq s2 s3 -> core_eq s1 s3.
Proof. unfold core_eq. intros (?&?&?&?&?) (?&?&?&?&?). repeat split; congruence. Qed.

Lemma wf_core_eq (s s' : State) : core_eq s s' -> wf s -> wf s'.
Proof.
  intros (Hd & Hh & Hp & Hi & Hk) (Hw & Hf & Hv).
  unfold wf, registry_wired, wired, frames_fit, invoked_known, call_kind in *.
  rewrite Hd, Hh, Hp, Hi, Hk. done.
Qed.

Lemma core_eq_settle_call (c : CallId) (o : Outcome) (s : State) :
  core_eq s (InputManager.settle_call c o s).
Proof. unfold core_eq, kinds. sstate. repeat split. by apply kinds_alter. Qed.

Lemma core_eq_set_awaiting (c : CallId) (n : nat) (s : State) :
  core_eq s (InputManager.set_awaiting c n s).
Proof. unfold core_eq, kinds. sstate. repeat split. by apply kinds_alter. Qed.

Lemma core_eq_init_finish (c : CallId) (s : State) :
  core_eq s (InputManager.init_finish c s).
Proof. unfold core_eq, kinds. sstate. repeat split. by apply kinds_alter. Qed.

Lemma core_eq_log_error (msg : string) (s : State) :
  core_eq s (InputManager.log_error msg s).
Proof. by repeat split. Qed.

Lemma core_eq_createDevice_settled (c : CallId) (o : Outcome) (s : State) :
  core_eq s (InputManager.createDevice_settled c o s).
Proof.
  unfold InputManager.createDevice_settled.
  destruct (calls s !! c) as [cl|]; [|apply core_eq_refl].
  pose proof (core_eq_set_awaiting c (pred (awaiting cl)) s) as H1.
  destruct (kind cl), (result cl), o; try exact H1;
    try (destruct (decide (pred (awaiting cl) = 0)); try exact H1);
    (eapply core_eq_trans; [exact H1|]);
    first [apply core_eq_settle_call | apply core_eq_init_finish].
Qed.

Lemma wf_set_devices_nil (s : State) : wf s -> wf (set_devices [] s).
Proof. intros (Hw & Hf & Hv). split; [|done]. intros id d H. done. Qed.

Lemma wf_delete (deviceId : string) (s : State) :
  wf s -> wf (set_devices (obj_delete deviceId (devices s)) s).
Proof.
  intros (Hw & Hf & Hv). split; [|done]. intros id d H. sstate.
  destruct (decide (id = deviceId)) as [->|Hne].
  - by rewrite obj_get_delete_eq in H.
  - rewrite obj_get_delete_ne in H by done. exact (Hw id d H).
Qed.

Lemma wf_destroy_settled (c : CallId) (o : Outcome) (s : State) :
  wf s -> wf (InputManager.destroy_settled c o s).
Proof.
  intros Hwf. unfold InputManager.destroy_settled.
  destruct (calls s !! c) as [cl|]; [|done].
  pose proof (wf_core_eq _ _ (core_eq_set_awaiting c (pred (awaiting cl)) s) Hwf) as H1.
  destruct (result cl), o; try exact H1.
  - destruct (decide (pred (awaiting cl) = 0)); [|exact H1].
    eapply wf_core_eq; [apply core_eq_settle_call|]. by apply wf_set_devices_nil.
  - eapply wf_core_eq; [apply core_eq_settle_call|]. exact H1.
Qed.

Lemma remove_first_subset (f g : Frame) (l : list Frame) :
  g ∈ InputManager.remove_first f l -> g ∈ l.
Proof.
  induction l as [|x l IH]; simpl; [done|].
  destruct (decide (f = x)); rewrite ?elem_of_cons; [tauto|]. intros [?|?]; auto.
Qed.

Lemma wf_remove (f : Frame) (s : State) :
  wf s -> wf (set_pending (InputManager.remove_first f (pending s)) s).
Proof.
  intros (Hw & Hf & Hv). split; [done|]. split; [|done].
  intros g c Hg. sstate. apply Hf. by eapply remove_first_subset.
Qed.

Lemma wf_new_call (k : CallKind) (n : nat) (r : option Outcome) (s : State) :
  wf s -> wf (InputManager.new_call k n r s).
Proof.
  intros (Hw & Hf & Hv). split; [done|].
  assert (Hk : forall c k0, call_kind s c = Some k0 ->
                 call_kind (InputManager.new_call k n r s) c = Some k0).
  { intros c k0 H. unfold call_kind, kinds in *. sstate.
    rewrite fmap_app. by apply lookup_app_l_Some. }
  split.
  - intros g c Hg Hc. destruct (Hf g c Hg Hc) as (k0 & H1 & H2). exists k0. auto.
  - intros i c Hi Hc. destruct (Hv i c Hi Hc) as [k0 H1]. exists k0. auto.
Qed.

Lemma call_kind_new_call (k : CallKind) (n : nat) (r : option Outcome) (s : State) :
  call_kind (InputManager.new_call k n r s) (length (calls s)) = Some k.
Proof.
  unfold call_kind, kinds. sstate. rewrite fmap_app.
  rewrite lookup_app_r; rewrite length_fmap; [|done]. by rewrite Nat.sub_diag.
Qed.

Lemma wf_await (f : Frame) (s : State) :
  wf s ->
  (forall c, frame_call f = Some c -> exists k, call_kind s c = Some k /\ frame_fits f k) ->
  wf (InputManager.await f s).
Proof.
  intros (Hw & Hf & Hv) H. split; [done|]. split; [|done].
  intros g c Hg Hc. sstate. apply elem_of_app in Hg as [Hg|Hg].
  - by apply Hf.
  - apply list_elem_of_singleton in Hg as ->. by apply H.
Qed.

Lemma wf_invoke (by_ : option CallId) (d : DevRef) (m : Method) (s : State) :
  wf s ->
  (forall c, by_ = Some c -> is_Some (call_kind s c)) ->
  wf (InputManager.invoke by_ d m s).
Proof.
  intros (Hw & Hf & Hv) H. split; [done|]. split; [done|].
  intros i c Hi Hc. sstate. apply elem_of_app in Hi as [Hi|Hi].
  - by eapply Hv.
  - apply list_elem_of_singleton in Hi as ->. by apply H.
Qed.

Lemma wf_created (c : CallId) (n : nat) (s s' : State) (k : CallKind) :
  wf s -> created c n s s' ->
  call_kind s c = Some k -> (k = KInit \/ k = KRefreshDevices) ->
  wf s'.
Proof.
  intros (Hw & Hf & Hv) (_ & _ & _ & _ & _ & _ & Hc & _ & _ & (fs & Hp & _ & Hfs)
                         & (ivs & Hi & Hivs) & Hw') Hk Hkk.
  assert (Hkinds : forall c0, call_kind s' c0 = call_kind s c0).
  { intros c0. unfold call_kind, kinds. by rewrite Hc. }
  split; [auto|]. split.
  - intros g c0 Hg Hc0. rewrite Hkinds. rewrite Hp in Hg.
    apply elem_of_app in Hg as [Hg|Hg]; [by apply Hf|].
    rewrite list.Forall_forall in Hfs. destruct (Hfs g Hg) as (id & d & ->).
    simpl in Hc0. injection Hc0 as <-. exists k. split; [done|].
    destruct Hkk as [-> | ->]; exact I.
  - intros i c0 Hi0 Hc0. rewrite Hkinds. rewrite Hi in Hi0.
    apply elem_of_app in Hi0 as [Hi0|Hi0]; [by eapply Hv|].
    rewrite list.Forall_forall in Hivs. destruct (Hivs i Hi0) as (Hby & _).
    rewrite Hby in Hc0. injection Hc0 as <-. by rewrite Hk.
Qed.

Lemma wf_extend (s s' : State) :
  wf s ->
  (registry_wired s -> registry_wired s') ->
  (forall c k, call_kind s c = Some k -> call_kind s' c = Some k) ->
  (forall g, g ∈ pending s' ->
             g ∈ pending s
             \/ forall c, frame_call g = Some c ->
                          exists k, call_kind s' c = Some k /\ frame_fits g k) ->
  (forall i, i ∈ invoked s' ->
             i ∈ invoked s \/ forall c, by_call i = Some c -> is_Some (call_kind s' c)) ->
  wf s'.
Proof.
  intros (Hw & Hf & Hv) Hw' Hk Hp Hi. split; [auto|]. split.
  - intros g c Hg Hc. destruct (Hp g Hg) as [Hold|Hnew]; [|by apply Hnew].
    destruct (Hf g c Hold Hc) as (k & H1 & H2). exists k. auto.
  - intros i c Hi0 Hc. destruct (Hi i Hi0) as [Hold|Hnew]; [|by apply Hnew].
    destruct (Hv i c Hold Hc) as [k H1]. exists k. auto.
Qed.

Lemma wf_init (s : State) : wf s -> wf (InputManager.init s).
Proof.
  intros Hwf. unfold InputManager.init. apply wf_await.
  - by apply wf_new_call, wf_set_devices_nil.
  - intros c [= <-]. exists KInit. split; [|exact I].
    apply (call_kind_new_call KInit 0 None (InputManager.devices_reset s)).
Qed.

Lemma wf_refreshDevices (s : State) : wf s -> wf (InputManager.refreshDevices s).
Proof.
  intros Hwf. unfold InputManager.refreshDevices.
  pose proof (refreshEntries_created (length (calls s)) (obj_entries (config s))
                (InputManager.new_call KRefreshDevices 0 None s)) as Hcr.
  destruct (InputManager.refreshEntries _ _ _) as [s1 n]. simpl in Hcr.
  assert (wf s1) as Hwf1.
  { eapply wf_created; [by apply wf_new_call | exact Hcr | apply call_kind_new_call | auto]. }
  destruct (decide (n = 0)).
  - eapply wf_core_eq; [apply core_eq_settle_call | done].
  - eapply wf_core_eq; [apply core_eq_set_awaiting | done].
Qed.

Lemma destroy_fields (s : State) :
  let s' := InputManager.destroy s in
  let ds := obj_values (devices s) in
  let c := length (calls s) in
  config s' = config s /\ logger s' = logger s
  /\ devices s' = devices s
  /\ refreshInterval s' = refreshInterval s
  /\ subscribers s' = []
  /\ logged s' = logged s
  /\ timers s' = match refreshInterval s with
                 | Some t => <[t := false]> (timers s)
                 | None => timers s
                 end
  /\ heap s' = heap s
  /\ calls s' = calls s ++ [{| kind := KDestroy;
                               awaiting := match ds with
                                           | [] => 1
                                           | _ :: _ => length ds
                                           end;
                               result := None |}]
  /\ pending s' = pending s ++ match ds with
                               | [] => [FDestroyEmpty c]
                               | _ :: _ => FManagerDestroy c <$> ds
                               end
  /\ invoked s' = invoked s ++
                  ((fun d => {| by_call := Some c; target := d; method := MDestroy |}) <$> ds)
  /\ delivered s' = delivered s
  /\ devices_proto s' = devices_proto s.
Proof.
  unfold InputManager.destroy, InputManager.clearRefreshInterval. sstate.
  destruct (refreshInterval s) eqn:Hri; sstate;
    destruct (obj_values (devices s)); sstate; rewrite ?Hri, ?app_nil_r; repeat split.
Qed.

(** The frames that [destroy()] suspends are its own. *)
Lemma destroy_frames (c : CallId) (ds : list DevRef) (g : Frame) :
  g ∈ match ds with
      | [] => [FDestroyEmpty c]
      | _ :: _ => FManagerDestroy c <$> ds
      end ->
  frame_call g = Some c /\ frame_fits g KDestroy.
Proof.
  destruct ds as [|d ds]; intros Hg.
  - by apply list_elem_of_singleton in Hg as ->.
  - by apply list_elem_of_fmap in Hg as (d' & -> & _).
Qed.

Lemma wf_destroy (s : State) : wf s -> wf (InputManager.destroy s).
Proof.
  intros Hwf.
  destruct (destroy_fields s) as (_ & _ & Hd & _ & _ & _ & _ & Hh & Hc & Hp & Hi & _).
  assert (Hkc : call_kind (InputManager.destroy s) (length (calls s)) = Some KDestroy).
  { unfold call_kind, kinds. rewrite Hc, fmap_app.
    rewrite lookup_app_r; rewrite length_fmap; [|done]. by rewrite Nat.sub_diag. }
  apply (wf_extend s); [done|..].
  - intros Hw id d H. unfold wired. rewrite Hh. apply Hw. by rewrite Hd in H.
  - intros c k Hk. unfold call_kind, kinds in *. rewrite Hc, fmap_app.
    by apply lookup_app_l_Some.
  - intros g Hg. rewrite Hp in Hg. apply elem_of_app in Hg as [?|Hg]; [by left|].
    apply destroy_frames in Hg as [Hgc Hgk].
    right. intros c Hc'. rewrite Hgc in Hc'. injection Hc' as <-. by exists KDestroy.
  - intros i Hi0. rewrite Hi in Hi0. apply elem_of_app in Hi0 as [?|Hi0]; [by left|].
    apply list_elem_of_fmap in Hi0 as (d & -> & _).
    right. intros c [= <-]. by rewrite Hkc.
Qed.

Lemma wf_setFeedback (deviceId triggerId : string) (feedback : SomeFeedback) (s : State) :
  wf s -> wf (InputManager.setFeedback deviceId triggerId feedback s).
Proof.
  intros Hwf. unfold InputManager.setFeedback.
  destruct (InputManager.devices_read deviceId s) as [|d| |]; try (by apply wf_new_call).
  apply wf_await; [apply wf_invoke; [by apply wf_new_call|]|].
  - intros c [= <-]. eexists. apply call_kind_new_call.
  - intros c [= <-]. exists KSetFeedback. split; [|exact I].
    apply (call_kind_new_call KSetFeedback 0 None s).
Qed.

Lemma wf_clearFeedbackAll_loop (c : CallId) (ds snap : list DevRef) (s : State) :
  wf s -> call_kind s c = Some (KClearFeedbackAll snap) ->
  wf (InputManager.clearFeedbackAll_loop c ds s).
Proof.
  intros Hwf Hk. destruct ds as [|d rest]; simpl.
  - eapply wf_core_eq; [apply core_eq_settle_call | done].
  - apply wf_await; [apply wf_invoke; [done|]|].
    + intros c0 [= <-]. by rewrite Hk.
    + intros c0 [= <-]. eexists. split; [exact Hk | exact I].
Qed.

Lemma wf_clearFeedbackAll (s : State) : wf s -> wf (InputManager.clearFeedbackAll s).
Proof.
  intros Hwf. unfold InputManager.clearFeedbackAll.
  eapply wf_clearFeedbackAll_loop; [by apply wf_new_call | apply call_kind_new_call].
Qed.

Lemma wf_init_createAll (c : CallId) (s : State) :
  wf s -> call_kind s c = Some KInit -> wf (InputManager.init_createAll c s).
Proof.
  intros Hwf Hk. unfold InputManager.init_createAll.
  pose proof (createDevices_created c (obj_entries (config s)) s) as Hcr.
  destruct (InputManager.createDevices _ _ _) as [s1 n]. simpl in Hcr.
  assert (wf s1) as Hwf1 by (eapply wf_created; eauto).
  destruct (decide (n = 0)).
  - eapply wf_core_eq; [apply core_eq_init_finish | done].
  - eapply wf_core_eq; [apply core_eq_set_awaiting | done].
Qed.

Lemma wf_resume (f : Frame) (o : Outcome) (s : State) :
  wf s -> f ∈ pending s ->
  wf (InputManager.resume f o (set_pending (InputManager.remove_first f (pending s)) s)).
Proof.
  intros Hwf Hin.
  assert (forall c, frame_call f = Some c ->
            exists k, call_kind (set_pending (InputManager.remove_first f (pending s)) s) c
                      = Some k /\ frame_fits f k) as Hfit.
  { intros c Hc. destruct Hwf as (_ & Hf & _). exact (Hf f c Hin Hc). }
  apply (wf_remove f) in Hwf.
  revert Hwf Hfit. generalize (set_pending (InputManager.remove_first f (pending s)) s).
  clear s Hin. intros s Hwf Hfit.
  destruct f as [c|c id d|c id d|id d|c d|c d|c d rest|c]; simpl.
  - destruct (Hfit c eq_refl) as (k & Hk & Hfk). destruct k; try done.
    destruct o.
    + by apply wf_init_createAll.
    + eapply wf_core_eq; [apply core_eq_settle_call | done].
  - destruct (Hfit c eq_refl) as (k & Hk & Hfk).
    destruct o.
    + eapply wf_core_eq; [apply core_eq_createDevice_settled | done].
    + apply wf_await; [apply wf_invoke; [done|]|].
      * intros c0 [= <-]. by rewrite Hk.
      * intros c0 [= <-]. exists k. split; [done|]. by destruct k.
  - destruct o.
    + eapply wf_core_eq; [apply core_eq_createDevice_settled|]. by apply wf_delete.
    + eapply wf_core_eq; [apply core_eq_createDevice_settled | done].
  - destruct o.
    + by apply wf_delete.
    + apply (wf_delete id (InputManager.log_error _ s)).
      eapply wf_core_eq; [apply core_eq_log_error | done].
  - by apply wf_destroy_settled.
  - eapply wf_core_eq; [apply core_eq_settle_call | done].
  - destruct (Hfit c eq_refl) as (k & Hk & Hfk). destruct k; try done.
    destruct o.
    + by eapply wf_clearFeedbackAll_loop.
    + eapply wf_core_eq; [apply core_eq_settle_call | done].
  - by apply wf_destroy_settled.
Qed.

Lemma wf_call_listener (e : InputManager.Emission) (fn : Device.Listener) (s : State) :
  wf s -> wf (InputManager.call_listener e s fn).
Proof.
  intros Hwf. destruct fn as [id|id d], e as [args|args]; simpl; try done.
  unfold InputManager.on_error.
  apply wf_await; [apply wf_invoke|]; try done.
  all: try (eapply wf_core_eq; [apply core_eq_log_error | done]).
Qed.

Lemma wf_fold_listeners (e : InputManager.Emission) (fns : list Device.Listener)
    (s : State) :
  wf s -> wf (fold_left (InputManager.call_listener e) fns s).
Proof.
  revert s. induction fns as [|fn fns IH]; intros s Hwf; simpl; [done|].
  by apply IH, wf_call_listener.
Qed.

Lemma wf_detach (device : DevRef) (s : State) :
  wf s ->
  wf (set_heap (alter (with_base (fun d => fst (Device.destroy d))) device (heap s)) s).
Proof.
  intros (Hw & Hf & Hv). split; [|done].
  intros id d H. unfold wired. sstate.
  destruct (Hw id d H) as (o & Ho & He).
  destruct (decide (device = d)) as [->|Hne].
  - eexists. split; [by rewrite list_lookup_alter_eq, Ho|]. by left.
  - exists o. split; [by rewrite list_lookup_alter_ne|done].
Qed.

Lemma wf_new (cfg : JSObject SomeDeviceConfig) (lg : Logger) : wf (new_InputManager cfg lg).
Proof.
  split; [|split].
  - intros id d H. done.
  - intros f c H. by apply elem_of_nil in H.
  - intros i c H. by apply elem_of_nil in H.
Qed.

Lemma wf_step (l : Label) (s s' : State) : wf s -> step l s = Some s' -> wf s'.
Proof.
  intros Hwf Hstep. destruct l as [sub| | | |did tid fb| |t|f o|device e|device]; simpl in Hstep.
  - injection Hstep as <-. done.
  - injection Hstep as <-. by apply wf_init.
  - injection Hstep as <-. by apply wf_refreshDevices.
  - injection Hstep as <-. by apply wf_destroy.
  - injection Hstep as <-. by apply wf_setFeedback.
  - injection Hstep as <-. by apply wf_clearFeedbackAll.
  - destruct (timers s !! t) as [[|]|]; try done.
    injection Hstep as <-. by apply wf_refreshDevices.
  - destruct (decide (f ∈ pending s)); [|done].
    injection Hstep as <-. by apply wf_resume.
  - unfold InputManager.device_emit in Hstep.
    destruct (heap s !! device); [|done].
    injection Hstep as <-. by apply wf_fold_listeners.
  - destruct (heap s !! device); [|done].
    injection Hstep as <-. by apply wf_detach.
Qed.

Lemma reachable_wf (cfg : JSObject SomeDeviceConfig) (lg : Logger) (s : State) :
  reachable cfg lg s -> wf s.
Proof.
  induction 1 as [|s l s' _ IH Hstep]; [apply wf_new | by eapply wf_step].
Qed.

Lemma run_reachable (cfg : JSObject SomeDeviceConfig) (lg : Logger) (ls : list Label)
    (s s' : State) :
  reachable cfg lg s -> run ls s = Some s' -> reachable cfg lg s'.
Proof.
  revert s. induction ls as [|l ls IH]; intros s Hs Hrun; simpl in Hrun.
  - by injection Hrun as <-.
  - destruct (step l s) as [s1|] eqn:Hstep; [|done].
    eapply IH; [|exact Hrun]. by eapply reachable_step.
Qed.

Lemma reachable_run (ls : list Label) (s : State) :
  run ls manager_ab = Some s -> reachable config_ab "logger" s.
Proof. apply run_reachable, reachable_new. Qed.

Lemma reachable_up_ab : reachable config_ab "logger" state_up_ab.
Proof. apply (reachable_run up_ab). vm_compute. reflexivity. Qed.

Lemma reachable_subscribed_ab : reachable config_ab "logger" state_subscribed_ab.
Proof. apply (reachable_run subscribed_ab). vm_compute. reflexivity. Qed.

Lemma reachable_race_ab : reachable config_ab "logger" state_race_ab.
Proof. apply (reachable_run race_ab). vm_compute. reflexivity. Qed.


(** A registered device that still has listeners has exactly the two that
    [createDevice] subscribed for the id it is registered under. *)
Lemma registered_listening (cfg : JSObject SomeDeviceConfig) (lg : Logger) (s : State)
    (deviceId : string) (device : DevRef) :
  reachable cfg lg s ->
  obj_get (devices s) deviceId = Some device ->
  listening s device ->
  exists o, heap s !! device = Some o /\ events_of o = standard_events deviceId device.
Proof.
  intros Hr Hget (o & Ho & Hne).
  destruct (reachable_wf _ _ _ Hr) as (Hw & _).
  destruct (Hw _ _ Hget) as (o' & Ho' & [He|He]).
  - rewrite Ho in Ho'. injection Ho' as <-. done.
  - exists o'. done.
Qed.

(** ** Events of a device *)

(** C7.  When a device registered under [deviceId] emits [trigger] with
    [eventArgs], every subscriber of the Manager receives, in subscription
    order, one event: [eventArgs] with [deviceId] attached, the fields
    [triggerId], [arguments] and [replacesPrevious] being those of
    [eventArgs]; nothing else changes.  (A device that has detached its
    listeners, as its [destroy()] does, reaches nobody when it emits.) *)
Theorem trigger_reemitted_with_deviceId (cfg : JSObject SomeDeviceConfig) (lg : Logger)
    (s : State) (deviceId : string) (device : DevRef)
    (eventArgs : Device.TriggerEventArgs) :
  reachable cfg lg s ->
  obj_get (devices s) deviceId = Some device ->
  listening s device ->
  step (LDeviceEmit device (InputManager.EmitTrigger eventArgs)) s
  = Some (set_delivered
            (delivered s ++
             ((fun sub => (sub, {| triggerId := Device.triggerId eventArgs;
                                   arguments := Device.arguments eventArgs;
                                   replacesPrevious := Device.replacesPrevious eventArgs;
                                   deviceId := deviceId |})) <$> subscribers s))
            s).
Proof.
  intros Hr Hget Hl.
  destruct (registered_listening _ _ _ _ _ Hr Hget Hl) as (o & Ho & He).
  simpl. unfold InputManager.device_emit. rewrite Ho.
  unfold listeners. unfold events_of in He. rewrite He. reflexivity.
Qed.


(** ** Reconciliation *)

Lemma createDevice_devices_other (c : CallId) (k id : string) (cf : SomeDeviceConfig)
    (s : State) :
  id <> k ->
  obj_get (devices (fst (InputManager.createDevice c k cf s))) id = obj_get (devices s) id.
Proof.
  intros Hne. destruct (DeviceType_of_tag (type cf)) as [cls|] eqn:Hcls.
  - rewrite (createDevice_known _ _ _ _ cls Hcls). assign_cases; sstate; [done|].
    by apply obj_get_set_ne.
  - rewrite (createDevice_unknown _ _ _ _ Hcls). sstate. by apply obj_get_delete_ne.
Qed.

(** Only a creation under [__proto__] touches the prototype of the registry. *)
Lemma createDevice_proto (c : CallId) (k : string) (cf : SomeDeviceConfig) (s : State) :
  k <> "__proto__" ->
  devices_proto (fst (InputManager.createDevice c k cf s)) = devices_proto s.
Proof.
  intros Hne. destruct (DeviceType_of_tag (type cf)) as [cls|] eqn:Hcls.
  - rewrite (createDevice_known _ _ _ _ cls Hcls). by assign_cases; sstate.
  - by rewrite (createDevice_unknown _ _ _ _ Hcls).
Qed.

(** A read depends on the own property and on the prototype only. *)
Lemma devices_read_get (s s' : State) (k : string) :
  obj_get (devices s') k = obj_get (devices s) k ->
  devices_proto s' = devices_proto s ->
  InputManager.devices_read k s' = InputManager.devices_read k s.
Proof. intros Hg Hp. unfold InputManager.devices_read. by rewrite Hg, Hp. Qed.

(** A name for which a read finds nothing is not an own property, and is
    not [__proto__]. *)
Lemma devices_read_undefined (s : State) (k : string) :
  InputManager.devices_read k s = LookupUndefined ->
  obj_get (devices s) k = None /\ k <> "__proto__".
Proof.
  unfold InputManager.devices_read.
  destruct (obj_get (devices s) k); [done|].
  destruct (devices_proto s) as [p|].
  - destruct (decide (k = "__proto__")); done.
  - intros H. split; [done|]. intros ->. done.
Qed.

Lemma createDevice_read_other (c : CallId) (k id : string) (cf : SomeDeviceConfig)
    (s : State) :
  k <> "__proto__" -> id <> k ->
  InputManager.devices_read id (fst (InputManager.createDevice c k cf s))
  = InputManager.devices_read id s.
Proof.
  intros Hk Hne. apply devices_read_get.
  - by apply createDevice_devices_other.
  - by apply createDevice_proto.
Qed.

Lemma created_heap_length (c : CallId) (n : nat) (s s' : State) :
  created c n s s' -> length (heap s) <= length (heap s').
Proof.
  intros (_ & _ & _ & _ & _ & _ & _ & _ & [l Hl] & _). rewrite Hl, length_app. lia.
Qed.

Lemma created_heap_lookup (c : CallId) (n : nat) (s s' : State) (d : DevRef) (o : DeviceObj) :
  created c n s s' -> heap s !! d = Some o -> heap s' !! d = Some o.
Proof.
  intros (_ & _ & _ & _ & _ & _ & _ & _ & [l Hl] & _) H. rewrite Hl.
  by apply lookup_app_l_Some.
Qed.

(** A device-id that is registered keeps its instance through a pass. *)
Lemma refreshEntries_keeps (c : CallId) (entries : list (string * SomeDeviceConfig))
    (s : State) (id : string) (d : DevRef) :
  obj_get (devices s) id = Some d ->
  obj_get (devices (fst (InputManager.refreshEntries c entries s))) id = Some d.
Proof.
  revert s. induction entries as [|[k cf] rest IH]; intros s Hget; simpl; [done|].
  destruct (InputManager.devices_read k s) eqn:Hk; try (by apply IH).
  apply devices_read_undefined in Hk as [Hk _].
  assert (id <> k) as Hne by congruence.
  pose proof (createDevice_devices_other c k id cf s Hne) as H1.
  destruct (InputManager.createDevice c k cf s) as [s1 p]. simpl in H1.
  specialize (IH s1). destruct (InputManager.refreshEntries c rest s1) as [s2 n].
  simpl in *. apply IH. by rewrite H1.
Qed.

(** A pass never touches the prototype of the registry: it passes over the
    name [__proto__], for which a read always finds something. *)
Lemma refreshEntries_proto (c : CallId) (entries : list (string * SomeDeviceConfig))
    (s : State) :
  devices_proto (fst (InputManager.refreshEntries c entries s)) = devices_proto s.
Proof.
  revert s. induction entries as [|[k cf] rest IH]; intros s; simpl; [done|].
  destruct (InputManager.devices_read k s) eqn:Hk; try (by apply IH).
  apply devices_read_undefined in Hk as [_ Hk].
  pose proof (createDevice_proto c k cf s Hk) as H1.
  destruct (InputManager.createDevice c k cf s) as [s1 p]. simpl in H1.
  specialize (IH s1). destruct (InputManager.refreshEntries c rest s1) as [s2 n].
  simpl in *. by rewrite IH.
Qed.

(** What [created] keeps of a creation that is over. *)
Lemma created_keeps_for (c c0 : CallId) (n : nat) (s s' : State) (cls : DeviceType)
    (id : string) (d : DevRef) :
  created c n s s' -> obj_get (devices s') id = Some d ->
  created_for c0 cls id d s -> created_for c0 cls id d s'.
Proof.
  intros Hcr Hget (_ & Hh & Hi & Hp). split; [done|].
  pose proof (created_heap_lookup _ _ _ _ _ _ Hcr Hh) as Hh'.
  destruct Hcr as (_ & Hlg & _ & _ & _ & _ & _ & _ & _ & (fs & Hfs & _)
                   & (ivs & Hivs & _) & _).
  split; [by rewrite Hlg|].
  split; [rewrite Hivs | rewrite Hfs]; apply elem_of_app; by left.
Qed.

(** A configured device-id of a known type for which the read finds
    nothing gets a new instance in the pass. *)
Lemma refreshEntries_recreates (c : CallId) (entries : list (string * SomeDeviceConfig))
    (s : State) (id : string) (cf : SomeDeviceConfig) (cls : DeviceType) :
  obj_get entries id = Some cf ->
  DeviceType_of_tag (type cf) = Some cls ->
  InputManager.devices_read id s = LookupUndefined ->
  exists d, length (heap s) <= d
            /\ created_for c cls id d (fst (InputManager.refreshEntries c entries s)).
Proof.
  revert s. induction entries as [|[k cf0] rest IH]; intros s Hcfg Hcls Habs; [done|].
  simpl in Hcfg. simpl. destruct (decide (id = k)) as [->|Hne].
  - injection Hcfg as ->. rewrite Habs.
    apply devices_read_undefined in Habs as [_ Hk].
    rewrite (createDevice_known _ _ _ _ cls Hcls).
    unfold InputManager.devices_assign. rewrite decide_False by done.
    pose proof (refreshEntries_keeps c rest) as Hkeep.
    pose proof (refreshEntries_created c rest) as Hcr.
    match goal with |- context [InputManager.refreshEntries c rest ?s1] =>
      specialize (Hkeep s1 k (length (heap s))); specialize (Hcr s1);
      destruct (InputManager.refreshEntries c rest s1) as [s2 n]
    end.
    exists (length (heap s)). split; [done|]. simpl in *.
    eapply created_keeps_for; [exact Hcr| |].
    + apply Hkeep. sstate. apply obj_get_set_eq.
    + split; [sstate; apply obj_get_set_eq|]. sstate.
      split; [by rewrite lookup_app_r, Nat.sub_diag|].
      split; apply elem_of_app; right; apply list_elem_of_here.
  - destruct (InputManager.devices_read k s) eqn:Hk; try (by apply IH).
    apply devices_read_undefined in Hk as [_ Hk].
    pose proof (createDevice_read_other c k id cf0 s Hk Hne) as H1.
    pose proof (createDevice_created c k cf0 s) as H2.
    destruct (InputManager.createDevice c k cf0 s) as [s1 p]. simpl in H1, H2.
    destruct (IH s1 Hcfg Hcls) as (d & Hle & Hd); [by rewrite H1|].
    destruct (InputManager.refreshEntries c rest s1) as [s2 n]. simpl in *.
    exists d. split; [|done]. apply created_heap_length in H2. lia.
Qed.

Lemma refreshDevices_devices (s : State) :
  devices (InputManager.refreshDevices s)
  = devices (fst (InputManager.refreshEntries (length (calls s)) (obj_entries (config s))
                    (InputManager.new_call KRefreshDevices 0 None s))).
Proof.
  unfold InputManager.refreshDevices.
  destruct (InputManager.refreshEntries _ _ _) as [s1 n]. by destruct (decide (n = 0)).
Qed.

(** What the end of the pass leaves of the state its callbacks made. *)
Lemma refreshDevices_fields (s : State) :
  let s1 := fst (InputManager.refreshEntries (length (calls s)) (obj_entries (config s))
                   (InputManager.new_call KRefreshDevices 0 None s)) in
  let s' := InputManager.refreshDevices s in
  devices s' = devices s1 /\ devices_proto s' = devices_proto s1
  /\ heap s' = heap s1 /\ invoked s' = invoked s1 /\ pending s' = pending s1
  /\ logger s' = logger s1.
Proof.
  unfold InputManager.refreshDevices.
  destruct (InputManager.refreshEntries _ _ _) as [s1 n]. by destruct (decide (n = 0)).
Qed.

Lemma created_for_refreshDevices (s : State) (c : CallId) (cls : DeviceType) (id : string)
    (d : DevRef) :
  created_for c cls id d
    (fst (InputManager.refreshEntries (length (calls s)) (obj_entries (config s))
            (InputManager.new_call KRefreshDevices 0 None s))) ->
  created_for c cls id d (InputManager.refreshDevices s).
Proof.
  destruct (refreshDevices_fields s) as (Hd & _ & Hh & Hi & Hp & Hl). cbv zeta in *.
  unfold created_for. by rewrite Hd, Hh, Hi, Hp, Hl.
Qed.

Lemma refreshDevices_recreates (s : State) (id : string) (cf : SomeDeviceConfig)
    (cls : DeviceType) :
  obj_get (config s) id = Some cf ->
  DeviceType_of_tag (type cf) = Some cls ->
  InputManager.devices_read id s = LookupUndefined ->
  exists d, length (heap s) <= d
            /\ created_for (length (calls s)) cls id d (InputManager.refreshDevices s).
Proof.
  intros Hcfg Hcls Habs.
  destruct (refreshEntries_recreates (length (calls s)) (obj_entries (config s))
              (InputManager.new_call KRefreshDevices 0 None s) id cf cls Hcfg Hcls)
    as (d & Hle & Hd); [done|].
  exists d. split; [done|]. by apply created_for_refreshDevices.
Qed.


(** ** A transition touches one invocation only *)

Lemma on_behalf_refl (oc : option CallId) (s : State) : on_behalf oc s s.
Proof.
  split; [done|]. repeat split; exists []; by rewrite app_nil_r.
Qed.

Lemma on_behalf_trans (oc : option CallId) (s1 s2 s3 : State) :
  on_behalf oc s1 s2 -> on_behalf oc s2 s3 -> on_behalf oc s1 s3.
Proof.
  intros (Hc1 & (fs1 & Hp1 & Hf1) & (iv1 & Hi1 & Hv1) & (ks1 & Hk1))
         (Hc2 & (fs2 & Hp2 & Hf2) & (iv2 & Hi2 & Hv2) & (ks2 & Hk2)).
  split; [intros c Hc; by rewrite Hc2, Hc1|].
  split; [|split].
  - exists (fs1 ++ fs2). rewrite Hp2, Hp1, app_assoc. split; [done|].
    by apply list.Forall_app.
  - exists (iv1 ++ iv2). rewrite Hi2, Hi1, app_assoc. split; [done|].
    by apply list.Forall_app.
  - exists (ks1 ++ ks2). by rewrite Hk2, Hk1, app_assoc.
Qed.

(** Code that touches neither the promises, nor the frames, nor the trace
    of device calls. *)
Lemma on_behalf_quiet (oc : option CallId) (s s' : State) :
  calls s' = calls s -> pending s' = pending s -> invoked s' = invoked s ->
  on_behalf oc s s'.
Proof.
  intros Hc Hp Hi. split; [intros c _; by rewrite Hc|].
  split; [exists []; by rewrite Hp, app_nil_r|].
  split; [exists []; by rewrite Hi, app_nil_r|].
  exists []. unfold kinds. by rewrite Hc, app_nil_r.
Qed.

Lemma on_behalf_alter (f : Call -> Call) (c : CallId) (s s' : State) :
  (forall cl, kind (f cl) = kind cl) ->
  calls s' = alter f c (calls s) -> pending s' = pending s -> invoked s' = invoked s ->
  on_behalf (Some c) s s'.
Proof.
  intros Hf Hc Hp Hi. split.
  - intros c0 Hne. rewrite Hc. apply list_lookup_alter_ne. congruence.
  - split; [exists []; by rewrite Hp, app_nil_r|].
    split; [exists []; by rewrite Hi, app_nil_r|].
    exists []. unfold kinds. rewrite Hc, app_nil_r. by apply kinds_alter.
Qed.

Lemma on_behalf_settle_call (c : CallId) (o : Outcome) (s : State) :
  on_behalf (Some c) s (InputManager.settle_call c o s).
Proof.
  eapply on_behalf_alter; sstate; [|reflexivity..]. done.
Qed.

Lemma on_behalf_set_awaiting (c : CallId) (n : nat) (s : State) :
  on_behalf (Some c) s (InputManager.set_awaiting c n s).
Proof.
  eapply on_behalf_alter; sstate; [|reflexivity..]. done.
Qed.

Lemma on_behalf_init_finish (c : CallId) (s : State) :
  on_behalf (Some c) s (InputManager.init_finish c s).
Proof.
  eapply on_behalf_alter; sstate; [|reflexivity..]. done.
Qed.

Lemma lookup_snoc_other {A : Type} (l : list A) (x : A) (c : nat) :
  c <> length l -> (l ++ [x]) !! c = l !! c.
Proof.
  intros Hne. destruct (decide (c < length l)).
  - by apply lookup_app_l.
  - rewrite !lookup_ge_None_2; [done|lia|]. rewrite length_app. simpl. lia.
Qed.

Lemma on_behalf_new_call (k : CallKind) (n : nat) (r : option Outcome) (s : State) :
  on_behalf (Some (length (calls s))) s (InputManager.new_call k n r s).
Proof.
  split.
  - intros c Hne. sstate. apply lookup_snoc_other. congruence.
  - split; [exists []; by rewrite app_nil_r|].
    split; [exists []; by rewrite app_nil_r|].
    exists [k]. unfold kinds. sstate. by rewrite fmap_app.
Qed.

Lemma on_behalf_await (f : Frame) (s : State) :
  on_behalf (frame_call f) s (InputManager.await f s).
Proof.
  split; [done|]. split; [|split; exists []; by rewrite app_nil_r].
  exists [f]. split; [done|]. by apply Forall_singleton.
Qed.

Lemma on_behalf_invoke (oc : option CallId) (d : DevRef) (m : Method) (s : State) :
  on_behalf oc s (InputManager.invoke oc d m s).
Proof.
  split; [done|]. split; [exists []; by rewrite app_nil_r|].
  split; [|exists []; by rewrite app_nil_r].
  eexists. split; [done|]. by apply Forall_singleton.
Qed.

Lemma on_behalf_created (c : CallId) (n : nat) (s s' : State) :
  created c n s s' -> on_behalf (Some c) s s'.
Proof.
  intros (_ & _ & _ & _ & _ & _ & Hc & _ & _ & (fs & Hp & _ & Hfs) & (ivs & Hi & Hivs) & _).
  split; [intros c0 _; by rewrite Hc|]. split; [|split].
  - exists fs. split; [done|]. eapply list.Forall_impl; [exact Hfs|].
    by intros g (id & d & ->).
  - exists ivs. split; [done|]. eapply list.Forall_impl; [exact Hivs|].
    by intros i (? & _).
  - exists []. unfold kinds. by rewrite Hc, app_nil_r.
Qed.

Lemma on_behalf_createDevice_settled (c : CallId) (o : Outcome) (s : State) :
  on_behalf (Some c) s (InputManager.createDevice_settled c o s).
Proof.
  unfold InputManager.createDevice_settled.
  destruct (calls s !! c) as [cl|]; [|apply on_behalf_refl].
  pose proof (on_behalf_set_awaiting c (pred (awaiting cl)) s) as H1.
  destruct (kind cl), (result cl), o; try exact H1;
    try (destruct (decide (pred (awaiting cl) = 0)); try exact H1);
    (eapply on_behalf_trans; [exact H1|]);
    first [apply on_behalf_settle_call | apply on_behalf_init_finish].
Qed.

Lemma on_behalf_destroy_settled (c : CallId) (o : Outcome) (s : State) :
  on_behalf (Some c) s (InputManager.destroy_settled c o s).
Proof.
  unfold InputManager.destroy_settled.
  destruct (calls s !! c) as [cl|]; [|apply on_behalf_refl].
  pose proof (on_behalf_set_awaiting c (pred (awaiting cl)) s) as H1.
  destruct (result cl), o; try exact H1.
  - destruct (decide (pred (awaiting cl) = 0)); [|exact H1].
    eapply on_behalf_trans; [exact H1|].
    eapply on_behalf_trans; [|apply on_behalf_settle_call].
    by apply on_behalf_quiet.
  - eapply on_behalf_trans; [exact H1 | apply on_behalf_settle_call].
Qed.

Lemma on_behalf_clearFeedbackAll_loop (c : CallId) (ds : list DevRef) (s : State) :
  on_behalf (Some c) s (InputManager.clearFeedbackAll_loop c ds s).
Proof.
  destruct ds as [|d rest]; simpl; [apply on_behalf_settle_call|].
  eapply on_behalf_trans; [apply on_behalf_invoke|].
  apply (on_behalf_await (FClearFeedbackAll c d rest)).
Qed.

Lemma on_behalf_refreshDevices (s : State) :
  on_behalf (Some (length (calls s))) s (InputManager.refreshDevices s).
Proof.
  unfold InputManager.refreshDevices.
  pose proof (refreshEntries_created (length (calls s)) (obj_entries (config s))
                (InputManager.new_call KRefreshDevices 0 None s)) as Hcr.
  destruct (InputManager.refreshEntries _ _ _) as [s1 n]. simpl in Hcr.
  eapply on_behalf_trans; [apply on_behalf_new_call|].
  eapply on_behalf_trans; [by eapply on_behalf_created|].
  destruct (decide (n = 0));
    [apply on_behalf_settle_call | apply on_behalf_set_awaiting].
Qed.

Lemma on_behalf_resume (f : Frame) (o : Outcome) (s : State) :
  on_behalf (frame_call f) s (InputManager.resume f o s).
Proof.
  destruct f as [c|c id d|c id d|id d|c d|c d|c d rest|c]; simpl.
  - destruct o; [|apply on_behalf_settle_call].
    unfold InputManager.init_createAll.
    pose proof (createDevices_created c (obj_entries (config s)) s) as Hcr.
    destruct (InputManager.createDevices _ _ _) as [s1 n]. simpl in Hcr.
    eapply on_behalf_trans; [by eapply on_behalf_created|].
    destruct (decide (n = 0));
      [apply on_behalf_init_finish | apply on_behalf_set_awaiting].
  - destruct o; [apply on_behalf_createDevice_settled|].
    eapply on_behalf_trans; [apply on_behalf_invoke|].
    apply (on_behalf_await (FCreateDestroy c id d)).
  - destruct o; [|apply on_behalf_createDevice_settled].
    eapply on_behalf_trans; [|apply on_behalf_createDevice_settled].
    by apply on_behalf_quiet.
  - destruct o; by apply on_behalf_quiet.
  - apply on_behalf_destroy_settled.
  - apply on_behalf_settle_call.
  - destruct o; [apply on_behalf_clearFeedbackAll_loop | apply on_behalf_settle_call].
  - apply on_behalf_destroy_settled.
Qed.

Lemma on_behalf_call_listener (e : InputManager.Emission) (fn : Device.Listener)
    (s : State) :
  on_behalf None s (InputManager.call_listener e s fn).
Proof.
  destruct fn as [id|id d], e as [args|args]; simpl; try apply on_behalf_refl.
  - by apply on_behalf_quiet.
  - unfold InputManager.on_error.
    eapply on_behalf_trans; [|apply (on_behalf_await (FErrorDestroy id d))].
    eapply on_behalf_trans; [|apply on_behalf_invoke].
    by apply on_behalf_quiet.
Qed.

Lemma on_behalf_fold_listeners (e : InputManager.Emission) (fns : list Device.Listener)
    (s : State) :
  on_behalf None s (fold_left (InputManager.call_listener e) fns s).
Proof.
  revert s. induction fns as [|fn fns IH]; intros s; simpl; [apply on_behalf_refl|].
  eapply on_behalf_trans; [apply on_behalf_call_listener | apply IH].
Qed.

Lemma on_behalf_destroy (s : State) :
  on_behalf (Some (length (calls s))) s (InputManager.destroy s).
Proof.
  destruct (destroy_fields s) as (_ & _ & _ & _ & _ & _ & _ & _ & Hc & Hp & Hi & _).
  split.
  - intros c Hne. rewrite Hc. apply lookup_snoc_other. congruence.
  - split; [|split].
    + eexists. split; [exact Hp|]. apply list.Forall_forall. intros g Hg.
      by apply destroy_frames in Hg as [? _].
    + eexists. split; [exact Hi|]. apply list.Forall_forall. intros i Hi0.
      by apply list_elem_of_fmap in Hi0 as (d & -> & _).
    + eexists. unfold kinds. by rewrite Hc, fmap_app.
Qed.

Lemma step_on_behalf (l : Label) (s s' : State) :
  step l s = Some s' -> on_behalf (origin l s) (before l s) s'.
Proof.
  intros Hstep. destruct l as [sub| | | |did tid fb| |t|f o|device e|device]; simpl in Hstep; simpl origin; simpl before.
  - injection Hstep as <-. by apply on_behalf_quiet.
  - injection Hstep as <-. unfold InputManager.init.
    eapply on_behalf_trans; [|apply (on_behalf_await (FInitBitmap (length (calls s))))].
    eapply on_behalf_trans;
      [|apply (on_behalf_new_call _ _ _ (InputManager.devices_reset s))].
    by apply on_behalf_quiet.
  - injection Hstep as <-. apply on_behalf_refreshDevices.
  - injection Hstep as <-. apply on_behalf_destroy.
  - injection Hstep as <-. unfold InputManager.setFeedback.
    destruct (InputManager.devices_read did s) as [|d| |]; try apply on_behalf_new_call.
    eapply on_behalf_trans; [apply on_behalf_new_call|].
    eapply on_behalf_trans; [apply on_behalf_invoke|].
    apply (on_behalf_await (FSetFeedback (length (calls s)) d)).
  - injection Hstep as <-. unfold InputManager.clearFeedbackAll.
    eapply on_behalf_trans; [apply on_behalf_new_call|].
    apply on_behalf_clearFeedbackAll_loop.
  - destruct (timers s !! t) as [[|]|]; try done.
    injection Hstep as <-. apply on_behalf_refreshDevices.
  - destruct (decide (f ∈ pending s)); [|done].
    injection Hstep as <-. apply on_behalf_resume.
  - unfold InputManager.device_emit in Hstep.
    destruct (heap s !! device); [|done].
    injection Hstep as <-. apply on_behalf_fold_listeners.
  - destruct (heap s !! device); [|done].
    injection Hstep as <-. by apply on_behalf_quiet.
Qed.



Lemma run_wf (ls : list Label) (s s' : State) : wf s -> run ls s = Some s' -> wf s'.
Proof.
  revert s. induction ls as [|l ls IH]; intros s Hwf Hrun; simpl in Hrun.
  - by injection Hrun as <-.
  - destruct (step l s) as [s1|] eqn:Hstep; [|done].
    eapply IH; [|exact Hrun]. by eapply wf_step.
Qed.

(** ** refreshDevices never rejects *)















(** The callback of [refreshDevices] reads the registry when it reaches an
    entry; as the entries before it only touched their own device-ids, and
    never the prototype, that is the read on the registry the pass started
    with. *)
Lemma refreshEntries_filter (c : CallId) (entries : list (string * SomeDeviceConfig))
    (s : State) :
  NoDup (obj_keys entries) ->
  InputManager.refreshEntries c entries s
  = InputManager.createDevices c
      (List.filter
         (fun e => bool_decide (InputManager.devices_read (fst e) s = LookupUndefined))
         entries) s.
Proof.
  revert s. induction entries as [|[k cf] rest IH]; intros s Hnd; [done|].
  unfold obj_keys in Hnd. rewrite fmap_cons in Hnd. apply list.NoDup_cons in Hnd as [Hk Hnd].
  simpl. destruct (InputManager.devices_read k s) eqn:Hget;
    try (rewrite bool_decide_eq_false_2 by done; by apply IH).
  rewrite bool_decide_eq_true_2 by done. simpl.
  apply devices_read_undefined in Hget as [_ Hproto].
  pose proof (fun id => createDevice_read_other c k id cf s Hproto) as Hother.
  destruct (InputManager.createDevice c k cf s) as [s1 p]. simpl in Hother.
  rewrite (IH s1 Hnd).
  rewrite (List.filter_ext_in
             (fun e => bool_decide (InputManager.devices_read (fst e) s1 = LookupUndefined))
             (fun e => bool_decide (InputManager.devices_read (fst e) s = LookupUndefined)));
    [done|].
  intros [k' cf'] Hin. simpl. rewrite Hother; [done|].
  intros ->. apply Hk. apply list_elem_of_fmap. exists (k, cf'). split; [done|].
  by apply list_elem_of_In.
Qed.

(** The creations of a pass touch the registry entries of their own
    device-ids only. *)
Lemma createDevices_devices_other (c : CallId) (entries : list (string * SomeDeviceConfig))
    (s : State) (id : string) :
  id ∉ obj_keys entries ->
  obj_get (devices (fst (InputManager.createDevices c entries s))) id
  = obj_get (devices s) id.
Proof.
  revert s. induction entries as [|[k cf] rest IH]; intros s Hid; [done|].
  unfold obj_keys in Hid. rewrite fmap_cons in Hid. apply not_elem_of_cons in Hid as [Hne Hid].
  simpl. pose proof (createDevice_devices_other c k id cf s Hne) as H1.
  destruct (InputManager.createDevice c k cf s) as [s1 p]. simpl in H1.
  specialize (IH s1 Hid). destruct (InputManager.createDevices c rest s1) as [s2 n].
  simpl in *. by rewrite IH.
Qed.





(** ** clearFeedbackAll is sequential *)

Lemma is_in_flight_call (c : CallId) (g : Frame) :
  is_in_flight c g = true -> frame_call g = Some c.
Proof.
  destruct g; simpl; try done. intros H. apply bool_decide_eq_true in H. by subst.
Qed.

Lemma filter_none {A : Type} (p : A -> bool) (l : list A) :
  Forall (fun x => p x = false) l -> List.filter p l = [].
Proof.
  induction 1 as [|x l Hx _ IH]; [done|]. simpl. by rewrite Hx.
Qed.

Lemma filter_remove_first_out (c : CallId) (f : Frame) (l : list Frame) :
  is_in_flight c f = false ->
  List.filter (is_in_flight c) (InputManager.remove_first f l)
  = List.filter (is_in_flight c) l.
Proof.
  intros Hf. induction l as [|g l IH]; [done|]. simpl.
  destruct (decide (f = g)) as [<-|Hne].
  - by rewrite Hf.
  - simpl. by rewrite IH.
Qed.

Lemma filter_remove_first_in (c : CallId) (f : Frame) (l : list Frame) :
  is_in_flight c f = true ->
  List.filter (is_in_flight c) (InputManager.remove_first f l)
  = InputManager.remove_first f (List.filter (is_in_flight c) l).
Proof.
  intros Hf. induction l as [|g l IH]; [done|]. simpl.
  destruct (decide (f = g)) as [<-|Hne].
  - rewrite Hf. simpl. by rewrite decide_True.
  - simpl. destruct (is_in_flight c g); [|done]. simpl.
    rewrite decide_False by done. by rewrite IH.
Qed.

Lemma calls_before (l : Label) (s : State) : calls (before l s) = calls s.
Proof. by destruct l. Qed.

Lemma invoked_before (l : Label) (s : State) : invoked (before l s) = invoked s.
Proof. by destruct l. Qed.

(** A transition that belongs to another invocation, or to none, changes
    nothing of what [sequential] looks at. *)
Lemma sequential_other (l : Label) (c : CallId) (snapshot : list DevRef) (s s' : State) :
  step l s = Some s' -> origin l s <> Some c ->
  sequential c snapshot s -> sequential c snapshot s'.
Proof.
  intros Hstep Hor (cl & Hcl & Hk & Hres).
  destruct (step_on_behalf _ _ _ Hstep) as (Hc & (fs & Hp & Hfs) & (ivs & Hi & Hivs) & _).
  assert (cleared_by c s' = cleared_by c s) as Hcb.
  { unfold cleared_by. rewrite Hi, invoked_before, List.filter_app.
    rewrite (filter_none _ ivs); [by rewrite app_nil_r|].
    eapply list.Forall_impl; [exact Hivs|]. intros i Hby.
    unfold is_cleared_by. apply bool_decide_eq_false. intros [Hb _]. congruence. }
  assert (in_flight c s' = in_flight c s) as Hif.
  { unfold in_flight. rewrite Hp, List.filter_app.
    rewrite (filter_none _ fs).
    2:{ eapply list.Forall_impl; [exact Hfs|]. intros g Hg.
        destruct (is_in_flight c g) eqn:Hgc; [|done].
        apply is_in_flight_call in Hgc. congruence. }
    rewrite app_nil_r. destruct l; try done. simpl.
    apply filter_remove_first_out. destruct (is_in_flight c f) eqn:Hfc; [|done].
    apply is_in_flight_call in Hfc. simpl in Hor. congruence. }
  exists cl. rewrite Hc, calls_before by congruence.
  split; [done|]. split; [done|]. by rewrite Hcb, Hif.
Qed.

Lemma cleared_by_invoke (c : CallId) (d : DevRef) (s : State) :
  cleared_by c (InputManager.invoke (Some c) d MClearFeedbackAll s) = cleared_by c s ++ [d].
Proof.
  unfold cleared_by. sstate. rewrite List.filter_app, map_app. simpl.
  unfold is_cleared_by at 2. simpl. by rewrite bool_decide_eq_true_2.
Qed.

Lemma in_flight_await (c : CallId) (d : DevRef) (rest : list DevRef) (s : State) :
  in_flight c (InputManager.await (FClearFeedbackAll c d rest) s)
  = in_flight c s ++ [FClearFeedbackAll c d rest].
Proof.
  unfold in_flight. sstate. rewrite List.filter_app. simpl.
  by rewrite bool_decide_eq_true_2.
Qed.

(** The loop, entered with [done] already called and nothing in flight. *)
Lemma sequential_loop (c : CallId) (done rest : list DevRef) (s : State) (cl : Call) :
  calls s !! c = Some cl -> kind cl = KClearFeedbackAll (done ++ rest) ->
  result cl = None ->
  cleared_by c s = done -> in_flight c s = [] ->
  sequential c (done ++ rest) (InputManager.clearFeedbackAll_loop c rest s).
Proof.
  intros Hcl Hk Hres Hcb Hif. destruct rest as [|d rest]; simpl.
  - eexists. split; [by apply settle_call_lookup|]. split; [done|]. simpl.
    by rewrite app_nil_r.
  - exists cl. split; [done|]. split; [done|]. rewrite Hres.
    exists done, d, rest. split; [done|].
    split.
    + change (cleared_by c (InputManager.await (FClearFeedbackAll c d rest)
                               (InputManager.invoke (Some c) d MClearFeedbackAll s)))
        with (cleared_by c (InputManager.invoke (Some c) d MClearFeedbackAll s)).
      by rewrite cleared_by_invoke, Hcb.
    + rewrite in_flight_await.
      change (in_flight c (InputManager.invoke (Some c) d MClearFeedbackAll s))
        with (in_flight c s). by rewrite Hif.
Qed.

Lemma sequential_settle (c : CallId) (snapshot : list DevRef) (f : Frame) (o : Outcome)
    (s s' : State) :
  wf s -> step (LSettle f o) s = Some s' -> frame_call f = Some c ->
  sequential c snapshot s -> sequential c snapshot s'.
Proof.
  intros (_ & Hfit & _) Hstep Hfc (cl & Hcl & Hk & Hres).
  simpl in Hstep. destruct (decide (f ∈ pending s)) as [Hin|]; [|done].
  injection Hstep as <-.
  destruct (Hfit f c Hin Hfc) as (k & Hck & Hfk).
  rewrite (call_kind_lookup _ _ _ Hcl), Hk in Hck. injection Hck as <-.
  destruct f as [c0|c0 id d|c0 id d|id d|c0 d|c0 d|c0 d rest|c0]; try done.
  simpl in Hfc. injection Hfc as ->.
  assert (FClearFeedbackAll c d rest ∈ in_flight c s) as Hinf.
  { unfold in_flight. apply list_elem_of_In, List.filter_In.
    split; [by apply list_elem_of_In|]. simpl. by apply bool_decide_eq_true_2. }
  destruct (result cl) as [[|e]|] eqn:Hr.
  - destruct Hres as (_ & Hnil). rewrite Hnil in Hinf. by apply elem_of_nil in Hinf.
  - destruct Hres as (Hnil & _). rewrite Hnil in Hinf. by apply elem_of_nil in Hinf.
  - destruct Hres as (done & device & rest0 & Hsnap & Hcb & Hif).
    rewrite Hif in Hinf. apply list_elem_of_singleton in Hinf. injection Hinf as <- <-.
    set (s0 := set_pending (InputManager.remove_first (FClearFeedbackAll c d rest)
                              (pending s)) s).
    assert (in_flight c s0 = []) as Hif0.
    { unfold in_flight, s0. sstate. rewrite filter_remove_first_in.
      - fold (in_flight c s). rewrite Hif. simpl. by rewrite decide_True.
      - simpl. by apply bool_decide_eq_true_2. }
    assert (cleared_by c s0 = done ++ [d]) as Hcb0 by exact Hcb.
    assert (calls s0 !! c = Some cl) as Hcl0 by exact Hcl.
    simpl. destruct o as [|e].
    + assert (snapshot = (done ++ [d]) ++ rest) as ->
        by (by rewrite Hsnap, <- app_assoc).
      by apply (sequential_loop c (done ++ [d]) rest s0 cl).
    + eexists. split; [by apply settle_call_lookup|]. split; [done|]. simpl.
      split; [exact Hif0|]. exists done, d, rest. done.
Qed.

Lemma sequential_step (l : Label) (c : CallId) (snapshot : list DevRef) (s s' : State) :
  wf s -> step l s = Some s' ->
  sequential c snapshot s -> sequential c snapshot s'.
Proof.
  intros Hwf Hstep Hseq.
  destruct (decide (origin l s = Some c)) as [Hor|Hor]; [|by eapply sequential_other].
  destruct Hseq as (cl & Hcl & Hrest).
  pose proof (lookup_lt_Some _ _ _ Hcl) as Hlt.
  destruct l; simpl in Hor; try (injection Hor as Hor; lia); try done.
  eapply sequential_settle; eauto. by exists cl.
Qed.

Lemma sequential_run (ls : list Label) (c : CallId) (snapshot : list DevRef) (s s' : State) :
  wf s -> run ls s = Some s' ->
  sequential c snapshot s -> sequential c snapshot s'.
Proof.
  revert s. induction ls as [|l ls IH]; intros s Hwf Hrun Hseq; simpl in Hrun.
  - by injection Hrun as <-.
  - destruct (step l s) as [s1|] eqn:Hstep; [|done].
    eapply IH; [|exact Hrun|]; [by eapply wf_step | by eapply sequential_step].
Qed.

(** Nothing is marked with the promise that the next invocation will get. *)
Lemma fresh_call (s : State) :
  wf s -> cleared_by (length (calls s)) s = [] /\ in_flight (length (calls s)) s = [].
Proof.
  intros (_ & Hfit & Hinv). split.
  - unfold cleared_by. rewrite filter_none; [done|].
    apply list.Forall_forall. intros i Hi. unfold is_cleared_by.
    apply bool_decide_eq_false. intros [Hby _].
    pose proof (Hinv i _ Hi Hby) as Hs. apply call_kind_lt in Hs. lia.
  - unfold in_flight. rewrite filter_none; [done|].
    apply list.Forall_forall. intros g Hg.
    destruct (is_in_flight (length (calls s)) g) eqn:Hgc; [|done].
    apply is_in_flight_call in Hgc. destruct (Hfit g _ Hg Hgc) as (k & Hk & _).
    assert (is_Some (call_kind s (length (calls s)))) as Hs by by exists k.
    apply call_kind_lt in Hs. lia.
Qed.

Lemma sequential_start (s : State) :
  wf s ->
  sequential (length (calls s)) (obj_values (devices s)) (InputManager.clearFeedbackAll s).
Proof.
  intros Hwf. destruct (fresh_call s Hwf) as (Hcb & Hif).
  unfold InputManager.clearFeedbackAll.
  apply (sequential_loop (length (calls s)) [] (obj_values (devices s))
           (InputManager.new_call (KClearFeedbackAll (obj_values (devices s))) 0 None s)
           {| kind := KClearFeedbackAll (obj_values (devices s)); awaiting := 0;
              result := None |}); try done.
  apply new_call_lookup.
Qed.

(** ** clearFeedbackAll() *)

(** C8 (amended).  [clearFeedbackAll()] takes the devices of the registry as
    [Object.values] lists them when it is called, and calls
    [clearFeedbackAll] on them in that order, one at a time: at every later
    moment the devices it has called are a prefix of that list, and while its
    promise is pending the call on the last of them is the only one in
    flight.  The next device is called when that call resolves; when it
    rejects, the promise of [clearFeedbackAll()] rejects with the same reason
    and the devices that remain are not called.  When the promise has
    resolved every device of the list has been called. *)
Theorem clearFeedbackAll_sequential (cfg : JSObject SomeDeviceConfig) (lg : Logger)
    (s : State) :
  reachable cfg lg s ->
  let c := length (calls s) in
  let snapshot := obj_values (devices s) in
  let s' := InputManager.clearFeedbackAll s in
  step LClearFeedbackAll s = Some s'
  /\ (forall ls s2, run ls s' = Some s2 -> sequential c snapshot s2)
  /\ (forall ls s2 device rest e,
        run ls s' = Some s2 -> FClearFeedbackAll c device rest ∈ pending s2 ->
        exists s3,
          step (LSettle (FClearFeedbackAll c device rest) (Rejected e)) s2 = Some s3
          /\ result <$> calls s3 !! c = Some (Some (Rejected e))
          /\ invoked s3 = invoked s2
          /\ in_flight c s3 = []).
Proof.
  intros Hr c snapshot s'. subst c snapshot s'.
  pose proof (reachable_wf _ _ _ Hr) as Hwf.
  pose proof (sequential_start s Hwf) as Hstart.
  assert (wf (InputManager.clearFeedbackAll s)) as Hwf' by by apply wf_clearFeedbackAll.
  split; [reflexivity|]. split.
  - intros ls s2 Hrun. by eapply sequential_run.
  - intros ls s2 device rest e Hrun Hin.
    pose proof (run_wf _ _ _ Hwf' Hrun) as Hwf2.
    pose proof (sequential_run _ _ _ _ _ Hwf' Hrun Hstart) as Hseq2.
    assert (step (LSettle (FClearFeedbackAll (length (calls s)) device rest) (Rejected e)) s2
            = Some (InputManager.resume (FClearFeedbackAll (length (calls s)) device rest)
                      (Rejected e)
                      (set_pending (InputManager.remove_first
                                      (FClearFeedbackAll (length (calls s)) device rest)
                                      (pending s2)) s2))) as Hstep
      by by apply step_settle.
    pose proof (sequential_settle _ _ _ _ _ _ Hwf2 Hstep eq_refl Hseq2) as Hseq3.
    eexists. split; [exact Hstep|].
    destruct Hseq2 as (cl & Hcl & _).
    pose proof (settle_call_lookup (length (calls s)) (Rejected e)
                  (set_pending (InputManager.remove_first
                                  (FClearFeedbackAll (length (calls s)) device rest)
                                  (pending s2)) s2) cl Hcl) as Hl.
    cbn [InputManager.resume] in *.
    split; [by rewrite Hl|].
    split; [reflexivity|].
    destruct Hseq3 as (cl3 & Hcl3 & _ & Hres3).
    rewrite Hl in Hcl3. injection Hcl3 as <-. simpl in Hres3. by destruct Hres3.
Qed.

(** ** Teardown when a device's destroy() rejects *)

(** What the code does when every [destroy()] resolves: the Manager's
    [destroy()] detaches the subscribers, cancels the timer, calls
    [destroy()] on both devices, empties the registry and resolves; a second
    [destroy()] finds no device to destroy and resolves. *)
Lemma destroy_when_devices_resolve :
  exists s,
    run [LDestroy; LSettle (FManagerDestroy 1 1) Resolved;
         LSettle (FManagerDestroy 1 0) Resolved; LDestroy;
         LSettle (FDestroyEmpty 2) Resolved] state_subscribed_ab = Some s
    /\ devices s = [] /\ subscribers s = [] /\ timers s = [false]
    /\ result <$> calls s !! 1 = Some (Some Resolved)
    /\ result <$> calls s !! 2 = Some (Some Resolved)
    /\ pending s = []
    /\ invoked s
       = invoked state_subscribed_ab ++
         [{| by_call := Some 1; target := 0; method := MDestroy |};
          {| by_call := Some 1; target := 1; method := MDestroy |}].
Proof. eexists. split; [vm_compute; reflexivity|]. repeat split. Qed.

(** C1.  The code at the failing input: [a] and [b] are registered and the
    [destroy()] of the device of [b] rejects.  The promise of the Manager's
    [destroy()] is rejected with that reason, nothing is logged and the
    registry still holds [a] and [b] after both promises have settled; a
    second [destroy()] then calls [destroy()] on both devices again. *)
Theorem destroy_fails_when_a_device_rejects :
  exists s s2,
    run [LDestroy; LSettle (FManagerDestroy 1 1) (Rejected "Error: busy");
         LSettle (FManagerDestroy 1 0) Resolved] state_up_ab = Some s
    /\ result <$> calls s !! 1 = Some (Some (Rejected "Error: busy"))
    /\ logged s = []
    /\ devices s = [("a", 0); ("b", 1)]
    /\ pending s = []
    /\ step LDestroy s = Some s2
    /\ invoked s2
       = invoked s ++ [{| by_call := Some 2; target := 0; method := MDestroy |};
                       {| by_call := Some 2; target := 1; method := MDestroy |}].
Proof.
  eexists. eexists. split; [vm_compute; reflexivity|].
  repeat split.
Qed.

(** What the code does when the teardown resolves: the [init()] of [b]
    rejects, [b] is destroyed and evicted, [init()] of the Manager resolves
    and starts the timer, and [a] is registered. *)
Lemma init_isolates_when_teardown_resolves :
  run b_failed_ab manager_ab = Some state_b_failed_ab
  /\ devices state_b_failed_ab = [("a", 0)]
  /\ result <$> calls state_b_failed_ab !! 0 = Some (Some Resolved)
  /\ refreshInterval state_b_failed_ab = Some 0
  /\ logged state_b_failed_ab = [].
Proof. split; [vm_compute; reflexivity|]. repeat split. Qed.

(** C2.  The code at the failing input: the [init()] of the device of [b]
    rejects and so does the [destroy()] that [createDevice] then calls on it.
    The creation of [a] goes on and [a] is registered, but the promise of
    the Manager's [init()] is rejected, [b] is still in the registry and the
    reconciliation timer is never started. *)
Theorem init_fails_when_teardown_rejects :
  exists s,
    run (start_ab ++ [LSettle (FDeviceInit 0 "b" 1) (Rejected "Error: unreachable");
                      LSettle (FCreateDestroy 0 "b" 1) (Rejected "Error: not open");
                      LSettle (FDeviceInit 0 "a" 0) Resolved]) manager_ab = Some s
    /\ result <$> calls s !! 0 = Some (Some (Rejected "Error: not open"))
    /\ devices s = [("a", 0); ("b", 1)]
    /\ refreshInterval s = None /\ timers s = []
    /\ pending s = []
    /\ logged s = [].
Proof. eexists. split; [vm_compute; reflexivity|]. repeat split. Qed.

(** The error listener does what the other two paths do not: whatever the
    outcome of [destroy()], the entry goes, and a rejection is logged and
    goes no further. *)
Lemma error_teardown_swallows (s : State) (deviceId : string) (device : DevRef)
    (e : string) :
  FErrorDestroy deviceId device ∈ pending s ->
  exists s',
    step (LSettle (FErrorDestroy deviceId device) (Rejected e)) s = Some s'
    /\ logged s' = logged s ++ ["Error when trying to destroy "
                                +:+ InputManager.quoted deviceId +:+ ": " +:+ e]
    /\ obj_get (devices s') deviceId = None
    /\ calls s' = calls s.
Proof.
  intros Hin. eexists. split; [by apply step_settle|].
  cbn [InputManager.resume]. sstate. split; [done|].
  split; [apply obj_get_delete_eq | done].
Qed.

(** The rejection of a device's [init()] by itself settles no promise of the
    Manager: [destroy()] is called on the device and [createDevice] waits
    for it. *)
Lemma init_rejection_starts_teardown (s : State) (c : CallId) (deviceId : string)
    (device : DevRef) (e : string) :
  FDeviceInit c deviceId device ∈ pending s ->
  exists s',
    step (LSettle (FDeviceInit c deviceId device) (Rejected e)) s = Some s'
    /\ calls s' = calls s
    /\ logged s' = logged s
    /\ invoked s' = invoked s ++ [{| by_call := Some c; target := device;
                                     method := MDestroy |}]
    /\ FCreateDestroy c deviceId device ∈ pending s'.
Proof.
  intros Hin. eexists. split; [by apply step_settle|].
  cbn [InputManager.resume]. sstate. repeat split.
  apply elem_of_app. right. apply list_elem_of_here.
Qed.

(** C5.  The code at the failing inputs.  After a failed [init()] whose
    teardown [destroy()] rejects, and in the Manager's [destroy()] when the
    [destroy()] of a device rejects, the rejection reaches the caller,
    nothing is logged and the registry entry stays; in the teardown that
    follows an error event the rejection is logged, goes no further, and the
    entry is removed. *)
Theorem destroy_rejection_handling :
  (exists s,
     run (start_ab ++ [LSettle (FDeviceInit 0 "a" 0) Resolved;
                       LSettle (FDeviceInit 0 "b" 1) (Rejected "Error: unreachable");
                       LSettle (FCreateDestroy 0 "b" 1) (Rejected "Error: not open")])
       manager_ab = Some s
     /\ result <$> calls s !! 0 = Some (Some (Rejected "Error: not open"))
     /\ logged s = []
     /\ obj_get (devices s) "b" = Some 1)
  /\ (exists s,
        run [LDestroy; LSettle (FManagerDestroy 1 0) (Rejected "Error: busy");
             LSettle (FManagerDestroy 1 1) Resolved] state_up_ab = Some s
        /\ result <$> calls s !! 1 = Some (Some (Rejected "Error: busy"))
        /\ logged s = []
        /\ obj_get (devices s) "a" = Some 0
        /\ obj_get (devices s) "b" = Some 1)
  /\ (exists s,
        run [LDeviceEmit 0 (InputManager.EmitError {| Device.error := "Error: unplugged" |});
             LSettle (FErrorDestroy "a" 0) (Rejected "Error: busy")] state_up_ab = Some s
        /\ logged s = ["Error in " +:+ InputManager.quoted "a" +:+ ": Error: unplugged";
                       "Error when trying to destroy " +:+ InputManager.quoted "a"
                       +:+ ": Error: busy"]
        /\ obj_get (devices s) "a" = None
        /\ calls s = calls state_up_ab).
Proof.
  split; [|split]; (eexists; split; [vm_compute; reflexivity|]); repeat split.
Qed.

(** ** What a transition leaves alone *)

Lemma fields_step_refl (s : State) : fields_step [] [] false s s.
Proof.
  unfold fields_step. rewrite !app_nil_r. repeat split. exists []. by rewrite app_nil_r.
Qed.

Lemma fields_step_trans (lg1 lg2 : list string) (dl1 dl2 : list (nat * TriggerEventArgs))
    (tm1 tm2 : bool) (s1 s2 s3 : State) :
  tm1 && tm2 = false ->
  fields_step lg1 dl1 tm1 s1 s2 -> fields_step lg2 dl2 tm2 s2 s3 ->
  fields_step (lg1 ++ lg2) (dl1 ++ dl2) (tm1 || tm2) s1 s3.
Proof.
  intros Htm (A1 & A2 & A3 & A4 & A5 & [n1 A6] & A7) (B1 & B2 & B3 & B4 & B5 & [n2 B6] & B7).
  unfold fields_step. rewrite B1, B2, B3, B4, B5, B6, A1, A2, A3, A4, A5, A6.
  rewrite <- !app_assoc. repeat split. { by eexists. }
  destruct tm1, tm2; try done; simpl in *.
  - destruct A7 as [A7 A8], B7 as [B7 B8]. by rewrite B7, B8, A7, A8.
  - destruct A7 as [A7 A8], B7 as [B7 B8]. by rewrite B7, B8, A7.
  - destruct A7 as [A7 A8], B7 as [B7 B8]. by rewrite B7, B8, A7, A8.
Qed.

(** Code that only touches the registry, the promises, the frames and the
    trace of device calls. *)
Lemma fields_step_quiet (s s' : State) :
  config s' = config s -> logger s' = logger s -> subscribers s' = subscribers s ->
  logged s' = logged s -> delivered s' = delivered s -> heap s' = heap s ->
  timers s' = timers s -> refreshInterval s' = refreshInterval s ->
  fields_step [] [] false s s'.
Proof.
  unfold fields_step. intros -> -> -> -> -> -> -> ->. rewrite !app_nil_r.
  repeat split. exists []. by rewrite app_nil_r.
Qed.

Lemma fields_step_same_heap (lg : list string) (dl : list (nat * TriggerEventArgs))
    (s s' : State) :
  config s' = config s -> logger s' = logger s -> subscribers s' = subscribers s ->
  logged s' = logged s ++ lg -> delivered s' = delivered s ++ dl -> heap s' = heap s ->
  timers s' = timers s -> refreshInterval s' = refreshInterval s ->
  fields_step lg dl false s s'.
Proof.
  unfold fields_step. intros -> -> -> -> -> -> -> ->.
  split_and!; try done. exists []. by rewrite app_nil_r.
Qed.

Lemma fields_step_then_quiet (lg : list string) (dl : list (nat * TriggerEventArgs))
    (tm : bool) (s1 s2 s3 : State) :
  fields_step lg dl tm s1 s2 -> fields_step [] [] false s2 s3 ->
  fields_step lg dl tm s1 s3.
Proof.
  intros H1 H2.
  pose proof (fields_step_trans lg [] dl [] tm false s1 s2 s3) as H.
  rewrite !app_nil_r, orb_false_r, andb_false_r in H. by apply H.
Qed.

Lemma fields_step_quiet_then (lg : list string) (dl : list (nat * TriggerEventArgs))
    (tm : bool) (s1 s2 s3 : State) :
  fields_step [] [] false s1 s2 -> fields_step lg dl tm s2 s3 ->
  fields_step lg dl tm s1 s3.
Proof.
  intros H1 H2.
  exact (fields_step_trans [] lg [] dl false tm s1 s2 s3 eq_refl H1 H2).
Qed.

Lemma fields_step_created (c : CallId) (n : nat) (s s' : State) :
  created c n s s' -> fields_step [] [] false s s'.
Proof.
  intros (A1 & A2 & A3 & A4 & A5 & A6 & _ & A8 & A9 & _).
  unfold fields_step. rewrite A1, A2, A3, A4, A5, A6, A8, !app_nil_r. done.
Qed.

Lemma fields_step_init_finish (c : CallId) (s : State) :
  fields_step [] [] true s (InputManager.init_finish c s).
Proof.
  unfold fields_step. sstate. rewrite !app_nil_r. repeat split.
  exists []. by rewrite app_nil_r.
Qed.

Lemma fields_step_createDevice_settled (c : CallId) (o : Outcome) (s : State) :
  exists tm, fields_step [] [] tm s (InputManager.createDevice_settled c o s).
Proof.
  unfold InputManager.createDevice_settled.
  destruct (calls s !! c) as [cl|]; [|exists false; apply fields_step_refl].
  assert (fields_step [] [] false s (InputManager.set_awaiting c (pred (awaiting cl)) s))
    as H1 by by apply fields_step_quiet.
  destruct (kind cl), (result cl), o; try (by exists false);
    try (destruct (decide (pred (awaiting cl) = 0)); try (by exists false)).
  exists true. eapply fields_step_quiet_then; [exact H1 | apply fields_step_init_finish].
Qed.

Lemma fields_step_destroy_settled (c : CallId) (o : Outcome) (s : State) :
  fields_step [] [] false s (InputManager.destroy_settled c o s).
Proof.
  unfold InputManager.destroy_settled.
  destruct (calls s !! c) as [cl|]; [|apply fields_step_refl].
  destruct (result cl), o; try (by apply fields_step_quiet).
  destruct (decide (pred (awaiting cl) = 0)); by apply fields_step_quiet.
Qed.

Lemma fields_step_clearFeedbackAll_loop (c : CallId) (ds : list DevRef) (s : State) :
  fields_step [] [] false s (InputManager.clearFeedbackAll_loop c ds s).
Proof. destruct ds; by apply fields_step_quiet. Qed.

Lemma fields_step_refreshDevices (s : State) :
  fields_step [] [] false s (InputManager.refreshDevices s).
Proof.
  unfold InputManager.refreshDevices.
  pose proof (refreshEntries_created (length (calls s)) (obj_entries (config s))
                (InputManager.new_call KRefreshDevices 0 None s)) as Hcr.
  destruct (InputManager.refreshEntries _ _ _) as [s1 n]. simpl in Hcr.
  apply fields_step_created in Hcr.
  eapply fields_step_then_quiet; [exact Hcr|].
  destruct (decide (n = 0)); by apply fields_step_quiet.
Qed.

Lemma fields_step_init_createAll (c : CallId) (s : State) :
  exists tm, fields_step [] [] tm s (InputManager.init_createAll c s).
Proof.
  unfold InputManager.init_createAll.
  pose proof (createDevices_created c (obj_entries (config s)) s) as Hcr.
  destruct (InputManager.createDevices _ _ _) as [s1 n]. simpl in Hcr.
  apply fields_step_created in Hcr.
  destruct (decide (n = 0)).
  - exists true. eapply fields_step_quiet_then; [exact Hcr | apply fields_step_init_finish].
  - exists false. eapply fields_step_then_quiet; [exact Hcr|]. by apply fields_step_quiet.
Qed.

(** Resuming a frame logs one line in one case only: the [destroy()] that the
    error listener called has rejected. *)
Lemma fields_step_resume (f : Frame) (o : Outcome) (s : State) :
  exists lg tm,
    fields_step lg [] tm s (InputManager.resume f o s)
    /\ (lg = []
        \/ exists id d e,
             f = FErrorDestroy id d /\ o = Rejected e
             /\ lg = ["Error when trying to destroy " +:+ InputManager.quoted id
                      +:+ ": " +:+ e]).
Proof.
  destruct f as [c|c id d|c id d|id d|c d|c d|c d rest|c]; simpl.
  - destruct o.
    + destruct (fields_step_init_createAll c s) as [tm H]. exists [], tm. auto.
    + exists [], false. split; [by apply fields_step_quiet | auto].
  - destruct o.
    + destruct (fields_step_createDevice_settled c Resolved s) as [tm H].
      exists [], tm. auto.
    + exists [], false. split; [by apply fields_step_quiet | auto].
  - destruct o as [|e].
    + destruct (fields_step_createDevice_settled c Resolved
                  (set_devices (obj_delete id (devices s)) s)) as [tm H].
      exists [], tm. split; [|auto].
      eapply fields_step_quiet_then; [|exact H]. by apply fields_step_quiet.
    + destruct (fields_step_createDevice_settled c (Rejected e) s) as [tm H].
      exists [], tm. auto.
  - destruct o as [|e].
    + exists [], false. split; [by apply fields_step_quiet | auto].
    + eexists. exists false. split; [|right; by exists id, d, e].
      apply fields_step_same_heap; sstate; try done. by rewrite app_nil_r.
  - exists [], false. split; [apply fields_step_destroy_settled | auto].
  - exists [], false. split; [by apply fields_step_quiet | auto].
  - exists [], false. split; [|auto].
    destruct o; [apply fields_step_clearFeedbackAll_loop | by apply fields_step_quiet].
  - exists [], false. split; [apply fields_step_destroy_settled | auto].
Qed.

Lemma fields_step_call_listener (e : InputManager.Emission) (fn : Device.Listener)
    (s : State) :
  exists lg dl,
    fields_step lg dl false s (InputManager.call_listener e s fn)
    /\ match e with
       | InputManager.EmitTrigger _ => lg = [] /\ (subscribers s = [] -> dl = [])
       | InputManager.EmitError _ => dl = []
       end.
Proof.
  destruct fn as [id|id d], e as [args|args]; simpl.
  - exists []. eexists. split.
    + apply fields_step_same_heap; sstate; try done. by rewrite app_nil_r.
    + split; [done|]. by intros ->.
  - exists [], []. split; [apply fields_step_refl | done].
  - exists [], []. split; [apply fields_step_refl | done].
  - eexists. exists []. split; [|done].
    unfold InputManager.on_error.
    apply fields_step_same_heap; sstate; try done. by rewrite app_nil_r.
Qed.

Lemma fields_step_fold_listeners (e : InputManager.Emission) (fns : list Device.Listener)
    (s : State) :
  exists lg dl,
    fields_step lg dl false s (fold_left (InputManager.call_listener e) fns s)
    /\ match e with
       | InputManager.EmitTrigger _ => lg = [] /\ (subscribers s = [] -> dl = [])
       | InputManager.EmitError _ => dl = []
       end.
Proof.
  revert s. induction fns as [|fn fns IH]; intros s; simpl.
  - exists [], []. split; [apply fields_step_refl | by destruct e].
  - destruct (fields_step_call_listener e fn s) as (lg1 & dl1 & H1 & P1).
    destruct (IH (InputManager.call_listener e s fn)) as (lg2 & dl2 & H2 & P2).
    exists (lg1 ++ lg2), (dl1 ++ dl2). split.
    + exact (fields_step_trans _ _ _ _ false false _ _ _ eq_refl H1 H2).
    + destruct e.
      * destruct P1 as [-> P1], P2 as [-> P2]. split; [done|]. intros Hs.
        rewrite (P1 Hs). apply P2. destruct H1 as (_ & _ & -> & _). exact Hs.
      * by subst.
Qed.

(** What each kind of transition may change besides the registry, the
    promises, the frames and the trace of device calls. *)
Lemma step_fields (l : Label) (s s' : State) :
  step l s = Some s' ->
  match l with
  | LOnTrigger sub => s' = set_subscribers (subscribers s ++ [sub]) s
  | LDestroy => s' = InputManager.destroy s
  | LDeviceRemoveAllListeners d =>
      s' = set_heap (alter (with_base (fun d => fst (Device.destroy d))) d (heap s)) s
  | LDeviceEmit d e =>
      exists lg dl,
        fields_step lg dl false s s'
        /\ match e with
           | InputManager.EmitTrigger _ => lg = [] /\ (subscribers s = [] -> dl = [])
           | InputManager.EmitError _ => dl = []
           end
  | LSettle f o =>
      exists lg tm,
        fields_step lg [] tm s s'
        /\ (lg = [] \/ exists id d e, f = FErrorDestroy id d /\ o = Rejected e)
  | _ => fields_step [] [] false s s'
  end.
Proof.
  intros Hstep. destruct l as [sub| | | |did tid fb| |t|f o|device em|device];
    simpl in Hstep.
  - by injection Hstep as <-.
  - injection Hstep as <-. by apply fields_step_quiet.
  - injection Hstep as <-. apply fields_step_refreshDevices.
  - by injection Hstep as <-.
  - injection Hstep as <-. unfold InputManager.setFeedback.
    destruct (InputManager.devices_read did s); by apply fields_step_quiet.
  - injection Hstep as <-. unfold InputManager.clearFeedbackAll.
    eapply fields_step_quiet_then; [|apply fields_step_clearFeedbackAll_loop].
    by apply fields_step_quiet.
  - destruct (timers s !! t) as [[|]|]; try done.
    injection Hstep as <-. apply fields_step_refreshDevices.
  - destruct (decide (f ∈ pending s)); [|done]. injection Hstep as <-.
    destruct (fields_step_resume f o
                (set_pending (InputManager.remove_first f (pending s)) s))
      as (lg & tm & H & P).
    exists lg, tm. split; [exact H|].
    destruct P as [?|(id & d & e0 & ? & ? & _)]; [by left | right; by exists id, d, e0].
  - unfold InputManager.device_emit in Hstep.
    destruct (heap s !! device); [|done]. injection Hstep as <-.
    apply fields_step_fold_listeners.
  - destruct (heap s !! device); [|done]. by injection Hstep as <-.
Qed.

Lemma step_config (l : Label) (s s' : State) : step l s = Some s' -> config s' = config s.
Proof.
  intros Hstep. pose proof (step_fields _ _ _ Hstep) as H.
  destruct l; try (by destruct H as (? & _)); try (by subst).
  - rewrite H. by destruct (destroy_fields s) as (? & _).
  - by destruct H as (? & ? & (? & _) & _).
  - by destruct H as (? & ? & (? & _) & _).
Qed.

Lemma run_config (ls : list Label) (s s' : State) : run ls s = Some s' -> config s' = config s.
Proof.
  revert s. induction ls as [|l ls IH]; intros s Hrun; simpl in Hrun.
  - by injection Hrun as <-.
  - destruct (step l s) as [s1|] eqn:Hstep; [|done].
    rewrite (IH _ Hrun). by eapply step_config.
Qed.

(** ** The prototype of the registry *)

Lemma createDevices_proto (c : CallId) (entries : list (string * SomeDeviceConfig))
    (s : State) :
  "__proto__" ∉ obj_keys entries ->
  devices_proto (fst (InputManager.createDevices c entries s)) = devices_proto s.
Proof.
  revert s. induction entries as [|[k cf] rest IH]; intros s Hno; simpl; [done|].
  apply not_elem_of_cons in Hno as [Hk Hno].
  pose proof (createDevice_proto c k cf s) as H1.
  destruct (InputManager.createDevice c k cf s) as [s1 p]. simpl in H1.
  specialize (IH s1 Hno). destruct (InputManager.createDevices c rest s1) as [s2 n].
  simpl in *. rewrite IH. apply H1. congruence.
Qed.

Lemma devices_proto_createDevice_settled (c : CallId) (o : Outcome) (s : State) :
  devices_proto (InputManager.createDevice_settled c o s) = devices_proto s.
Proof.
  unfold InputManager.createDevice_settled.
  destruct (calls s !! c) as [cl|]; [|done].
  destruct (kind cl), (result cl), o; try done;
    destruct (decide (pred (awaiting cl) = 0)); done.
Qed.

Lemma devices_proto_clearFeedbackAll_loop (c : CallId) (ds : list DevRef) (s : State) :
  devices_proto (InputManager.clearFeedbackAll_loop c ds s) = devices_proto s.
Proof. by destruct ds. Qed.

Lemma devices_proto_fold_listeners (e : InputManager.Emission)
    (fns : list Device.Listener) (s : State) :
  devices_proto (fold_left (InputManager.call_listener e) fns s) = devices_proto s.
Proof.
  revert s. induction fns as [|fn fns IH]; intros s; simpl; [done|].
  rewrite IH. by destruct fn, e.
Qed.

(** Only the creation of a device under the id [__proto__] gives the
    registry another prototype than [Object.prototype]. *)
Lemma step_devices_proto (l : Label) (s s' : State) :
  step l s = Some s' ->
  "__proto__" ∉ obj_keys (config s) ->
  devices_proto s = None -> devices_proto s' = None.
Proof.
  intros Hstep Hno Hp.
  destruct l as [sub| | | |did tid fb| |t|f o|device em|device]; simpl in Hstep.
  - by injection Hstep as <-.
  - by injection Hstep as <-.
  - injection Hstep as <-. unfold InputManager.refreshDevices.
    pose proof (refreshEntries_proto (length (calls s)) (obj_entries (config s))
                  (InputManager.new_call KRefreshDevices 0 None s)) as H.
    destruct (InputManager.refreshEntries _ _ _) as [s1 n]. simpl in H.
    destruct (decide (n = 0)); sstate; by rewrite H.
  - injection Hstep as <-. destruct (destroy_fields s) as (_ & _ & _ & _ & _ & _ & _ & _
                                                           & _ & _ & _ & _ & ->). done.
  - injection Hstep as <-. unfold InputManager.setFeedback.
    by destruct (InputManager.devices_read did s).
  - injection Hstep as <-. unfold InputManager.clearFeedbackAll.
    by rewrite devices_proto_clearFeedbackAll_loop.
  - destruct (timers s !! t) as [[|]|]; try done. injection Hstep as <-.
    unfold InputManager.refreshDevices.
    pose proof (refreshEntries_proto (length (calls s)) (obj_entries (config s))
                  (InputManager.new_call KRefreshDevices 0 None s)) as H.
    destruct (InputManager.refreshEntries _ _ _) as [s1 n]. simpl in H.
    destruct (decide (n = 0)); sstate; by rewrite H.
  - destruct (decide (f ∈ pending s)); [|done]. injection Hstep as <-.
    set (s0 := set_pending _ s).
    assert (devices_proto s0 = None) as Hp0 by exact Hp.
    destruct f as [c|c id d|c id d|id d|c d|c d|c d rest|c]; cbn [InputManager.resume].
    + destruct o; [|done]. unfold InputManager.init_createAll.
      pose proof (createDevices_proto c (obj_entries (config s0)) s0 Hno) as H.
      destruct (InputManager.createDevices _ _ _) as [s1 n]. simpl in H.
      destruct (decide (n = 0)); unfold InputManager.init_finish; sstate;
        by rewrite H.
    + destruct o; [|done]. by rewrite devices_proto_createDevice_settled.
    + destruct o; by rewrite devices_proto_createDevice_settled.
    + by destruct o.
    + unfold InputManager.destroy_settled. destruct (calls s0 !! c) as [cl|]; [|done].
      destruct (result cl), o; try done. by destruct (decide (pred (awaiting cl) = 0)).
    + done.
    + destruct o; [|done]. by rewrite devices_proto_clearFeedbackAll_loop.
    + unfold InputManager.destroy_settled. destruct (calls s0 !! c) as [cl|]; [|done].
      destruct (result cl); try done. by destruct (decide (pred (awaiting cl) = 0)).
  - unfold InputManager.device_emit in Hstep.
    destruct (heap s !! device); [|done]. injection Hstep as <-.
    by rewrite devices_proto_fold_listeners.
  - destruct (heap s !! device); [|done]. by injection Hstep as <-.
Qed.

(** While no device-id of the configuration is [__proto__], the prototype
    of the registry is [Object.prototype]: a read then finds what the
    registry holds or what [Object.prototype] defines. *)
Lemma reachable_devices_proto (cfg : JSObject SomeDeviceConfig) (lg : Logger) (s : State) :
  reachable cfg lg s -> "__proto__" ∉ obj_keys cfg -> devices_proto s = None.
Proof.
  intros Hr Hno.
  assert (config s = cfg /\ devices_proto s = None) as [_ H]; [|done].
  induction Hr as [|s l s' Hr [IHc IHp] Hstep]; [done|].
  split; [by rewrite (step_config _ _ _ Hstep)|].
  eapply step_devices_proto; [exact Hstep|by rewrite IHc|exact IHp].
Qed.

(** ** What the Manager logs *)

Lemma pending_fold_trigger (args : Device.TriggerEventArgs) (fns : list Device.Listener)
    (s : State) :
  pending (fold_left (InputManager.call_listener (InputManager.EmitTrigger args)) fns s)
  = pending s.
Proof.
  revert s. induction fns as [|fn fns IH]; intros s; simpl; [done|].
  rewrite IH. by destruct fn.
Qed.

Lemma step_no_error_frames (l : Label) (s s' : State) :
  step l s = Some s' -> is_error_emit l = false ->
  (forall id d, FErrorDestroy id d ∉ pending s) ->
  (forall id d, FErrorDestroy id d ∉ pending s')
  /\ logged s' = logged s.
Proof.
  intros Hstep Hne Hno.
  pose proof (step_fields _ _ _ Hstep) as Hf.
  destruct (step_on_behalf _ _ _ Hstep) as (_ & (fs & Hp & Hfs) & _).
  destruct l as [sub| | | |did tid fb| |t|f o|device em|device];
    simpl in Hp, Hfs, Hf.
  - subst s'. done.
  - split; [|by destruct Hf as (_ & _ & _ & -> & _); rewrite app_nil_r].
    intros id d Hin. rewrite Hp in Hin. apply elem_of_app in Hin as [Hin|Hin].
    + by apply (Hno id d).
    + rewrite list.Forall_forall in Hfs. by specialize (Hfs _ Hin).
  - split; [|by destruct Hf as (_ & _ & _ & -> & _); rewrite app_nil_r].
    intros id d Hin. rewrite Hp in Hin. apply elem_of_app in Hin as [Hin|Hin].
    + by apply (Hno id d).
    + rewrite list.Forall_forall in Hfs. by specialize (Hfs _ Hin).
  - split; [|subst s'; by destruct (destroy_fields s) as (_ & _ & _ & _ & _ & -> & _)].
    intros id d Hin. rewrite Hp in Hin. apply elem_of_app in Hin as [Hin|Hin].
    + by apply (Hno id d).
    + rewrite list.Forall_forall in Hfs. by specialize (Hfs _ Hin).
  - split; [|by destruct Hf as (_ & _ & _ & -> & _); rewrite app_nil_r].
    intros id d Hin. rewrite Hp in Hin. apply elem_of_app in Hin as [Hin|Hin].
    + by apply (Hno id d).
    + rewrite list.Forall_forall in Hfs. by specialize (Hfs _ Hin).
  - split; [|by destruct Hf as (_ & _ & _ & -> & _); rewrite app_nil_r].
    intros id d Hin. rewrite Hp in Hin. apply elem_of_app in Hin as [Hin|Hin].
    + by apply (Hno id d).
    + rewrite list.Forall_forall in Hfs. by specialize (Hfs _ Hin).
  - split; [|by destruct Hf as (_ & _ & _ & -> & _); rewrite app_nil_r].
    intros id d Hin. rewrite Hp in Hin. apply elem_of_app in Hin as [Hin|Hin].
    + by apply (Hno id d).
    + rewrite list.Forall_forall in Hfs. by specialize (Hfs _ Hin).
  - assert (f ∈ pending s) as Hfin.
    { simpl in Hstep. by destruct (decide (f ∈ pending s)). }
    destruct Hf as (lg & tm & Hfs' & Hlg).
    split.
    + intros id d Hin. rewrite Hp in Hin. apply elem_of_app in Hin as [Hin|Hin].
      * apply remove_first_subset in Hin. by apply (Hno id d).
      * rewrite list.Forall_forall in Hfs. specialize (Hfs _ Hin). simpl in Hfs.
        destruct f; try done. by apply (Hno deviceId0 erroredDevice).
    + destruct Hlg as [->|(id & d & e & -> & _)].
      * destruct Hfs' as (_ & _ & _ & -> & _). by rewrite app_nil_r.
      * by destruct (Hno id d).
  - destruct em as [args|args]; [|done].
    destruct Hf as (lg & dl & Hfs' & -> & _).
    split; [|by destruct Hfs' as (_ & _ & _ & -> & _); rewrite app_nil_r].
    simpl in Hstep. unfold InputManager.device_emit in Hstep.
    destruct (heap s !! device); [|done]. injection Hstep as <-.
    by rewrite pending_fold_trigger.
  - subst s'. done.
Qed.

(** X1.  As long as no device emits an error event, the Manager logs
    nothing, whatever fails: a rejected [initBitmapFeedback()], a device
    whose [init()] or [destroy()] rejects, an unknown type tag, a rejected
    [setFeedback] or [clearFeedbackAll] all leave the log as it was. *)
Theorem silent_without_error_event (ls : list Label) (s s' : State) :
  run ls s = Some s' ->
  (forall id d, FErrorDestroy id d ∉ pending s) ->
  Forall (fun l => is_error_emit l = false) ls ->
  logged s' = logged s.
Proof.
  revert s. induction ls as [|l ls IH]; intros s Hrun Hno Hls; simpl in Hrun.
  - by injection Hrun as <-.
  - destruct (step l s) as [s1|] eqn:Hstep; [|done].
    apply list.Forall_cons in Hls as [Hl Hls].
    destruct (step_no_error_frames _ _ _ Hstep Hl Hno) as [Hno1 Hlog1].
    rewrite <- Hlog1. by apply IH.
Qed.

(** ** The device objects *)

Lemma step_heap (l : Label) (s s' : State) :
  step l s = Some s' -> is_detach l = false -> exists new, heap s' = heap s ++ new.
Proof.
  intros Hstep Hnd. pose proof (step_fields _ _ _ Hstep) as H.
  destruct l; try done; try (by destruct H as (_ & _ & _ & _ & _ & ? & _)).
  - subst s'. exists []. by rewrite app_nil_r.
  - subst s'. exists []. rewrite app_nil_r.
    by destruct (destroy_fields s) as (_ & _ & _ & _ & _ & _ & _ & ? & _).
  - by destruct H as (? & ? & (_ & _ & _ & _ & _ & ? & _) & _).
  - by destruct H as (? & ? & (_ & _ & _ & _ & _ & ? & _) & _).
Qed.

(** X2.  The Manager never modifies a device object once [createDevice] has
    wired it, and never removes it: unless the device detaches its listeners
    itself, it keeps them through eviction, through the Manager's
    [destroy()] and through a new [init()]. *)
Theorem manager_keeps_device_objects (ls : list Label) (s s' : State) (d : DevRef)
    (o : DeviceObj) :
  run ls s = Some s' ->
  Forall (fun l => is_detach l = false) ls ->
  heap s !! d = Some o ->
  heap s' !! d = Some o.
Proof.
  revert s. induction ls as [|l ls IH]; intros s Hrun Hls Ho; simpl in Hrun.
  - by injection Hrun as <-.
  - destruct (step l s) as [s1|] eqn:Hstep; [|done].
    apply list.Forall_cons in Hls as [Hl Hls].
    destruct (step_heap _ _ _ Hstep Hl) as [new Hnew].
    apply (IH s1 Hrun Hls). rewrite Hnew. by apply lookup_app_l_Some.
Qed.

(** ** The reconciliation timer *)

Lemma step_timers (l : Label) (s s' : State) :
  step l s = Some s' ->
  (timers s' = timers s /\ refreshInterval s' = refreshInterval s)
  \/ (timers s' = timers s ++ [true] /\ refreshInterval s' = Some (length (timers s)))
  \/ (exists t, refreshInterval s = Some t /\ refreshInterval s' = Some t
                /\ timers s' = <[t := false]> (timers s)).
Proof.
  intros Hstep. pose proof (step_fields _ _ _ Hstep) as H.
  destruct l; try (left; by destruct H as (_ & _ & _ & _ & _ & _ & ?)).
  - subst s'. by left.
  - subst s'.
    destruct (destroy_fields s) as (_ & _ & _ & Hr & _ & _ & Ht & _).
    destruct (refreshInterval s) as [t|] eqn:Hri; [|by left].
    right. right. by exists t.
  - destruct H as (lg & [|] & (_ & _ & _ & _ & _ & _ & ?) & _); [right|]; by left.
  - destruct H as (lg & dl & (_ & _ & _ & _ & _ & _ & ?) & _). by left.
  - subst s'. by left.
Qed.

Lemma timer_known_step (l : Label) (s s' : State) :
  step l s = Some s' -> timer_known s -> timer_known s'.
Proof.
  intros Hstep Hk t Ht.
  destruct (step_timers _ _ _ Hstep)
    as [[Htm Hri]|[[Htm Hri]|(t0 & Hri0 & Hri & Htm)]]; rewrite Htm.
  - apply Hk. by rewrite <- Hri.
  - rewrite Hri in Ht. injection Ht as <-. rewrite length_app. simpl. lia.
  - rewrite length_insert. apply Hk. congruence.
Qed.

Lemma reachable_timer_known (cfg : JSObject SomeDeviceConfig) (lg : Logger) (s : State) :
  reachable cfg lg s -> timer_known s.
Proof.
  induction 1 as [|s l s' _ IH Hstep]; [done | by eapply timer_known_step].
Qed.

Lemma cancelled_step (l : Label) (s s' : State) (t : TimerId) :
  step l s = Some s' -> timers s !! t = Some false -> timers s' !! t = Some false.
Proof.
  intros Hstep Hc.
  destruct (step_timers _ _ _ Hstep)
    as [[Htm _]|[[Htm _]|(t0 & _ & _ & Htm)]]; rewrite Htm.
  - done.
  - by apply lookup_app_l_Some.
  - destruct (decide (t0 = t)) as [->|Hne].
    + apply list_lookup_insert_eq. by eapply lookup_lt_Some.
    + by rewrite list_lookup_insert_ne.
Qed.

(** X3.  [refreshInterval] always holds a timer that [setInterval] returned,
    and once [destroy()] has cancelled it that timer never fires again,
    whatever happens afterwards. *)
Theorem cancelled_timer_never_fires (cfg : JSObject SomeDeviceConfig) (lg : Logger)
    (s s' : State) (t : TimerId) (ls : list Label) :
  reachable cfg lg s ->
  refreshInterval s = Some t ->
  run ls (InputManager.destroy s) = Some s' ->
  t < length (timers s) /\ timers s' !! t = Some false /\ step (LTick t) s' = None.
Proof.
  intros Hr Hri Hrun.
  pose proof (reachable_timer_known _ _ _ Hr t Hri) as Hlt.
  split; [exact Hlt|].
  assert (timers (InputManager.destroy s) !! t = Some false) as H0.
  { destruct (destroy_fields s) as (_ & _ & _ & _ & _ & _ & -> & _).
    rewrite Hri. by apply list_lookup_insert_eq. }
  assert (timers s' !! t = Some false) as H1.
  { revert Hrun H0. generalize (InputManager.destroy s). clear.
    induction ls as [|l ls IH]; intros s Hrun H0; simpl in Hrun.
    - by injection Hrun as <-.
    - destruct (step l s) as [s1|] eqn:Hstep; [|done].
      apply (IH s1 Hrun). by eapply cancelled_step. }
  split; [exact H1|]. simpl. by rewrite H1.
Qed.

Lemma orphan_step (l : Label) (s s' : State) (t : TimerId) :
  step l s = Some s' ->
  timers s !! t = Some true /\ refreshInterval s <> Some t ->
  timers s' !! t = Some true /\ refreshInterval s' <> Some t.
Proof.
  intros Hstep [Ht Hri].
  destruct (step_timers _ _ _ Hstep)
    as [[Htm Hri']|[[Htm Hri']|(t0 & Hri0 & Hri' & Htm)]]; rewrite Htm, Hri'.
  - done.
  - split; [by apply lookup_app_l_Some|].
    apply lookup_lt_Some in Ht. intros [= ?]. lia.
  - split; [|congruence]. rewrite list_lookup_insert_ne; [done|congruence].
Qed.

(** X4.  A running timer that is not the one stored in [refreshInterval]
    can never be cancelled: after any sequence of operations, [destroy()]
    included, it still fires and starts a reconciliation pass.  ([init()]
    stores the new timer over the old one without clearing it, so a second
    [init()] leaves such a timer behind.) *)
Theorem orphaned_timer_keeps_firing (ls : list Label) (s s' : State) (t : TimerId) :
  timers s !! t = Some true ->
  refreshInterval s <> Some t ->
  run ls s = Some s' ->
  timers s' !! t = Some true
  /\ step (LTick t) s' = Some (InputManager.refreshDevices s').
Proof.
  intros Ht Hri Hrun.
  assert (timers s' !! t = Some true /\ refreshInterval s' <> Some t) as [H1 _].
  { revert s Ht Hri Hrun. induction ls as [|l ls IH]; intros s Ht Hri Hrun; simpl in Hrun.
    - by injection Hrun as <-.
    - destruct (step l s) as [s1|] eqn:Hstep; [|done].
      destruct (orphan_step _ _ _ _ Hstep (conj Ht Hri)) as [Ht1 Hri1].
      by apply (IH s1). }
  split; [exact H1|]. simpl. by rewrite H1.
Qed.

(** ** Subscribers *)

Lemma unsubscribed_step (l : Label) (s s' : State) :
  step l s = Some s' -> is_subscribe l = false -> subscribers s = [] ->
  subscribers s' = [] /\ delivered s' = delivered s.
Proof.
  intros Hstep Hl Hs. pose proof (step_fields _ _ _ Hstep) as H.
  destruct l as [sub| | | |did tid fb| |t|f o|device em|device]; try done;
    try (destruct H as (_ & _ & -> & _ & -> & _); by rewrite app_nil_r).
  - subst s'. by destruct (destroy_fields s)
      as (_ & _ & _ & _ & -> & _ & _ & _ & _ & _ & _ & -> & _).
  - destruct H as (lg & tm & (_ & _ & -> & _ & -> & _) & _). by rewrite app_nil_r.
  - destruct H as (lg & dl & (_ & _ & -> & _ & -> & _) & P).
    split; [done|]. destruct em.
    + destruct P as [_ P]. rewrite (P Hs). by rewrite app_nil_r.
    + rewrite P. by rewrite app_nil_r.
  - by subst s'.
Qed.

(** X5.  After [destroy()] the Manager delivers no trigger event, whatever
    the devices emit and whatever else happens, until somebody subscribes
    again. *)
Theorem no_delivery_after_destroy (ls : list Label) (s s' : State) :
  run ls (InputManager.destroy s) = Some s' ->
  Forall (fun l => is_subscribe l = false) ls ->
  subscribers s' = [] /\ delivered s' = delivered s.
Proof.
  intros Hrun Hls.
  assert (subscribers (InputManager.destroy s) = []
          /\ delivered (InputManager.destroy s) = delivered s) as [H0 H1].
  { by destruct (destroy_fields s) as (_ & _ & _ & _ & -> & _ & _ & _ & _ & _ & _ & -> & _). }
  rewrite <- H1. revert Hrun Hls H0. generalize (InputManager.destroy s). clear.
  induction ls as [|l ls IH]; intros s Hrun Hls Hs; simpl in Hrun.
  - by injection Hrun as <-.
  - destruct (step l s) as [s1|] eqn:Hstep; [|done].
    apply list.Forall_cons in Hls as [Hl Hls].
    destruct (unsubscribed_step _ _ _ Hstep Hl Hs) as [Hs1 Hd1].
    rewrite <- Hd1. by apply IH.
Qed.

(** ** The configuration manifest *)

(** X6.  [getIntegrationsConfigManifest()] documents exactly the types that
    [createNewDevice] can construct: a configuration whose type tag has an
    entry in the manifest gets a device, any other makes [createNewDevice]
    throw; and each of the four types has its own manifest under its tag. *)
Theorem manifest_matches_createNewDevice {M : Type} (HTTP_CONFIG MIDI_CONFIG
    STREAM_DECK_CONFIG XKEYS_CONFIG : M) (deviceConfig : SomeDeviceConfig) (s : State) :
  let manifest :=
    getIntegrationsConfigManifest HTTP_CONFIG MIDI_CONFIG STREAM_DECK_CONFIG XKEYS_CONFIG in
  (is_Some (obj_get manifest (type deviceConfig))
   <-> exists r, InputManager.createNewDevice deviceConfig s = inl r)
  /\ (obj_get manifest (type deviceConfig) = None
      <-> InputManager.createNewDevice deviceConfig s = inr (throwNever deviceConfig))
  /\ forall t,
       obj_get manifest (DeviceType_tag t)
       = Some match t with
              | HTTP => HTTP_CONFIG
              | MIDI => MIDI_CONFIG
              | STREAM_DECK => STREAM_DECK_CONFIG
              | X_KEYS => XKEYS_CONFIG
              end
       /\ DeviceType_of_tag (DeviceType_tag t) = Some t.
Proof.
  intros manifest.
  assert (manifest = [("http", HTTP_CONFIG); ("midi", MIDI_CONFIG);
                      ("streamdeck", STREAM_DECK_CONFIG); ("xkeys", XKEYS_CONFIG)])
    as -> by reflexivity.
  unfold InputManager.createNewDevice, DeviceType_of_tag. cbn [obj_get].
  split; [|split].
  - repeat case_decide; split; intros Hx;
      first [ by destruct Hx as [? ?] | eexists; reflexivity ].
  - repeat case_decide; split; intros Hx; done.
  - intros t. by destruct t.
Qed.

(** ** Passes with nothing to create *)

Lemma set_devices_same (s : State) : set_devices (devices s) s = s.
Proof. by apply state_ext. Qed.

Lemma obj_delete_absent {A : Type} (o : list (string * A)) (k : string) :
  obj_get o k = None -> obj_delete k o = o.
Proof.
  induction o as [|[k' v'] o IH]; simpl; [done|].
  destruct (decide (k = k')); [done|]. intros H. by rewrite IH.
Qed.

Lemma refreshEntries_nothing (c : CallId) (entries : list (string * SomeDeviceConfig))
    (s : State) :
  (forall id cf, (id, cf) ∈ entries ->
                 InputManager.devices_read id s <> LookupUndefined
                 \/ DeviceType_of_tag (type cf) = None) ->
  InputManager.refreshEntries c entries s = (s, 0).
Proof.
  induction entries as [|[k cf] rest IH]; intros H; [done|]. simpl.
  assert (InputManager.refreshEntries c rest s = (s, 0)) as Hrest.
  { apply IH. intros id cf' Hin. apply H. by apply list_elem_of_further. }
  destruct (InputManager.devices_read k s) eqn:Hk; try exact Hrest.
  destruct (H k cf (list_elem_of_here _ _)) as [Hs|Hun]; [done|].
  apply devices_read_undefined in Hk as [Hk _].
  rewrite (createDevice_unknown _ _ _ _ Hun).
  rewrite (obj_delete_absent _ _ Hk), set_devices_same. by rewrite Hrest.
Qed.

Lemma refreshDevices_nothing_read (s : State) :
  (forall id cf, (id, cf) ∈ obj_entries (config s) ->
                 InputManager.devices_read id s <> LookupUndefined
                 \/ DeviceType_of_tag (type cf) = None) ->
  InputManager.refreshDevices s
  = InputManager.new_call KRefreshDevices 0 (Some Resolved) s.
Proof.
  intros H. unfold InputManager.refreshDevices.
  rewrite (refreshEntries_nothing _ _ (InputManager.new_call KRefreshDevices 0 None s))
    by exact H.
  rewrite decide_True by done. apply state_ext; sstate; try done.
  by rewrite alter_snoc.
Qed.

Lemma refreshDevices_nothing (s : State) :
  nothing_to_create s ->
  InputManager.refreshDevices s
  = InputManager.new_call KRefreshDevices 0 (Some Resolved) s.
Proof.
  intros H. apply refreshDevices_nothing_read. intros id cf Hin.
  destruct (H id cf Hin) as [[d Hd]|Hun]; [left|by right].
  by rewrite (devices_read_own _ _ _ Hd).
Qed.

(** X7.  When every configured device-id is registered or has a type tag
    that no integration implements (so, too, when the configuration is
    empty), a pass of [refreshDevices()] does nothing: its promise is
    resolved at once, no device is created or called, and nothing else in
    the Manager changes. *)
Theorem refreshDevices_nothing_to_create (s : State) :
  nothing_to_create s ->
  step LRefreshDevices s
  = Some (InputManager.new_call KRefreshDevices 0 (Some Resolved) s).
Proof. intros H. simpl. by rewrite refreshDevices_nothing. Qed.

Lemma refreshDevices_config (s : State) :
  config (InputManager.refreshDevices s) = config s.
Proof. by destruct (fields_step_refreshDevices s) as (? & _). Qed.

(** A name for which the read finds something before the pass is read
    alike after it. *)
Lemma refreshDevices_read (s : State) (id : string) :
  NoDup (obj_keys (config s)) ->
  InputManager.devices_read id s <> LookupUndefined ->
  InputManager.devices_read id (InputManager.refreshDevices s)
  = InputManager.devices_read id s.
Proof.
  intros Hnd Hread.
  destruct (refreshDevices_fields s) as (Hd & Hp & _). cbv zeta in Hd, Hp.
  apply devices_read_get.
  - rewrite Hd.
    rewrite (refreshEntries_filter _ _ (InputManager.new_call KRefreshDevices 0 None s))
      by done.
    apply (createDevices_devices_other _ _ (InputManager.new_call KRefreshDevices 0 None s)).
    intros Hin. apply list_elem_of_fmap in Hin as ([k cf] & -> & Hin).
    apply list_elem_of_In, List.filter_In in Hin as [_ Hk].
    apply bool_decide_eq_true in Hk. by apply Hread.
  - rewrite Hp. apply (refreshEntries_proto _ _ (InputManager.new_call KRefreshDevices 0 None s)).
Qed.

Lemma nothing_unfound_after_pass (s : State) (id : string) (cf : SomeDeviceConfig) :
  NoDup (obj_keys (config s)) ->
  (id, cf) ∈ obj_entries (config (InputManager.refreshDevices s)) ->
  InputManager.devices_read id (InputManager.refreshDevices s) <> LookupUndefined
  \/ DeviceType_of_tag (type cf) = None.
Proof.
  intros Hnd Hin. rewrite refreshDevices_config in Hin.
  destruct (DeviceType_of_tag (type cf)) as [cls|] eqn:Hcls; [left | by right].
  destruct (decide (InputManager.devices_read id s = LookupUndefined)) as [Hread|Hread].
  - destruct (refreshDevices_recreates s id cf cls) as (d & _ & Hd & _);
      [by apply obj_get_NoDup | done | done |].
    by rewrite (devices_read_own _ _ _ Hd).
  - by rewrite refreshDevices_read.
Qed.

(** X8.  A pass of [refreshDevices()] that starts right after another one,
    before anything has settled, creates nothing: the devices of the first
    pass are in the registry from the moment they are constructed, not from
    the moment their [init()] resolves. *)
Theorem consecutive_pass_creates_nothing (s : State) :
  NoDup (obj_keys (config s)) ->
  run [LRefreshDevices; LRefreshDevices] s
  = Some (InputManager.new_call KRefreshDevices 0 (Some Resolved)
            (InputManager.refreshDevices s)).
Proof.
  intros Hnd. simpl. rewrite (refreshDevices_nothing_read (InputManager.refreshDevices s));
    [done|]. intros id cf Hin. by apply nothing_unfound_after_pass.
Qed.

(** ** The registry and the configuration *)

Lemma registry_from_same (es : list (string * SomeDeviceConfig)) (s s' : State) :
  devices s' = devices s -> registry_from es s s'.
Proof. intros H id d Hget. left. by rewrite <- H. Qed.

Lemma registry_from_trans (es : list (string * SomeDeviceConfig)) (s1 s2 s3 : State) :
  registry_from es s1 s2 -> registry_from es s2 s3 -> registry_from es s1 s3.
Proof.
  intros H1 H2 id d Hget. destruct (H2 id d Hget) as [H|H]; [by apply H1 | by right].
Qed.

Lemma registry_from_delete (es : list (string * SomeDeviceConfig)) (k : string) (s s' : State) :
  devices s' = obj_delete k (devices s) -> registry_from es s s'.
Proof.
  intros H id d Hget. left. rewrite H in Hget.
  destruct (decide (id = k)) as [->|Hne].
  - by rewrite obj_get_delete_eq in Hget.
  - by rewrite obj_get_delete_ne in Hget.
Qed.

Lemma registry_from_nil (es : list (string * SomeDeviceConfig)) (s s' : State) :
  devices s' = [] -> registry_from es s s'.
Proof. intros H id d Hget. by rewrite H in Hget. Qed.

Lemma registry_from_createDevice (c : CallId) (k : string) (cf : SomeDeviceConfig)
    (es : list (string * SomeDeviceConfig)) (s : State) :
  (k, cf) ∈ es -> registry_from es s (fst (InputManager.createDevice c k cf s)).
Proof.
  intros Hin. destruct (DeviceType_of_tag (type cf)) as [cls|] eqn:Hcls.
  - rewrite (createDevice_known _ _ _ _ cls Hcls). intros id d Hget.
    assign_cases; sstate; [by left|].
    destruct (decide (id = k)) as [->|Hne]; [right; by exists cf, cls|].
    left. by rewrite obj_get_set_ne in Hget.
  - rewrite (createDevice_unknown _ _ _ _ Hcls). by eapply registry_from_delete.
Qed.

Lemma registry_from_createDevices (c : CallId) (entries es : list (string * SomeDeviceConfig))
    (s : State) :
  entries ⊆ es -> registry_from es s (fst (InputManager.createDevices c entries s)).
Proof.
  revert s. induction entries as [|[k cf] rest IH]; intros s Hsub; simpl.
  - by apply registry_from_same.
  - pose proof (registry_from_createDevice c k cf es s) as H1.
    destruct (InputManager.createDevice c k cf s) as [s1 p]. simpl in H1.
    specialize (IH s1). destruct (InputManager.createDevices c rest s1) as [s2 n].
    simpl in *. eapply registry_from_trans.
    + apply H1. apply Hsub. apply list_elem_of_here.
    + apply IH. intros x Hx. apply Hsub. by apply list_elem_of_further.
Qed.

Lemma registry_from_refreshEntries (c : CallId) (entries es : list (string * SomeDeviceConfig))
    (s : State) :
  entries ⊆ es -> registry_from es s (fst (InputManager.refreshEntries c entries s)).
Proof.
  revert s. induction entries as [|[k cf] rest IH]; intros s Hsub; simpl.
  - by apply registry_from_same.
  - assert (rest ⊆ es) as Hrest
      by (intros x Hx; apply Hsub; by apply list_elem_of_further).
    destruct (InputManager.devices_read k s); try (by apply IH).
    pose proof (registry_from_createDevice c k cf es s) as H1.
    destruct (InputManager.createDevice c k cf s) as [s1 p]. simpl in H1.
    specialize (IH s1 Hrest). destruct (InputManager.refreshEntries c rest s1) as [s2 n].
    simpl in *. eapply registry_from_trans; [|exact IH].
    apply H1. apply Hsub. apply list_elem_of_here.
Qed.

Lemma registry_from_core_eq (es : list (string * SomeDeviceConfig)) (s s' : State) :
  core_eq s s' -> registry_from es s s'.
Proof. intros (H & _). by apply registry_from_same. Qed.

Lemma registry_from_resume (f : Frame) (o : Outcome) (s : State) :
  registry_from (obj_entries (config s)) s (InputManager.resume f o s).
Proof.
  destruct f as [c|c id d|c id d|id d|c d|c d|c d rest|c]; simpl.
  - destruct o; [|by apply registry_from_same].
    unfold InputManager.init_createAll.
    pose proof (registry_from_createDevices c (obj_entries (config s))
                  (obj_entries (config s)) s) as H.
    destruct (InputManager.createDevices _ _ _) as [s1 n]. simpl in H.
    eapply registry_from_trans; [by apply H|].
    destruct (decide (n = 0)); by apply registry_from_same.
  - destruct o; [|by apply registry_from_same].
    apply registry_from_core_eq, core_eq_createDevice_settled.
  - destruct o.
    + eapply registry_from_trans;
        [|apply registry_from_core_eq, core_eq_createDevice_settled].
      by eapply registry_from_delete.
    + apply registry_from_core_eq, core_eq_createDevice_settled.
  - destruct o; by eapply registry_from_delete.
  - unfold InputManager.destroy_settled.
    destruct (calls s !! c) as [cl|]; [|by apply registry_from_same].
    destruct (result cl), o; try (by apply registry_from_same).
    destruct (decide (pred (awaiting cl) = 0));
      [by apply registry_from_nil | by apply registry_from_same].
  - by apply registry_from_same.
  - destruct o; [|by apply registry_from_same].
    destruct rest; by apply registry_from_same.
  - unfold InputManager.destroy_settled.
    destruct (calls s !! c) as [cl|]; [|by apply registry_from_same].
    destruct (result cl); try (by apply registry_from_same).
    destruct (decide (pred (awaiting cl) = 0));
      [by apply registry_from_nil | by apply registry_from_same].
Qed.

Lemma devices_fold_listeners (e : InputManager.Emission) (fns : list Device.Listener)
    (s : State) :
  devices (fold_left (InputManager.call_listener e) fns s) = devices s.
Proof.
  revert s. induction fns as [|fn fns IH]; intros s; simpl; [done|].
  rewrite IH. by destruct fn, e.
Qed.

Lemma registry_from_step (l : Label) (s s' : State) :
  step l s = Some s' -> registry_from (obj_entries (config s)) s s'.
Proof.
  intros Hstep. destruct l as [sub| | | |did tid fb| |t|f o|device em|device];
    simpl in Hstep.
  - injection Hstep as <-. by apply registry_from_same.
  - injection Hstep as <-. by apply registry_from_nil.
  - injection Hstep as <-. intros id d Hget. rewrite refreshDevices_devices in Hget.
    by apply (registry_from_refreshEntries _ _ (obj_entries (config s))
                (InputManager.new_call KRefreshDevices 0 None s)) in Hget.
  - injection Hstep as <-.
    destruct (destroy_fields s) as (_ & _ & Hd & _).
    by apply registry_from_same.
  - injection Hstep as <-. unfold InputManager.setFeedback.
    destruct (InputManager.devices_read did s); by apply registry_from_same.
  - injection Hstep as <-. unfold InputManager.clearFeedbackAll.
    destruct (obj_values (devices s)); by apply registry_from_same.
  - destruct (timers s !! t) as [[|]|]; try done. injection Hstep as <-.
    intros id d Hget. rewrite refreshDevices_devices in Hget.
    by apply (registry_from_refreshEntries _ _ (obj_entries (config s))
                (InputManager.new_call KRefreshDevices 0 None s)) in Hget.
  - destruct (decide (f ∈ pending s)); [|done]. injection Hstep as <-.
    apply (registry_from_resume f o (set_pending _ s)).
  - unfold InputManager.device_emit in Hstep.
    destruct (heap s !! device); [|done]. injection Hstep as <-.
    apply registry_from_same, devices_fold_listeners.
  - destruct (heap s !! device); [|done]. injection Hstep as <-.
    by apply registry_from_same.
Qed.

(** X9.  The registry only ever holds device-ids of the configuration, and
    only those whose type tag is one of the known types: no entry for an
    unconfigured id or for an unrecognized type survives a transition. *)
Theorem registry_within_configuration (cfg : JSObject SomeDeviceConfig) (lg : Logger)
    (s : State) :
  reachable cfg lg s ->
  config s = cfg /\ registered_configured s.
Proof.
  induction 1 as [|s l s' Hr [Hcfg IH] Hstep]; [by split|].
  pose proof (step_config _ _ _ Hstep) as Hc.
  split; [congruence|]. intros id d Hget. rewrite Hc.
  destruct (registry_from_step _ _ _ Hstep id d Hget) as [Hold|Hnew];
    [exact (IH id d Hold) | exact Hnew].
Qed.

(** ** The promises of the Manager and the frames they wait for *)

Lemma belongs_to_call (c : CallId) (f : Frame) :
  belongs_to c f = true <-> frame_call f = Some c.
Proof. unfold belongs_to. apply bool_decide_eq_true. Qed.

Lemma filter_all {A : Type} (p : A -> bool) (l : list A) :
  Forall (fun x => p x = true) l -> List.filter p l = l.
Proof. induction 1 as [|x l Hx _ IH]; [done|]. simpl. by rewrite Hx, IH. Qed.

Lemma filter_remove_first_no (p : Frame -> bool) (f : Frame) (l : list Frame) :
  p f = false ->
  List.filter p (InputManager.remove_first f l) = List.filter p l.
Proof.
  intros Hf. induction l as [|g l IH]; [done|]. simpl.
  destruct (decide (f = g)) as [<-|Hne]; [by rewrite Hf|]. simpl. by rewrite IH.
Qed.

Lemma filter_remove_first_yes (p : Frame -> bool) (f : Frame) (l : list Frame) :
  p f = true ->
  List.filter p (InputManager.remove_first f l)
  = InputManager.remove_first f (List.filter p l).
Proof.
  intros Hf. induction l as [|g l IH]; [done|]. simpl.
  destruct (decide (f = g)) as [<-|Hne].
  - rewrite Hf. simpl. by rewrite decide_True.
  - simpl. destruct (p g); [|done]. simpl. rewrite decide_False by done. by rewrite IH.
Qed.

Lemma length_remove_first (f : Frame) (l : list Frame) :
  f ∈ l -> S (length (InputManager.remove_first f l)) = length l.
Proof.
  induction l as [|g l IH]; intros Hin; [by apply elem_of_nil in Hin|]. simpl.
  destruct (decide (f = g)) as [<-|Hne]; [done|]. simpl. f_equal. apply IH.
  apply elem_of_cons in Hin as [?|?]; [done | done].
Qed.

Lemma frames_of_pending (c : CallId) (s s' : State) :
  pending s' = pending s -> frames_of c s' = frames_of c s.
Proof. unfold frames_of. by intros ->. Qed.

Lemma frames_of_elem (c : CallId) (f : Frame) (s : State) :
  f ∈ frames_of c s <-> f ∈ pending s /\ frame_call f = Some c.
Proof.
  unfold frames_of. split.
  - intros H. apply list_elem_of_In, List.filter_In in H as [H1 H2].
    split; [by apply list_elem_of_In | by apply belongs_to_call].
  - intros [H1 H2]. apply list_elem_of_In, List.filter_In.
    split; [by apply list_elem_of_In | by apply belongs_to_call].
Qed.

Lemma frames_of_fresh (s : State) : wf s -> frames_of (length (calls s)) s = [].
Proof.
  intros (_ & Hfit & _). unfold frames_of. apply filter_none.
  apply list.Forall_forall. intros g Hg.
  destruct (belongs_to (length (calls s)) g) eqn:Hb; [|done].
  apply belongs_to_call in Hb. destruct (Hfit g _ Hg Hb) as (k & Hk & _).
  assert (is_Some (call_kind s (length (calls s)))) as Hs by by exists k.
  apply call_kind_lt in Hs. lia.
Qed.

Lemma frames_of_added (c : CallId) (s s' : State) (fs : list Frame) :
  pending s' = pending s ++ fs -> Forall (fun g => frame_call g = Some c) fs ->
  frames_of c s' = frames_of c s ++ fs.
Proof.
  intros Hp Hfs. unfold frames_of. rewrite Hp, List.filter_app. f_equal.
  apply filter_all. eapply list.Forall_impl; [exact Hfs|].
  intros g Hg. by apply belongs_to_call.
Qed.

(** A transition that belongs to another invocation, or to none, changes
    neither the promise of [c] nor its frames. *)
Lemma step_other_origin (l : Label) (c : CallId) (s s' : State) :
  step l s = Some s' -> origin l s <> Some c ->
  calls s' !! c = calls s !! c /\ frames_of c s' = frames_of c s.
Proof.
  intros Hstep Hor.
  destruct (step_on_behalf _ _ _ Hstep) as (Hc & (fs & Hp & Hfs) & _).
  split; [rewrite Hc, calls_before; [done|congruence]|].
  unfold frames_of. rewrite Hp, List.filter_app.
  rewrite (filter_none _ fs).
  2:{ eapply list.Forall_impl; [exact Hfs|]. intros g Hg.
      destruct (belongs_to c g) eqn:Hgc; [|done].
      apply belongs_to_call in Hgc. congruence. }
  rewrite app_nil_r. destruct l; try done. simpl.
  apply filter_remove_first_no. destruct (belongs_to c f) eqn:Hfc; [|done].
  apply belongs_to_call in Hfc. simpl in Hor. congruence.
Qed.

Lemma accounted_other (l : Label) (c : CallId) (s s' : State) :
  step l s = Some s' -> origin l s <> Some c -> accounted c s -> accounted c s'.
Proof.
  intros Hstep Hor (cl & Hcl & H).
  destruct (step_other_origin _ _ _ _ Hstep Hor) as [Hc Hf].
  exists cl. rewrite Hc, Hf. done.
Qed.

Lemma set_awaiting_lookup (c : CallId) (n : nat) (s : State) (cl : Call) :
  calls s !! c = Some cl ->
  calls (InputManager.set_awaiting c n s) !! c
  = Some {| kind := kind cl; awaiting := n; result := result cl |}.
Proof.
  intros H. unfold InputManager.set_awaiting, set_calls. cbn [calls].
  by rewrite list_lookup_alter_eq, H.
Qed.

Lemma init_finish_lookup (c : CallId) (s : State) (cl : Call) :
  calls s !! c = Some cl ->
  calls (InputManager.init_finish c s) !! c
  = Some {| kind := kind cl; awaiting := awaiting cl; result := Some Resolved |}.
Proof.
  intros H. unfold InputManager.init_finish. sstate.
  by rewrite list_lookup_alter_eq, H.
Qed.

(** What the settling of one creation makes of the promise it belongs to. *)
Lemma createDevice_settled_call (c : CallId) (o : Outcome) (s : State) (cl : Call) :
  calls s !! c = Some cl ->
  calls (InputManager.createDevice_settled c o s) !! c
  = Some {| kind := kind cl; awaiting := pred (awaiting cl);
            result := match kind cl, result cl with
                      | KInit, None =>
                          match o with
                          | Rejected e => Some (Rejected e)
                          | Resolved =>
                              if decide (pred (awaiting cl) = 0) then Some Resolved else None
                          end
                      | KRefreshDevices, None =>
                          if decide (pred (awaiting cl) = 0) then Some Resolved else None
                      | _, r => r
                      end |}.
Proof.
  intros H. unfold InputManager.createDevice_settled. rewrite H.
  pose proof (set_awaiting_lookup c (pred (awaiting cl)) s cl H) as H1.
  destruct (kind cl) eqn:Hk, (result cl) eqn:Hr, o;
    try (destruct (decide (pred (awaiting cl) = 0)));
    first [ exact H1
          | by rewrite (settle_call_lookup _ _ _ _ H1)
          | by rewrite (init_finish_lookup _ _ _ H1) ].
Qed.

Lemma destroy_settled_call (c : CallId) (o : Outcome) (s : State) (cl : Call) :
  calls s !! c = Some cl ->
  calls (InputManager.destroy_settled c o s) !! c
  = Some {| kind := kind cl; awaiting := pred (awaiting cl);
            result := match result cl, o with
                      | None, Rejected e => Some (Rejected e)
                      | None, Resolved =>
                          if decide (pred (awaiting cl) = 0) then Some Resolved else None
                      | Some r, _ => Some r
                      end |}.
Proof.
  intros H. unfold InputManager.destroy_settled. rewrite H.
  pose proof (set_awaiting_lookup c (pred (awaiting cl)) s cl H) as H1.
  destruct (result cl) eqn:Hr, o;
    try (destruct (decide (pred (awaiting cl) = 0)));
    first [ exact H1
          | by rewrite (settle_call_lookup _ _ _ _ H1)
          | by rewrite (settle_call_lookup _ _ (InputManager.devices_reset _) _ H1) ].
Qed.

Lemma pending_createDevice_settled (c : CallId) (o : Outcome) (s : State) :
  pending (InputManager.createDevice_settled c o s) = pending s.
Proof. by destruct (core_eq_createDevice_settled c o s) as (_ & _ & ? & _). Qed.

Lemma pending_destroy_settled (c : CallId) (o : Outcome) (s : State) :
  pending (InputManager.destroy_settled c o s) = pending s.
Proof.
  unfold InputManager.destroy_settled.
  destruct (calls s !! c) as [cl|]; [|done].
  destruct (result cl), o; try done. by destruct (decide (pred (awaiting cl) = 0)).
Qed.

Lemma nil_length {A : Type} (l : list A) : length l = 0 -> l = [].
Proof. by destruct l. Qed.

Lemma Forall_remove_first (P : Frame -> Prop) (f : Frame) (l : list Frame) :
  Forall P l -> Forall P (InputManager.remove_first f l).
Proof.
  rewrite !list.Forall_forall. intros H g Hg. apply H. by eapply remove_first_subset.
Qed.

(** The settling of one creation, accounted for. *)
Lemma accounted_creation (c : CallId) (o : Outcome) (s0 : State) (cl : Call)
    (F0 : list Frame) :
  calls s0 !! c = Some cl ->
  frames_of c s0 = F0 ->
  Forall is_creation_frame F0 ->
  awaiting cl = S (length F0) ->
  (kind cl = KInit /\ (result cl = None \/ exists e, result cl = Some (Rejected e))
   \/ kind cl = KRefreshDevices /\ result cl = None) ->
  accounted c (InputManager.createDevice_settled c o s0).
Proof.
  intros Hcl HF0 Hall Haw Hk.
  eexists. split; [by apply createDevice_settled_call|]. cbn [kind result awaiting].
  rewrite !(frames_of_pending c s0 (InputManager.createDevice_settled c o s0))
    by apply pending_createDevice_settled.
  rewrite HF0, Haw. cbn [pred].
  destruct Hk as [[-> [->|[e ->]]]|[-> ->]].
  - destruct o as [|e]; [|done].
    destruct (decide (length F0 = 0)) as [Hz|Hnz]; [by apply nil_length|].
    right. split; [done|]. split; [done|]. by intros ->.
  - done.
  - destruct (decide (length F0 = 0)) as [Hz|Hnz]; [by apply nil_length|].
    split; [done|]. by intros ->.
Qed.

Lemma accounted_settle (c : CallId) (f : Frame) (o : Outcome) (s s' : State) :
  wf s -> step (LSettle f o) s = Some s' -> frame_call f = Some c ->
  accounted c s -> accounted c s'.
Proof.
  intros (_ & Hfit & _) Hstep Hfc (cl & Hcl & Hacc).
  simpl in Hstep. destruct (decide (f ∈ pending s)) as [Hin|]; [|done].
  injection Hstep as <-.
  destruct (Hfit f c Hin Hfc) as (k & Hck & Hfk).
  rewrite (call_kind_lookup _ _ _ Hcl) in Hck. injection Hck as <-.
  assert (f ∈ frames_of c s) as Hff by by apply frames_of_elem.
  set (s0 := set_pending (InputManager.remove_first f (pending s)) s).
  assert (frames_of c s0 = InputManager.remove_first f (frames_of c s)) as HF0.
  { unfold frames_of, s0. sstate. apply filter_remove_first_yes. by apply belongs_to_call. }
  pose proof (length_remove_first f _ Hff) as Hlen. rewrite <- HF0 in Hlen.
  assert (calls s0 !! c = Some cl) as Hcl0 by exact Hcl.
  assert (forall P, Forall P (frames_of c s) -> Forall P (frames_of c s0)) as Hall.
  { intros P HP. rewrite HF0. by apply Forall_remove_first. }
  assert (frames_of c s <> []) as Hne by (intros E; rewrite E in Hff; by apply elem_of_nil in Hff).
  assert (forall g, frames_of c s = [g] -> frames_of c s0 = []) as Hone.
  { intros g E. apply nil_length. rewrite E in Hlen. simpl in Hlen. lia. }
  destruct f as [c0|c0 id d|c0 id d|id d|c0 d|c0 d|c0 d rest|c0]; try done;
    simpl in Hfc; injection Hfc as ->; cbn [InputManager.resume].
  - (* init: initBitmapFeedback() has settled *)
    destruct (kind cl) eqn:Hk; try done.
    destruct (result cl) as [[|e]|] eqn:Hr; [done| |].
    { destruct Hacc as [Hall' _]. rewrite list.Forall_forall in Hall'.
      by destruct (Hall' _ Hff). }
    destruct Hacc as [[Hf Haw]|[Hall' _]].
    2:{ rewrite list.Forall_forall in Hall'. by destruct (Hall' _ Hff). }
    pose proof (Hone _ Hf) as HF00.
    destruct o as [|e].
    + unfold InputManager.init_createAll.
      pose proof (createDevices_created c (obj_entries (config s0)) s0) as Hcr.
      destruct (InputManager.createDevices _ _ _) as [s1 n]. simpl in Hcr.
      destruct Hcr as (_ & _ & _ & _ & _ & _ & Hc1 & _ & _ & (fs & Hp1 & Hn & Hfs) & _).
      assert (frames_of c s1 = fs) as HF1.
      { rewrite (frames_of_added c s0 s1 fs Hp1), HF00; [done|].
        eapply list.Forall_impl; [exact Hfs|]. by intros g (i & dd & ->). }
      assert (calls s1 !! c = Some cl) as Hcl1 by by rewrite Hc1.
      assert (Forall is_creation_frame fs) as Hcf.
      { eapply list.Forall_impl; [exact Hfs|]. by intros g (i & dd & ->). }
      destruct (decide (n = 0)) as [->|Hnz].
      * eexists. split; [by apply init_finish_lookup|]. cbn [kind result]. rewrite Hk.
        rewrite (frames_of_pending c s1) by done. rewrite HF1. by apply nil_length.
      * eexists. split; [by apply set_awaiting_lookup|]. cbn [kind result awaiting].
        rewrite Hk, Hr. rewrite (frames_of_pending c s1) by done. rewrite HF1.
        right. split; [done|]. split; [done|]. intros ->. simpl in Hn. lia.
    + eexists. split; [by apply settle_call_lookup|]. cbn [kind result awaiting].
      rewrite Hk. rewrite (frames_of_pending c s0) by done. by rewrite HF00, Haw.
  - (* createDevice: device.init() has settled *)
    assert (Forall is_creation_frame (frames_of c s)
            /\ awaiting cl = length (frames_of c s)
            /\ (kind cl = KInit /\ (result cl = None \/ exists e, result cl = Some (Rejected e))
                \/ kind cl = KRefreshDevices /\ result cl = None)) as (Hcf & Haw & Hk).
    { destruct (kind cl) eqn:Hk; try done; destruct (result cl) as [[|e]|] eqn:Hr;
        try done.
      - destruct Hacc as [Hall' Haw]. split; [done|]. split; [done|]. left. eauto.
      - destruct Hacc as [[Hf _]|(Hall' & Haw & _)].
        + rewrite Hf in Hff. by apply list_elem_of_singleton in Hff.
        + split; [done|]. split; [done|]. left. eauto.
      - destruct Hacc as [Haw _]. split; [|split; [done|by right]].
        apply list.Forall_forall. intros g Hg. apply frames_of_elem in Hg as [Hg1 Hg2].
        destruct (Hfit g c Hg1 Hg2) as (k & Hck & Hgk).
        rewrite (call_kind_lookup _ _ _ Hcl), Hk in Hck. injection Hck as <-.
        by destruct g. }
    destruct o as [|e].
    + apply (accounted_creation c Resolved s0 cl (frames_of c s0)); auto. lia.
    + exists cl. split; [exact Hcl|].
      assert (frames_of c (InputManager.await (FCreateDestroy c id d)
                             (InputManager.invoke (Some c) d MDestroy s0))
              = frames_of c s0 ++ [FCreateDestroy c id d]) as ->.
      { apply frames_of_added; [done|]. by apply Forall_singleton. }
      assert (Forall is_creation_frame (frames_of c s0 ++ [FCreateDestroy c id d])) as Hcf'.
      { apply list.Forall_app. split; [auto|]. by apply Forall_singleton. }
      rewrite length_app. simpl.
      destruct Hk as [[-> [->|[e' ->]]]|[-> ->]].
      * right. split; [done|]. split; [lia|]. by destruct (frames_of c s0).
      * split; [done|lia].
      * split; [lia|]. by destruct (frames_of c s0).
  - (* createDevice, catch: device.destroy() has settled *)
    assert (Forall is_creation_frame (frames_of c s)
            /\ awaiting cl = length (frames_of c s)
            /\ (kind cl = KInit /\ (result cl = None \/ exists e, result cl = Some (Rejected e))
                \/ kind cl = KRefreshDevices /\ result cl = None)) as (Hcf & Haw & Hk).
    { destruct (kind cl) eqn:Hk; try done; destruct (result cl) as [[|e]|] eqn:Hr;
        try done.
      - destruct Hacc as [Hall' Haw]. split; [done|]. split; [done|]. left. eauto.
      - destruct Hacc as [[Hf _]|(Hall' & Haw & _)].
        + rewrite Hf in Hff. by apply list_elem_of_singleton in Hff.
        + split; [done|]. split; [done|]. left. eauto.
      - destruct Hacc as [Haw _]. split; [|split; [done|by right]].
        apply list.Forall_forall. intros g Hg. apply frames_of_elem in Hg as [Hg1 Hg2].
        destruct (Hfit g c Hg1 Hg2) as (k & Hck & Hgk).
        rewrite (call_kind_lookup _ _ _ Hcl), Hk in Hck. injection Hck as <-.
        by destruct g. }
    destruct o as [|e].
    + apply (accounted_creation c Resolved (set_devices (obj_delete id (devices s0)) s0) cl
               (frames_of c s0)); auto. lia.
    + apply (accounted_creation c (Rejected e) s0 cl (frames_of c s0)); auto. lia.
  - (* destroy: one device.destroy() has settled *)
    destruct (kind cl) eqn:Hk; try done.
    eexists. split; [by apply destroy_settled_call|]. cbn [kind result awaiting].
    rewrite Hk. rewrite (frames_of_pending c s0) by apply pending_destroy_settled.
    destruct (result cl) as [[|e]|] eqn:Hr; [done| |].
    + lia.
    + destruct Hacc as [Haw _]. destruct o as [|e]; [|lia].
      destruct (decide (pred (awaiting cl) = 0)) as [Hz|Hnz].
      * apply nil_length. lia.
      * split; [lia|]. intros E. rewrite E in Hlen. simpl in Hlen. lia.
  - (* setFeedback *)
    destruct (kind cl) eqn:Hk; try done.
    destruct (result cl) eqn:Hr; [done|].
    eexists. split; [by apply settle_call_lookup|]. cbn [kind result]. rewrite Hk.
    rewrite (frames_of_pending c s0) by done. apply nil_length. lia.
  - (* clearFeedbackAll *)
    destruct (kind cl) eqn:Hk; try done.
    destruct (result cl) eqn:Hr; [done|].
    assert (frames_of c s0 = []) as HF00 by (apply nil_length; lia).
    destruct o as [|e]; [destruct rest as [|d' rest]|]; cbn [InputManager.clearFeedbackAll_loop].
    + eexists. split; [by apply settle_call_lookup|]. cbn [kind result]. rewrite Hk.
      by rewrite (frames_of_pending c s0).
    + exists cl. split; [exact Hcl|]. rewrite Hk, Hr.
      rewrite (frames_of_added c s0 _ [FClearFeedbackAll c d' rest]);
        [by rewrite HF00 | done | by apply Forall_singleton].
    + eexists. split; [by apply settle_call_lookup|]. cbn [kind result]. rewrite Hk.
      by rewrite (frames_of_pending c s0).
  - (* destroy: the continuation of await Promise.all([]) *)
    destruct (kind cl) eqn:Hk; try done.
    eexists. split; [by apply destroy_settled_call|]. cbn [kind result awaiting].
    rewrite Hk. rewrite (frames_of_pending c s0) by apply pending_destroy_settled.
    destruct (result cl) as [[|e]|] eqn:Hr; [done| |].
    + lia.
    + destruct Hacc as [Haw _].
      destruct (decide (pred (awaiting cl) = 0)) as [Hz|Hnz].
      * apply nil_length. lia.
      * split; [lia|]. intros E. rewrite E in Hlen. simpl in Hlen. lia.
Qed.

(** *** The promise a Manager method starts with *)

Lemma accounted_init (s : State) :
  wf s -> accounted (length (calls s)) (InputManager.init s).
Proof.
  intros Hwf. unfold InputManager.init.
  eexists. split; [apply (new_call_lookup KInit 0 None (InputManager.devices_reset s))|].
  cbn [kind result awaiting]. left. split; [|done].
  rewrite (frames_of_added (length (calls s)) s _ [FInitBitmap (length (calls s))]);
    [by rewrite frames_of_fresh | done | by apply Forall_singleton].
Qed.

Lemma accounted_refreshDevices (s : State) :
  wf s -> accounted (length (calls s)) (InputManager.refreshDevices s).
Proof.
  intros Hwf. unfold InputManager.refreshDevices.
  set (c := length (calls s)).
  set (s0 := InputManager.new_call KRefreshDevices 0 None s).
  pose proof (refreshEntries_created c (obj_entries (config s)) s0) as Hcr.
  destruct (InputManager.refreshEntries _ _ _) as [s1 n]. simpl in Hcr.
  destruct Hcr as (_ & _ & _ & _ & _ & _ & Hc1 & _ & _ & (fs & Hp1 & Hn & Hfs) & _).
  assert (frames_of c s1 = fs) as HF1.
  { rewrite (frames_of_added c s s1 fs); [by unfold c; rewrite frames_of_fresh|exact Hp1|].
    eapply list.Forall_impl; [exact Hfs|]. by intros g (i & dd & ->). }
  assert (calls s1 !! c = Some {| kind := KRefreshDevices; awaiting := 0; result := None |})
    as Hcl1 by (rewrite Hc1; apply new_call_lookup).
  destruct (decide (n = 0)) as [->|Hnz].
  - eexists. split; [by apply settle_call_lookup|]. cbn [kind result].
    rewrite (frames_of_pending c s1) by done. rewrite HF1. by apply nil_length.
  - eexists. split; [by apply set_awaiting_lookup|]. cbn [kind result awaiting].
    rewrite (frames_of_pending c s1) by done. rewrite HF1.
    split; [done|]. intros ->. simpl in Hn. lia.
Qed.

Lemma accounted_destroy (s : State) :
  wf s -> accounted (length (calls s)) (InputManager.destroy s).
Proof.
  intros Hwf.
  destruct (destroy_fields s) as (_ & _ & _ & _ & _ & _ & _ & _ & Hc & Hp & _).
  eexists. split; [by rewrite Hc, lookup_app_r, Nat.sub_diag|].
  cbn [kind result awaiting].
  rewrite (frames_of_added (length (calls s)) s _ _ Hp), frames_of_fresh by
    (done || (apply list.Forall_forall; intros g Hg;
              by apply destroy_frames in Hg as [? _])).
  destruct (obj_values (devices s)) as [|d ds]; [done|].
  split; [|done]. simpl. by rewrite length_fmap.
Qed.

Lemma accounted_setFeedback (deviceId triggerId : string) (feedback : SomeFeedback)
    (s : State) :
  wf s -> accounted (length (calls s))
            (InputManager.setFeedback deviceId triggerId feedback s).
Proof.
  intros Hwf. unfold InputManager.setFeedback.
  destruct (InputManager.devices_read deviceId s) as [|device| |];
    try (eexists; split; [apply new_call_lookup|]; cbn [kind result];
         rewrite (frames_of_pending _ s) by done; by apply frames_of_fresh).
  eexists. split; [apply (new_call_lookup KSetFeedback 0 None s)|].
  cbn [kind result].
  rewrite (frames_of_added (length (calls s)) s _ [FSetFeedback (length (calls s)) device]);
    [by rewrite frames_of_fresh | done | by apply Forall_singleton].
Qed.

Lemma accounted_clearFeedbackAll (s : State) :
  wf s -> accounted (length (calls s)) (InputManager.clearFeedbackAll s).
Proof.
  intros Hwf. unfold InputManager.clearFeedbackAll.
  destruct (obj_values (devices s)) as [|d ds] eqn:Hds;
    cbn [InputManager.clearFeedbackAll_loop].
  - eexists. split; [apply settle_call_lookup, new_call_lookup|]. cbn [kind result].
    rewrite (frames_of_pending _ s) by done. by apply frames_of_fresh.
  - eexists. split; [apply (new_call_lookup (KClearFeedbackAll (d :: ds)) 0 None s)|].
    cbn [kind result].
    rewrite (frames_of_added (length (calls s)) s _
               [FClearFeedbackAll (length (calls s)) d ds]);
      [by rewrite frames_of_fresh | done | by apply Forall_singleton].
Qed.

Lemma accounted_started (l : Label) (s s' : State) :
  wf s -> step l s = Some s' -> origin l s = Some (length (calls s)) ->
  accounted (length (calls s)) s'.
Proof.
  intros Hwf Hstep Hor.
  destruct l as [sub| | | |did tid fb| |t|f o|device em|device]; simpl in Hstep; try done.
  - injection Hstep as <-. by apply accounted_init.
  - injection Hstep as <-. by apply accounted_refreshDevices.
  - injection Hstep as <-. by apply accounted_destroy.
  - injection Hstep as <-. by apply accounted_setFeedback.
  - injection Hstep as <-. by apply accounted_clearFeedbackAll.
  - destruct (timers s !! t) as [[|]|]; try done.
    injection Hstep as <-. by apply accounted_refreshDevices.
  - destruct (decide (f ∈ pending s)) as [Hin|]; [|done].
    simpl in Hor. destruct Hwf as (_ & Hfit & _).
    destruct (Hfit f _ Hin Hor) as (k & Hk & _).
    assert (is_Some (call_kind s (length (calls s)))) as Hs by by exists k.
    apply call_kind_lt in Hs. lia.
Qed.

Lemma all_accounted_step (l : Label) (s s' : State) :
  wf s -> all_accounted s -> step l s = Some s' -> all_accounted s'.
Proof.
  intros Hwf Hall Hstep c Hc.
  destruct (decide (origin l s = Some c)) as [Hor|Hor].
  - destruct (decide (c = length (calls s))) as [->|Hne].
    + by eapply accounted_started.
    + destruct l as [sub| | | |did tid fb| |t|f o|device em|device];
        simpl in Hor; try congruence.
      assert (c < length (calls s)) as Hlt.
      { simpl in Hstep. destruct (decide (f ∈ pending s)) as [Hin|]; [|done].
        destruct Hwf as (_ & Hfit & _).
        destruct (Hfit f _ Hin Hor) as (k & Hk & _).
        apply call_kind_lt. by exists k. }
      eapply accounted_settle; eauto.
  - destruct (step_other_origin _ c _ _ Hstep Hor) as [Hcs _].
    assert (c < length (calls s)) as Hlt.
    { apply lookup_lt_is_Some. rewrite <- Hcs. by apply lookup_lt_is_Some. }
    eapply accounted_other; eauto.
Qed.

Lemma reachable_accounted (cfg : JSObject SomeDeviceConfig) (lg : Logger) (s : State) :
  reachable cfg lg s -> all_accounted s.
Proof.
  induction 1 as [|s l s' Hr IH Hstep].
  - intros c Hc. simpl in Hc. lia.
  - eapply all_accounted_step; eauto. by eapply reachable_wf.
Qed.

(** *** What the accounting gives *)

Lemma unsettled_has_frame (cfg : JSObject SomeDeviceConfig) (lg : Logger)
    (s : State) (c : CallId) (cl : Call) :
  reachable cfg lg s -> calls s !! c = Some cl -> result cl = None ->
  exists f, f ∈ pending s /\ frame_call f = Some c.
Proof.
  intros Hr Hcl Hres.
  destruct (reachable_accounted _ _ _ Hr c) as (cl' & Hcl' & Hacc);
    [by eapply lookup_lt_Some|].
  rewrite Hcl in Hcl'. injection Hcl' as <-. rewrite Hres in Hacc.
  assert (frames_of c s <> []) as Hne.
  { destruct (kind cl).
    - destruct Hacc as [[-> _]|(_ & _ & ?)]; done.
    - by destruct Hacc.
    - by destruct Hacc.
    - intros E. by rewrite E in Hacc.
    - intros E. by rewrite E in Hacc. }
  destruct (frames_of c s) as [|f fs] eqn:HF; [done|].
  exists f. apply frames_of_elem. rewrite HF. apply list_elem_of_here.
Qed.

(** X10.  No promise of the Manager is left pending with nothing to wait
    for: in every reachable state, an invocation of [init], [refreshDevices],
    [destroy], [setFeedback] or [clearFeedbackAll] whose promise has not
    settled is suspended on at least one outstanding promise, whose settling
    resumes it. *)
Theorem pending_promise_has_frame (cfg : JSObject SomeDeviceConfig) (lg : Logger)
    (s : State) (c : CallId) (cl : Call) :
  reachable cfg lg s -> calls s !! c = Some cl -> result cl = None ->
  exists f, f ∈ pending s /\ frame_call f = Some c.
Proof. apply unsettled_has_frame. Qed.

(** X11.  A promise of the Manager that has resolved has nothing in flight:
    when [init()], [refreshDevices()], [destroy()], [setFeedback()] or
    [clearFeedbackAll()] has resolved, no promise awaited on its behalf is
    still outstanding.  The same holds after a rejection, except for [init]
    and [destroy], whose [Promise.all] rejects at the first rejection. *)
Theorem settled_promise_has_no_frame (cfg : JSObject SomeDeviceConfig) (lg : Logger)
    (s : State) (c : CallId) (cl : Call) (o : Outcome) (f : Frame) :
  reachable cfg lg s -> calls s !! c = Some cl -> result cl = Some o ->
  o = Resolved \/ (kind cl <> KInit /\ kind cl <> KDestroy) ->
  f ∈ pending s -> frame_call f <> Some c.
Proof.
  intros Hr Hcl Hres Hk Hin Hfc.
  destruct (reachable_accounted _ _ _ Hr c) as (cl' & Hcl' & Hacc);
    [by eapply lookup_lt_Some|].
  rewrite Hcl in Hcl'. injection Hcl' as <-. rewrite Hres in Hacc.
  assert (frames_of c s = []) as HF.
  { destruct (kind cl); destruct Hk as [->|[? ?]]; done. }
  assert (f ∈ frames_of c s) as Hf by by apply frames_of_elem.
  rewrite HF in Hf. by apply elem_of_nil in Hf.
Qed.

Lemma only_frame (c : CallId) (f : Frame) (s : State) :
  f ∈ frames_of c s -> (frames_of c s = [f] <-> length (frames_of c s) = 1).
Proof.
  intros Hf. split; [by intros ->|].
  destruct (frames_of c s) as [|g [|h l]]; try done.
  intros _. by apply list_elem_of_singleton in Hf as ->.
Qed.

Lemma destroy_settled_registry (c : CallId) (o : Outcome) (s : State) (cl : Call) :
  calls s !! c = Some cl ->
  let s' := InputManager.destroy_settled c o s in
  match result cl, o with
  | None, Resolved =>
      if decide (pred (awaiting cl) = 0)
      then devices s' = [] /\ devices_proto s' = None
      else devices s' = devices s /\ devices_proto s' = devices_proto s
  | _, _ => devices s' = devices s /\ devices_proto s' = devices_proto s
  end.
Proof.
  intros H. unfold InputManager.destroy_settled. rewrite H.
  destruct (result cl), o; try done. by destruct (decide (pred (awaiting cl) = 0)).
Qed.

(** A transition that belongs to an invocation of [destroy()] settles one of
    the frames the invocation waits for.  Either the promise was pending,
    the frame was the last one and nothing was rejected, and the registry is
    reset and the promise resolved; or the promise is left unresolved and
    the registry as it was. *)
Lemma destroy_transition (cfg : JSObject SomeDeviceConfig) (lg : Logger) (l : Label)
    (s s' : State) (c : CallId) (cl : Call) :
  reachable cfg lg s -> step l s = Some s' ->
  calls s !! c = Some cl -> kind cl = KDestroy -> origin l s = Some c ->
  exists f o,
    l = LSettle f o /\ f ∈ frames_of c s
    /\ ((result cl = None /\ frames_of c s = [f] /\ (f = FDestroyEmpty c \/ o = Resolved)
         /\ result <$> calls s' !! c = Some (Some Resolved)
         /\ devices s' = [] /\ devices_proto s' = None)
        \/ (~ (result cl = None /\ frames_of c s = [f]
               /\ (f = FDestroyEmpty c \/ o = Resolved))
            /\ result <$> calls s' !! c <> Some (Some Resolved)
            /\ (forall r, result cl = Some r -> result <$> calls s' !! c = Some (Some r))
            /\ devices s' = devices s /\ devices_proto s' = devices_proto s)).
Proof.
  intros Hr Hstep Hcl Hk Hor.
  destruct (reachable_accounted _ _ _ Hr c) as (cl' & Hcl' & Hacc);
    [by eapply lookup_lt_Some|].
  rewrite Hcl in Hcl'. injection Hcl' as <-. rewrite Hk in Hacc.
  destruct (reachable_wf _ _ _ Hr) as (_ & Hfit & _).
  pose proof (lookup_lt_Some _ _ _ Hcl) as Hlt.
  destruct l as [sub| | | |id t fb| |t|f o|d e|d]; simpl in Hor;
    try done; try (injection Hor as Hor; lia).
  simpl in Hstep. destruct (decide (f ∈ pending s)) as [Hin|]; [|done].
  injection Hstep as <-.
  destruct (Hfit _ c Hin Hor) as (k & Hck & Hfk).
  rewrite (call_kind_lookup _ _ _ Hcl), Hk in Hck. injection Hck as <-.
  assert (f ∈ frames_of c s) as Hff by by apply frames_of_elem.
  pose proof (only_frame _ _ _ Hff) as Honly.
  exists f, o. split; [done|]. split; [done|].
  set (s0 := set_pending _ s).
  assert (calls s0 !! c = Some cl) as Hcl0 by exact Hcl.
  assert (length (frames_of c s) <> 0) as Hpos.
  { destruct (frames_of c s); [by apply elem_of_nil in Hff|done]. }
  assert (forall o',
    (f = FDestroyEmpty c \/ o = Resolved <-> o' = Resolved) ->
    (result cl = None /\ frames_of c s = [f] /\ (f = FDestroyEmpty c \/ o = Resolved)
     /\ result <$> calls (InputManager.destroy_settled c o' s0) !! c = Some (Some Resolved)
     /\ devices (InputManager.destroy_settled c o' s0) = []
     /\ devices_proto (InputManager.destroy_settled c o' s0) = None)
    \/ (~ (result cl = None /\ frames_of c s = [f]
           /\ (f = FDestroyEmpty c \/ o = Resolved))
        /\ result <$> calls (InputManager.destroy_settled c o' s0) !! c
           <> Some (Some Resolved)
        /\ (forall r, result cl = Some r ->
              result <$> calls (InputManager.destroy_settled c o' s0) !! c = Some (Some r))
        /\ devices (InputManager.destroy_settled c o' s0) = devices s
        /\ devices_proto (InputManager.destroy_settled c o' s0) = devices_proto s)) as Hgen.
  { intros o' Ho.
    pose proof (destroy_settled_registry c o' s0 cl Hcl0) as Hreg. cbv zeta in Hreg.
    change (devices s0) with (devices s) in Hreg.
    change (devices_proto s0) with (devices_proto s) in Hreg.
    rewrite (destroy_settled_call c o' s0 cl Hcl0).
    cbn [fmap option_fmap option_map result].
    destruct (result cl) as [[|e]|] eqn:Hres.
    - rewrite Hacc in Hff. by apply elem_of_nil in Hff.
    - right. split; [by intros [? _]|]. split; [done|].
      split; [by intros r [= <-]|]. exact Hreg.
    - destruct Hacc as [Haw _]. destruct o' as [|e].
      + destruct (decide (pred (awaiting cl) = 0)) as [Hz|Hz].
        * left. split; [done|]. split; [apply Honly; lia|].
          split; [by apply Ho|]. split; [done|]. exact Hreg.
        * right. split; [intros (_ & Hl & _); apply Honly in Hl; lia|].
          split; [done|]. split; [done|]. exact Hreg.
      + right. split; [intros (_ & _ & Hx); by apply Ho in Hx|].
        split; [done|]. split; [done|]. exact Hreg. }
  destruct f as [c0|c0 id d|c0 id d|id d|c0 d|c0 d|c0 d rest|c0]; try done;
    simpl in Hor; injection Hor as ->; cbn [InputManager.resume]; apply Hgen.
  - split; [by intros [?|?]|by right].
  - split; [done|by left].
Qed.

(** X12.  [destroy()] resolves in exactly one transition: the one that
    settles the last promise it still waits for, none having been rejected.
    That promise is the last [device.destroy()] to resolve or, when no
    device was registered, the [Promise.all([])] of the [await], whose
    continuation runs after the code that called [destroy()].  In that
    transition the registry is reset to [{}].  Every other transition of
    the invocation (another frame outstanding, a rejection, a settlement
    after a rejection) leaves the registry as it was, and a rejection once
    made stays. *)
Theorem destroy_clears_registry_at_last (cfg : JSObject SomeDeviceConfig) (lg : Logger)
    (l : Label) (s s' : State) (c : CallId) (cl : Call) :
  reachable cfg lg s -> step l s = Some s' ->
  calls s !! c = Some cl -> kind cl = KDestroy ->
  (result cl = None ->
     (result <$> calls s' !! c = Some (Some Resolved)
      <-> exists f o, l = LSettle f o /\ frames_of c s = [f]
                      /\ (f = FDestroyEmpty c \/ o = Resolved)))
  /\ (result cl = None -> result <$> calls s' !! c = Some (Some Resolved) ->
        devices s' = [] /\ devices_proto s' = None)
  /\ (origin l s = Some c ->
        result cl <> None \/ result <$> calls s' !! c <> Some (Some Resolved) ->
        devices s' = devices s /\ devices_proto s' = devices_proto s)
  /\ (forall r, result cl = Some r -> result <$> calls s' !! c = Some (Some r)).
Proof.
  intros Hr Hstep Hcl Hk.
  destruct (decide (origin l s = Some c)) as [Hor|Hor].
  - destruct (destroy_transition _ _ _ _ _ _ _ Hr Hstep Hcl Hk Hor)
      as (f & o & -> & Hff & [(Hres & Hl & Ho & Hres' & Hd & Hp)
                             |(Hnot & Hres' & Hkeep & Hd & Hp)]).
    + split; [intros _; split; [intros _; by exists f, o|done]|].
      split; [done|]. split; [intros _ [?|?]; done|].
      intros r Hrr. by rewrite Hres in Hrr.
    + split.
      { intros Hres. split; [done|]. intros (f' & o' & [= <- <-] & Hl & Ho).
        by destruct Hnot. }
      split; [done|]. split; [done|]. exact Hkeep.
  - destruct (step_other_origin _ _ _ _ Hstep Hor) as [Hcs _].
    rewrite Hcs, Hcl. cbn [fmap option_fmap option_map].
    split.
    { intros Hres. rewrite Hres. split; [done|].
      intros (f & o & -> & Hl & _). exfalso. apply Hor. simpl.
      assert (f ∈ frames_of c s) as Hf by (rewrite Hl; apply list_elem_of_here).
      by apply frames_of_elem in Hf as [_ ?]. }
    split; [intros Hres; by rewrite Hres|]. split; [done|].
    intros r Hrr. by rewrite Hrr.
Qed.

Lemma createDevice_settled_timer (c : CallId) (o : Outcome) (s : State) (cl : Call) :
  calls s !! c = Some cl -> kind cl = KInit ->
  let s' := InputManager.createDevice_settled c o s in
  match result cl, o with
  | None, Resolved =>
      if decide (pred (awaiting cl) = 0)
      then timers s' = timers s ++ [true] /\ refreshInterval s' = Some (length (timers s))
      else timers s' = timers s /\ refreshInterval s' = refreshInterval s
  | _, _ => timers s' = timers s /\ refreshInterval s' = refreshInterval s
  end.
Proof.
  intros H Hk. unfold InputManager.createDevice_settled. rewrite H, Hk.
  destruct (result cl), o; try done.
  destruct (decide (pred (awaiting cl) = 0)); [|done].
  unfold InputManager.init_finish. sstate. done.
Qed.

(** A transition that belongs to an invocation of [init()] settles one of
    the frames the invocation waits for.  Either the promise was pending,
    the settled promise resolved, the frame was the only one and the
    transition suspended no other, and then [init()] resolves and starts the
    timer; or [init()] is left unresolved and no timer is started. *)
Lemma init_transition (cfg : JSObject SomeDeviceConfig) (lg : Logger) (l : Label)
    (s s' : State) (c : CallId) (cl : Call) :
  reachable cfg lg s -> step l s = Some s' ->
  calls s !! c = Some cl -> kind cl = KInit -> origin l s = Some c ->
  exists f o,
    l = LSettle f o /\ f ∈ frames_of c s
    /\ ((result cl = None /\ o = Resolved /\ frames_of c s = [f] /\ frames_of c s' = []
         /\ result <$> calls s' !! c = Some (Some Resolved)
         /\ timers s' = timers s ++ [true]
         /\ refreshInterval s' = Some (length (timers s)))
        \/ (~ (result cl = None /\ o = Resolved /\ frames_of c s = [f]
               /\ frames_of c s' = [])
            /\ result <$> calls s' !! c <> Some (Some Resolved)
            /\ (forall r, result cl = Some r -> result <$> calls s' !! c = Some (Some r))
            /\ timers s' = timers s /\ refreshInterval s' = refreshInterval s)).
Proof.
  intros Hr Hstep Hcl Hk Hor.
  destruct (reachable_accounted _ _ _ Hr c) as (cl' & Hcl' & Hacc);
    [by eapply lookup_lt_Some|].
  rewrite Hcl in Hcl'. injection Hcl' as <-. rewrite Hk in Hacc.
  destruct (reachable_wf _ _ _ Hr) as (_ & Hfit & _).
  pose proof (lookup_lt_Some _ _ _ Hcl) as Hlt.
  destruct l as [sub| | | |id t fb| |t|f o|d e|d]; simpl in Hor;
    try done; try (injection Hor as Hor; lia).
  simpl in Hstep. destruct (decide (f ∈ pending s)) as [Hin|]; [|done].
  injection Hstep as <-.
  assert (f ∈ frames_of c s) as Hff by by apply frames_of_elem.
  pose proof (only_frame _ _ _ Hff) as Honly.
  exists f, o. split; [done|]. split; [done|].
  set (s0 := set_pending (InputManager.remove_first f (pending s)) s).
  assert (frames_of c s0 = InputManager.remove_first f (frames_of c s)) as HF0.
  { unfold frames_of, s0. sstate. apply filter_remove_first_yes. by apply belongs_to_call. }
  pose proof (length_remove_first f _ Hff) as Hlen. rewrite <- HF0 in Hlen.
  assert (calls s0 !! c = Some cl) as Hcl0 by exact Hcl.
  assert (result cl <> Some Resolved) as Hnres.
  { intros E. rewrite E in Hacc. rewrite Hacc in Hff. by apply elem_of_nil in Hff. }
  (* the settling of one creation *)
  assert (is_creation_frame f -> forall s1,
    calls s1 !! c = Some cl -> pending s1 = pending s0 ->
    timers s1 = timers s -> refreshInterval s1 = refreshInterval s ->
    (result cl = None /\ o = Resolved /\ frames_of c s = [f]
     /\ frames_of c (InputManager.createDevice_settled c o s1) = []
     /\ result <$> calls (InputManager.createDevice_settled c o s1) !! c
        = Some (Some Resolved)
     /\ timers (InputManager.createDevice_settled c o s1) = timers s ++ [true]
     /\ refreshInterval (InputManager.createDevice_settled c o s1)
        = Some (length (timers s)))
    \/ (~ (result cl = None /\ o = Resolved /\ frames_of c s = [f]
           /\ frames_of c (InputManager.createDevice_settled c o s1) = [])
        /\ result <$> calls (InputManager.createDevice_settled c o s1) !! c
           <> Some (Some Resolved)
        /\ (forall r, result cl = Some r ->
              result <$> calls (InputManager.createDevice_settled c o s1) !! c
              = Some (Some r))
        /\ timers (InputManager.createDevice_settled c o s1) = timers s
        /\ refreshInterval (InputManager.createDevice_settled c o s1)
           = refreshInterval s)) as Hgen.
  { intros Hcf s1 Hcl1 Hp1 Ht1 Hri1.
    pose proof (createDevice_settled_timer c o s1 cl Hcl1 Hk) as Ht. cbv zeta in Ht.
    rewrite Ht1, Hri1 in Ht.
    rewrite (createDevice_settled_call c o s1 cl Hcl1), Hk.
    rewrite (frames_of_pending c s0 (InputManager.createDevice_settled c o s1))
      by (by rewrite pending_createDevice_settled).
    cbn [fmap option_fmap option_map result].
    destruct (result cl) as [[|e]|] eqn:Hres; [done| |].
    - right. split; [by intros [? _]|]. split; [done|].
      split; [by intros r [= <-]|]. exact Ht.
    - destruct Hacc as [[Hb _]|(_ & Haw & _)].
      { rewrite Hb in Hff. apply list_elem_of_singleton in Hff as ->. done. }
      destruct o as [|e].
      + destruct (decide (pred (awaiting cl) = 0)) as [Hz|Hz].
        * left. split; [done|]. split; [done|]. split; [apply Honly; lia|].
          split; [apply nil_length; lia|]. split; [done|]. exact Ht.
        * right. split; [intros (_ & _ & Hl & _); apply Honly in Hl; lia|].
          split; [done|]. split; [done|]. exact Ht.
      + right. split; [by intros (_ & ? & _)|]. split; [done|]. split; [done|].
        exact Ht. }
  destruct (Hfit _ c Hin Hor) as (k & Hck & Hfk).
  rewrite (call_kind_lookup _ _ _ Hcl), Hk in Hck. injection Hck as <-.
  destruct f as [c0|c0 id d|c0 id d|id d|c0 d|c0 d|c0 d rest|c0]; try done;
    simpl in Hor; injection Hor as ->; cbn [InputManager.resume].
  - (* initBitmapFeedback() has settled *)
    assert (result cl = None /\ frames_of c s = [FInitBitmap c]) as [Hres Hb].
    { destruct (result cl) as [[|e]|]; [done| |].
      - destruct Hacc as [Hall _]. rewrite list.Forall_forall in Hall.
        by destruct (Hall _ Hff).
      - destruct Hacc as [[Hb _]|[Hall _]]; [done|].
        rewrite list.Forall_forall in Hall. by destruct (Hall _ Hff). }
    assert (frames_of c s0 = []) as HF00.
    { apply nil_length. rewrite Hb in Hlen. simpl in Hlen. lia. }
    destruct o as [|e].
    + unfold InputManager.init_createAll.
      pose proof (createDevices_created c (obj_entries (config s0)) s0) as Hcr.
      destruct (InputManager.createDevices _ _ _) as [s1 n]. simpl in Hcr.
      destruct Hcr as (_ & _ & Hri1 & _ & _ & Ht1 & Hc1 & _ & _
                       & (fs & Hp1 & Hn & Hfs) & _).
      assert (frames_of c s1 = fs) as HF1.
      { rewrite (frames_of_added c s0 s1 fs Hp1), HF00; [done|].
        eapply list.Forall_impl; [exact Hfs|]. by intros g (i & dd & ->). }
      assert (calls s1 !! c = Some cl) as Hcl1 by by rewrite Hc1.
      destruct (decide (n = 0)) as [->|Hnz].
      * left. split; [done|]. split; [done|]. split; [done|].
        rewrite (frames_of_pending c s1) by done.
        split; [rewrite HF1; by apply nil_length|].
        rewrite (init_finish_lookup _ _ _ Hcl1).
        split; [done|]. unfold InputManager.init_finish. sstate.
        by rewrite Ht1.
      * right. rewrite (frames_of_pending c s1 (InputManager.set_awaiting c n s1)) by done.
        split; [intros (_ & _ & _ & E); rewrite HF1 in E; rewrite E in Hn; simpl in Hn; lia|].
        rewrite (set_awaiting_lookup _ n _ _ Hcl1). cbn [fmap option_fmap option_map result].
        rewrite Hres. split; [done|]. split; [done|]. sstate. by rewrite Ht1, Hri1.
    + right. split; [by intros (_ & ? & _)|].
      rewrite (settle_call_lookup _ _ _ _ Hcl0). cbn [fmap option_fmap option_map result].
      split; [done|]. split; [by rewrite Hres|]. done.
  - (* device.init() has settled *)
    destruct o as [|e]; [by apply Hgen|].
    right. split; [by intros (_ & ? & _)|].
    change (calls (InputManager.await (FCreateDestroy c id d)
                     (InputManager.invoke (Some c) d MDestroy s0)) !! c)
      with (calls s !! c).
    rewrite Hcl. cbn [fmap option_fmap option_map].
    split; [intros [= E]; by apply Hnres|]. split; [by intros r ->|]. done.
  - (* the device.destroy() of the catch block has settled *)
    destruct o as [|e]; by apply Hgen.
Qed.

(** X13.  [init()] resolves in exactly one transition: the one in which a
    promise it waits for resolves, none having been rejected, and after
    which it waits for nothing more.  That is the settling of its last
    [createDevice] (with an active device, or with a failed one torn down)
    or, when no device is there to wait for (an empty configuration, only
    unknown types), the resolution of [initBitmapFeedback()] itself.  In
    that transition one timer is created and stored in [#refreshInterval].
    Every other transition of the invocation (another creation outstanding,
    a rejection, a settlement after a rejection) creates no timer, and a
    rejection once made stays. *)
Theorem init_starts_timer_at_last (cfg : JSObject SomeDeviceConfig) (lg : Logger)
    (l : Label) (s s' : State) (c : CallId) (cl : Call) :
  reachable cfg lg s -> step l s = Some s' ->
  calls s !! c = Some cl -> kind cl = KInit ->
  (result cl = None ->
     (result <$> calls s' !! c = Some (Some Resolved)
      <-> exists f, l = LSettle f Resolved /\ frames_of c s = [f]
                    /\ frames_of c s' = []))
  /\ (result cl = None -> result <$> calls s' !! c = Some (Some Resolved) ->
        timers s' = timers s ++ [true]
        /\ refreshInterval s' = Some (length (timers s)))
  /\ (origin l s = Some c ->
        result cl <> None \/ result <$> calls s' !! c <> Some (Some Resolved) ->
        timers s' = timers s /\ refreshInterval s' = refreshInterval s)
  /\ (forall r, result cl = Some r -> result <$> calls s' !! c = Some (Some r)).
Proof.
  intros Hr Hstep Hcl Hk.
  destruct (decide (origin l s = Some c)) as [Hor|Hor].
  - destruct (init_transition _ _ _ _ _ _ _ Hr Hstep Hcl Hk Hor)
      as (f & o & -> & Hff & [(Hres & -> & Hl & Hl' & Hres' & Ht & Hri)
                             |(Hnot & Hres' & Hkeep & Ht & Hri)]).
    + split; [intros _; split; [intros _; by exists f|done]|].
      split; [done|]. split; [intros _ [?|?]; done|].
      intros r Hrr. by rewrite Hres in Hrr.
    + split.
      { intros Hres. split; [done|]. intros (f' & [= -> ->] & Hl & Hl').
        exfalso. apply Hnot. by split_and!. }
      split; [done|]. split; [done|]. exact Hkeep.
  - destruct (step_other_origin _ _ _ _ Hstep Hor) as [Hcs _].
    rewrite Hcs, Hcl. cbn [fmap option_fmap option_map].
    split.
    { intros Hres. rewrite Hres. split; [done|].
      intros (f & -> & Hl & _). exfalso. apply Hor. simpl.
      assert (f ∈ frames_of c s) as Hf by (rewrite Hl; apply list_elem_of_here).
      by apply frames_of_elem in Hf as [_ ?]. }
    split; [intros Hres; by rewrite Hres|]. split; [done|].
    intros r Hrr. by rewrite Hrr.
Qed.

(** ** The work that outstanding promises can still cause *)

Lemma sum_remove_first (w : Frame -> nat) (f : Frame) (l : list Frame) :
  f ∈ l -> sum_list_with w (InputManager.remove_first f l) + w f = sum_list_with w l.
Proof.
  induction l as [|g l IH]; intros Hin; [by apply elem_of_nil in Hin|].
  simpl. destruct (decide (f = g)) as [->|Hne]; [lia|].
  apply elem_of_cons in Hin as [?|Hin]; [done|]. simpl. specialize (IH Hin). lia.
Qed.

Lemma sum_creation (n : nat) (c : CallId) (fs : list Frame) :
  Forall (fun f => exists id d, f = FDeviceInit c id d) fs ->
  sum_list_with (frame_weight n) fs = 2 * length fs.
Proof.
  induction 1 as [|f fs (id & d & ->) _ IH]; [done|]. simpl. lia.
Qed.

Lemma createDevices_count (c : CallId) (entries : list (string * SomeDeviceConfig))
    (s : State) :
  snd (InputManager.createDevices c entries s) <= length entries.
Proof.
  revert s. induction entries as [|[id cf] rest IH]; intros s; simpl; [lia|].
  destruct (InputManager.createDevice c id cf s) as [s1 p].
  specialize (IH s1). destruct (InputManager.createDevices c rest s1) as [s2 n].
  simpl in *. destruct p; lia.
Qed.

Lemma pending_init_finish (c : CallId) (s : State) :
  pending (InputManager.init_finish c s) = pending s.
Proof. unfold InputManager.init_finish. sstate. done. Qed.

(** What the continuation of a frame suspends is less than the frame. *)
Lemma resume_pending (f : Frame) (o : Outcome) (s : State) :
  exists fs, pending (InputManager.resume f o s) = pending s ++ fs
             /\ sum_list_with (frame_weight (length (obj_entries (config s)))) fs
                < frame_weight (length (obj_entries (config s))) f.
Proof.
  destruct f as [c|c id d|c id d|id d|c d|c d|c d rest|c]; cbn [InputManager.resume].
  - destruct o as [|e].
    + unfold InputManager.init_createAll.
      pose proof (createDevices_created c (obj_entries (config s)) s) as Hcr.
      pose proof (createDevices_count c (obj_entries (config s)) s) as Hn.
      destruct (InputManager.createDevices _ _ _) as [s1 n]. simpl in Hcr, Hn.
      destruct Hcr as (_ & _ & _ & _ & _ & _ & _ & _ & _ & (fs & Hp1 & Hl & Hfs) & _).
      exists fs. split.
      * destruct (decide (n = 0)); [by rewrite pending_init_finish|done].
      * rewrite (sum_creation _ c fs Hfs). simpl. lia.
    + exists []. split; [by rewrite app_nil_r|simpl; lia].
  - destruct o as [|e].
    + exists []. rewrite pending_createDevice_settled. split; [by rewrite app_nil_r|simpl; lia].
    + exists [FCreateDestroy c id d]. split; [done|simpl; lia].
  - exists []. destruct o as [|e]; rewrite pending_createDevice_settled;
      (split; [by rewrite app_nil_r|simpl; lia]).
  - exists []. destruct o as [|e]; (split; [by rewrite app_nil_r|simpl; lia]).
  - exists []. rewrite pending_destroy_settled. split; [by rewrite app_nil_r|simpl; lia].
  - exists []. split; [by rewrite app_nil_r|simpl; lia].
  - destruct o as [|e]; [destruct rest as [|d' rest]|];
      cbn [InputManager.clearFeedbackAll_loop].
    + exists []. split; [by rewrite app_nil_r|simpl; lia].
    + exists [FClearFeedbackAll c d' rest]. split; [done|simpl; lia].
    + exists []. split; [by rewrite app_nil_r|simpl; lia].
  - exists []. rewrite pending_destroy_settled. split; [by rewrite app_nil_r|simpl; lia].
Qed.

Lemma settle_backlog (f : Frame) (o : Outcome) (s s' : State) :
  step (LSettle f o) s = Some s' -> backlog s' < backlog s.
Proof.
  intros Hstep.
  destruct (step_fields _ _ _ Hstep) as (lg & tm & (Hcfg & _) & _).
  simpl in Hstep. destruct (decide (f ∈ pending s)) as [Hin|]; [|done].
  injection Hstep as <-.
  set (s0 := set_pending (InputManager.remove_first f (pending s)) s) in *.
  destruct (resume_pending f o s0) as (fs & Hp & Hlt).
  unfold backlog. rewrite Hcfg, Hp, sum_list_with_app.
  change (config s0) with (config s) in Hlt.
  change (pending s0) with (InputManager.remove_first f (pending s)).
  pose proof (sum_remove_first (frame_weight (length (obj_entries (config s)))) f _ Hin).
  lia.
Qed.

Lemma quiesce (o : Frame -> Outcome) (n : nat) (s : State) :
  backlog s <= n ->
  exists ls s', Forall (settles_with o) ls /\ run ls s = Some s' /\ pending s' = [].
Proof.
  revert s. induction n as [|n IH]; intros s Hb.
  - exists [], s. split; [done|]. split; [done|].
    destruct (pending s) as [|f l] eqn:Hp; [done|].
    unfold backlog in Hb. rewrite Hp in Hb. destruct f; simpl in Hb; lia.
  - destruct (pending s) as [|f l] eqn:Hp; [by exists [], s|].
    assert (f ∈ pending s) as Hin by (rewrite Hp; apply list_elem_of_here).
    pose proof (step_settle f (o f) s Hin) as Hstep.
    set (s1 := InputManager.resume f (o f) _) in Hstep.
    pose proof (settle_backlog _ _ _ _ Hstep) as Hlt.
    destruct (IH s1) as (ls & s' & Hls & Hrun & Hq); [lia|].
    exists (LSettle f (o f) :: ls), s'. split; [|split; [|done]].
    + apply List.Forall_cons; [by exists f|done].
    + cbn [run]. by rewrite Hstep.
Qed.

Lemma length_calls_settle_call (c : CallId) (o : Outcome) (s : State) :
  length (calls (InputManager.settle_call c o s)) = length (calls s).
Proof. unfold InputManager.settle_call. sstate. apply length_alter. Qed.

Lemma length_calls_set_awaiting (c : CallId) (n : nat) (s : State) :
  length (calls (InputManager.set_awaiting c n s)) = length (calls s).
Proof. unfold InputManager.set_awaiting. sstate. apply length_alter. Qed.

Lemma length_calls_init_finish (c : CallId) (s : State) :
  length (calls (InputManager.init_finish c s)) = length (calls s).
Proof. unfold InputManager.init_finish. sstate. apply length_alter. Qed.

Lemma length_calls_createDevice_settled (c : CallId) (o : Outcome) (s : State) :
  length (calls (InputManager.createDevice_settled c o s)) = length (calls s).
Proof.
  unfold InputManager.createDevice_settled.
  destruct (calls s !! c) as [cl|]; [|done].
  destruct (kind cl), (result cl), o;
    try (destruct (decide (pred (awaiting cl) = 0)));
    rewrite ?length_calls_init_finish, ?length_calls_settle_call,
            ?length_calls_set_awaiting; done.
Qed.

Lemma length_calls_destroy_settled (c : CallId) (o : Outcome) (s : State) :
  length (calls (InputManager.destroy_settled c o s)) = length (calls s).
Proof.
  unfold InputManager.destroy_settled.
  destruct (calls s !! c) as [cl|]; [|done].
  destruct (result cl), o;
    try (destruct (decide (pred (awaiting cl) = 0)));
    rewrite ?length_calls_settle_call; sstate;
    rewrite ?length_calls_set_awaiting, ?length_alter; done.
Qed.

(** Settling a promise starts no invocation. *)
Lemma settle_calls_length (f : Frame) (o : Outcome) (s s' : State) :
  step (LSettle f o) s = Some s' -> length (calls s') = length (calls s).
Proof.
  intros Hstep. simpl in Hstep. destruct (decide (f ∈ pending s)) as [Hin|]; [|done].
  injection Hstep as <-.
  set (s0 := set_pending (InputManager.remove_first f (pending s)) s).
  change (calls s) with (calls s0). generalize s0. clear. intros s.
  destruct f as [c|c id d|c id d|id d|c d|c d|c d rest|c]; cbn [InputManager.resume].
  - destruct o as [|e]; [|apply length_calls_settle_call].
    unfold InputManager.init_createAll.
    pose proof (createDevices_created c (obj_entries (config s)) s) as Hcr.
    destruct (InputManager.createDevices _ _ _) as [s1 n]. simpl in Hcr.
    destruct Hcr as (_ & _ & _ & _ & _ & _ & Hc & _).
    destruct (decide (n = 0));
      rewrite ?length_calls_init_finish, ?length_calls_set_awaiting; by rewrite Hc.
  - destruct o as [|e]; [apply length_calls_createDevice_settled|done].
  - destruct o as [|e]; by rewrite length_calls_createDevice_settled.
  - by destruct o.
  - apply length_calls_destroy_settled.
  - apply length_calls_settle_call.
  - destruct o as [|e]; [destruct rest|]; cbn [InputManager.clearFeedbackAll_loop];
      rewrite ?length_calls_settle_call; done.
  - apply length_calls_destroy_settled.
Qed.

(** X14.  Outstanding promises cause a bounded amount of further work:
    along any run that only settles promises, each settlement uses up at
    least one unit of the backlog, so such a run is no longer than the
    backlog of the state it starts from.  No chain of awaits feeds itself. *)
Theorem settle_runs_are_bounded (ls : list Label) (s s' : State) :
  Forall (fun l => is_settle l = true) ls -> run ls s = Some s' ->
  length ls + backlog s' <= backlog s.
Proof.
  revert s. induction ls as [|l ls IH]; intros s Hall Hrun.
  - injection Hrun as <-. simpl. lia.
  - apply list.Forall_cons in Hall as [Hl Hall]. cbn [run] in Hrun.
    destruct (step l s) as [s1|] eqn:Hstep; [|done].
    destruct l as [sub| | | |did tid fb| |t|f o|device em|device]; try done.
    pose proof (settle_backlog _ _ _ _ Hstep). specialize (IH s1 Hall Hrun).
    simpl. lia.
Qed.

(** X15.  No promise of the Manager hangs once the promises it awaits
    settle: from every reachable state, and whatever outcome each awaited
    promise has, settling them one after the other ends in a state where
    nothing is outstanding and every invocation of [init], [refreshDevices],
    [destroy], [setFeedback] and [clearFeedbackAll] made so far has resolved
    or rejected. *)
Theorem every_promise_settles (cfg : JSObject SomeDeviceConfig) (lg : Logger)
    (o : Frame -> Outcome) (s : State) :
  reachable cfg lg s ->
  exists ls s',
    Forall (settles_with o) ls /\ run ls s = Some s'
    /\ pending s' = []
    /\ length (calls s') = length (calls s)
    /\ Forall (fun cl => is_Some (result cl)) (calls s').
Proof.
  intros Hr.
  destruct (quiesce o (backlog s) s (le_n _)) as (ls & s' & Hls & Hrun & Hq).
  exists ls, s'. split; [done|]. split; [done|]. split; [done|].
  pose proof (run_reachable _ _ _ _ _ Hr Hrun) as Hr'.
  split.
  - clear Hq Hr Hr'. revert s Hrun. induction Hls as [|l ls (f & ->) _ IH]; intros s Hrun.
    + by injection Hrun as <-.
    + cbn [run] in Hrun. destruct (step _ s) as [s1|] eqn:Hstep; [|done].
      rewrite (IH _ Hrun).
      by apply settle_calls_length in Hstep.
  - apply list.Forall_forall. intros cl Hcl.
    apply list_elem_of_lookup in Hcl as [c Hc].
    destruct (result cl) as [r|] eqn:Hres; [by exists r|].
    destruct (unsettled_has_frame cfg lg s' c cl Hr' Hc Hres) as (f & Hf & _).
    rewrite Hq in Hf. by apply elem_of_nil in Hf.
Qed.

(** ** Where a rejection comes from *)

(** X16.  A pending promise of the Manager is rejected only by the rejection
    of a promise it awaits, and with the same reason: the transition is the
    settling of one of its frames with [Rejected e].  A rejected
    [device.init()] is never passed on (it starts the teardown instead), and
    nothing rejects a [refreshDevices()] or a [destroy()] that found no
    device. *)
Theorem rejection_is_passed_on (cfg : JSObject SomeDeviceConfig) (lg : Logger)
    (l : Label) (s s' : State) (c : CallId) (cl cl' : Call) (e : string) :
  reachable cfg lg s -> step l s = Some s' ->
  calls s !! c = Some cl -> result cl = None ->
  calls s' !! c = Some cl' -> result cl' = Some (Rejected e) ->
  exists f, l = LSettle f (Rejected e) /\ f ∈ pending s /\ frame_call f = Some c
            /\ kind cl <> KRefreshDevices
            /\ match f with
               | FInitBitmap _ | FCreateDestroy _ _ _ => kind cl = KInit
               | FManagerDestroy _ _ => kind cl = KDestroy
               | FSetFeedback _ _ => kind cl = KSetFeedback
               | FClearFeedbackAll _ _ _ => exists ds, kind cl = KClearFeedbackAll ds
               | FDeviceInit _ _ _ | FErrorDestroy _ _ | FDestroyEmpty _ => False
               end.
Proof.
  intros Hr Hstep Hcl Hres Hcl' Hres'.
  destruct (reachable_wf _ _ _ Hr) as (_ & Hfit & _).
  destruct (decide (origin l s = Some c)) as [Hor|Hor].
  2:{ destruct (step_other_origin _ c _ _ Hstep Hor) as [Hcs _].
      rewrite Hcs, Hcl in Hcl'. injection Hcl' as <-. congruence. }
  assert (c < length (calls s)) as Hlt by by eapply lookup_lt_Some.
  destruct l as [sub| | | |did tid fb| |t|f o|device em|device];
    simpl in Hor; try done; try (injection Hor as Hor; lia).
  simpl in Hstep. destruct (decide (f ∈ pending s)) as [Hin|]; [|done].
  injection Hstep as <-.
  destruct (Hfit f c Hin Hor) as (k & Hck & Hfk).
  rewrite (call_kind_lookup _ _ _ Hcl) in Hck. injection Hck as <-.
  set (s0 := set_pending (InputManager.remove_first f (pending s)) s) in *.
  assert (calls s0 !! c = Some cl) as Hcl0 by exact Hcl.
  assert (forall s1 : State, calls s1 !! c = Some cl -> calls s1 !! c = Some cl' -> False)
    as Hsame by (intros s1 H1 H2; rewrite H1 in H2; injection H2 as <-; congruence).
  destruct f as [c0|c0 id d|c0 id d|id d|c0 d|c0 d|c0 d rest|c0]; try done;
    simpl in Hor; injection Hor as ->; cbn [InputManager.resume] in Hcl'.
  - (* init: initBitmapFeedback() *)
    destruct (kind cl) eqn:Hk; try done.
    destruct o as [|e0].
    + exfalso. unfold InputManager.init_createAll in Hcl'.
      pose proof (createDevices_created c (obj_entries (config s0)) s0) as Hcr.
      destruct (InputManager.createDevices _ _ _) as [s1 n]. simpl in Hcr.
      destruct Hcr as (_ & _ & _ & _ & _ & _ & Hc1 & _).
      assert (calls s1 !! c = Some cl) as Hcl1 by by rewrite Hc1.
      destruct (decide (n = 0)).
      * rewrite (init_finish_lookup _ _ _ Hcl1) in Hcl'. injection Hcl' as <-. done.
      * rewrite (set_awaiting_lookup _ _ _ _ Hcl1) in Hcl'. injection Hcl' as <-.
        simpl in Hres'. congruence.
    + rewrite (settle_call_lookup _ _ _ _ Hcl0) in Hcl'. injection Hcl' as <-.
      simpl in Hres'. injection Hres' as ->.
      eexists. split; [reflexivity|]. by split_and!.
  - (* createDevice: device.init() *)
    exfalso. destruct o as [|e0].
    + rewrite (createDevice_settled_call _ _ _ _ Hcl0) in Hcl'. injection Hcl' as <-.
      simpl in Hres'. rewrite Hres in Hres'.
      destruct (kind cl); try done;
        destruct (decide (pred (awaiting cl) = 0)); done.
    + by apply (Hsame _ Hcl0).
  - (* createDevice, catch: device.destroy() *)
    destruct o as [|e0].
    + exfalso.
      rewrite (createDevice_settled_call c Resolved
                 (set_devices (obj_delete id (devices s0)) s0) cl Hcl0) in Hcl'.
      injection Hcl' as <-. simpl in Hres'. rewrite Hres in Hres'.
      destruct (kind cl); try done;
        destruct (decide (pred (awaiting cl) = 0)); done.
    + rewrite (createDevice_settled_call _ _ _ _ Hcl0) in Hcl'. injection Hcl' as <-.
      simpl in Hres'. rewrite Hres in Hres'.
      destruct (kind cl) eqn:Hk; try done.
      * injection Hres' as ->. eexists. split; [reflexivity|]. by split_and!.
      * by destruct (decide (pred (awaiting cl) = 0)).
  - (* destroy *)
    destruct (kind cl) eqn:Hk; try done.
    rewrite (destroy_settled_call _ _ _ _ Hcl0) in Hcl'. injection Hcl' as <-.
    simpl in Hres'. rewrite Hres in Hres'. destruct o as [|e0].
    + by destruct (decide (pred (awaiting cl) = 0)).
    + injection Hres' as ->. eexists. split; [reflexivity|]. by split_and!.
  - (* setFeedback *)
    destruct (kind cl) eqn:Hk; try done.
    rewrite (settle_call_lookup _ _ _ _ Hcl0) in Hcl'. injection Hcl' as <-.
    simpl in Hres'. injection Hres' as ->.
    eexists. split; [reflexivity|]. by split_and!.
  - (* clearFeedbackAll *)
    destruct (kind cl) eqn:Hk; try done.
    destruct o as [|e0]; [destruct rest as [|d' rest]|];
      cbn [InputManager.clearFeedbackAll_loop] in Hcl'.
    + rewrite (settle_call_lookup _ _ _ _ Hcl0) in Hcl'. by injection Hcl' as <-.
    + exfalso. by apply (Hsame _ Hcl0).
    + rewrite (settle_call_lookup _ _ _ _ Hcl0) in Hcl'. injection Hcl' as <-.
      simpl in Hres'. injection Hres' as ->.
      eexists. split; [reflexivity|]. split_and!; [done..|by eexists].
  - (* destroy: the continuation of await Promise.all([]) *)
    exfalso. rewrite (destroy_settled_call _ _ _ _ Hcl0) in Hcl'. injection Hcl' as <-.
    simpl in Hres'. rewrite Hres in Hres'.
    by destruct (decide (pred (awaiting cl) = 0)).
Qed.

(** ** The calls of device.init() *)

Lemma inits_refl (s : State) : inits_follow s s.
Proof. exists 0. split; [lia|]. simpl. by rewrite app_nil_r. Qed.

Lemma inits_trans (s1 s2 s3 : State) :
  inits_follow s1 s2 -> inits_follow s2 s3 -> inits_follow s1 s3.
Proof.
  intros (k1 & Hh1 & Hi1) (k2 & Hh2 & Hi2). exists (k1 + k2). split; [lia|].
  rewrite Hi2, Hi1, Hh1, <- app_assoc. f_equal. by rewrite seq_app.
Qed.

Lemma inits_same (s s' : State) :
  length (heap s') = length (heap s) -> invoked s' = invoked s -> inits_follow s s'.
Proof.
  intros Hh Hi. exists 0. split; [lia|]. unfold init_targets. rewrite Hi. simpl.
  by rewrite app_nil_r.
Qed.

Lemma inits_core_eq (s s' : State) : core_eq s s' -> inits_follow s s'.
Proof. intros (_ & Hh & _ & Hi & _). apply inits_same; [by rewrite Hh|done]. Qed.

Lemma inits_other_calls (s s' : State) (ivs : list Invocation) :
  length (heap s') = length (heap s) -> invoked s' = invoked s ++ ivs ->
  Forall (fun i => method i <> MInit) ivs -> inits_follow s s'.
Proof.
  intros Hh Hi Hivs. exists 0. split; [lia|]. unfold init_targets.
  rewrite Hi, List.filter_app, fmap_app. f_equal.
  rewrite (filter_none _ ivs); [done|].
  eapply list.Forall_impl; [exact Hivs|]. intros i Hm. unfold is_init.
  by apply bool_decide_eq_false.
Qed.

Lemma inits_invoke (by_ : option CallId) (d : DevRef) (m : Method) (s : State) :
  m <> MInit -> inits_follow s (InputManager.invoke by_ d m s).
Proof.
  intros Hm. eapply inits_other_calls; [done|reflexivity|]. by apply Forall_singleton.
Qed.

Lemma inits_createDevice (c : CallId) (deviceId : string)
    (deviceConfig : SomeDeviceConfig) (s : State) :
  inits_follow s (fst (InputManager.createDevice c deviceId deviceConfig s)).
Proof.
  destruct (DeviceType_of_tag (type deviceConfig)) as [cls|] eqn:Hcls.
  - rewrite (createDevice_known _ _ _ _ cls Hcls). exists 1. unfold init_targets.
    assign_cases; sstate;
      (split; [by rewrite length_app; simpl|]; by rewrite List.filter_app, fmap_app).
  - rewrite (createDevice_unknown _ _ _ _ Hcls). by apply inits_same.
Qed.

Lemma inits_createDevices (c : CallId) (entries : list (string * SomeDeviceConfig))
    (s : State) :
  inits_follow s (fst (InputManager.createDevices c entries s)).
Proof.
  revert s. induction entries as [|[id cf] rest IH]; intros s; simpl; [apply inits_refl|].
  pose proof (inits_createDevice c id cf s) as H1.
  destruct (InputManager.createDevice c id cf s) as [s1 p].
  specialize (IH s1). destruct (InputManager.createDevices c rest s1) as [s2 n].
  by eapply inits_trans.
Qed.

Lemma inits_refreshEntries (c : CallId) (entries : list (string * SomeDeviceConfig))
    (s : State) :
  inits_follow s (fst (InputManager.refreshEntries c entries s)).
Proof.
  revert s. induction entries as [|[id cf] rest IH]; intros s; simpl; [apply inits_refl|].
  destruct (InputManager.devices_read id s); try apply IH.
  pose proof (inits_createDevice c id cf s) as H1.
  destruct (InputManager.createDevice c id cf s) as [s1 p].
  specialize (IH s1). destruct (InputManager.refreshEntries c rest s1) as [s2 n].
  by eapply inits_trans.
Qed.

Lemma inits_refreshDevices (s : State) : inits_follow s (InputManager.refreshDevices s).
Proof.
  unfold InputManager.refreshDevices.
  pose proof (inits_refreshEntries (length (calls s)) (obj_entries (config s))
                (InputManager.new_call KRefreshDevices 0 None s)) as H1.
  destruct (InputManager.refreshEntries _ _ _) as [s1 n]. simpl in H1.
  eapply inits_trans; [apply (inits_same s (InputManager.new_call KRefreshDevices 0 None s));
                       done|].
  eapply inits_trans; [exact H1|].
  destruct (decide (n = 0)); by apply inits_same.
Qed.

Lemma inits_destroy_settled (c : CallId) (o : Outcome) (s : State) :
  inits_follow s (InputManager.destroy_settled c o s).
Proof.
  unfold InputManager.destroy_settled.
  destruct (calls s !! c) as [cl|]; [|apply inits_refl].
  destruct (result cl), o; try (by apply inits_same).
  destruct (decide (pred (awaiting cl) = 0)); by apply inits_same.
Qed.

Lemma inits_resume (f : Frame) (o : Outcome) (s : State) :
  inits_follow s (InputManager.resume f o s).
Proof.
  destruct f as [c|c id d|c id d|id d|c d|c d|c d rest|c]; cbn [InputManager.resume].
  - destruct o as [|e]; [|by apply inits_same].
    unfold InputManager.init_createAll.
    pose proof (inits_createDevices c (obj_entries (config s)) s) as H1.
    destruct (InputManager.createDevices _ _ _) as [s1 n]. simpl in H1.
    eapply inits_trans; [exact H1|].
    destruct (decide (n = 0)); [apply inits_core_eq, core_eq_init_finish|by apply inits_same].
  - destruct o as [|e]; [apply inits_core_eq, core_eq_createDevice_settled|].
    eapply inits_trans; [by apply (inits_invoke (Some c) d MDestroy)|].
    apply (inits_same _ (InputManager.await _ _)); done.
  - destruct o as [|e].
    + eapply inits_trans; [|apply inits_core_eq, core_eq_createDevice_settled].
      by apply inits_same.
    + apply inits_core_eq, core_eq_createDevice_settled.
  - destruct o; by apply inits_same.
  - apply inits_destroy_settled.
  - by apply inits_same.
  - destruct o as [|e]; [destruct rest as [|d' rest]|];
      cbn [InputManager.clearFeedbackAll_loop]; try (by apply inits_same).
    eapply inits_trans; [by apply (inits_invoke (Some c) d' MClearFeedbackAll)|].
    apply (inits_same _ (InputManager.await _ _)); done.
  - apply inits_destroy_settled.
Qed.

Lemma inits_fold_listeners (e : InputManager.Emission) (fns : list Device.Listener)
    (s : State) :
  inits_follow s (fold_left (InputManager.call_listener e) fns s).
Proof.
  revert s. induction fns as [|fn fns IH]; intros s; simpl; [apply inits_refl|].
  eapply inits_trans; [|apply IH].
  destruct fn as [id|id d], e as [args|args]; simpl; try apply inits_refl.
  - by apply inits_same.
  - unfold InputManager.on_error.
    eapply inits_trans; [|apply (inits_same _ (InputManager.await _ _)); done].
    eapply inits_trans; [|by apply (inits_invoke None d MDestroy)].
    by apply inits_same.
Qed.

Lemma inits_step (l : Label) (s s' : State) : step l s = Some s' -> inits_follow s s'.
Proof.
  intros Hstep.
  destruct l as [sub| | | |did tid fb| |t|f o|device em|device]; simpl in Hstep.
  - injection Hstep as <-. by apply inits_same.
  - injection Hstep as <-. by apply inits_same.
  - injection Hstep as <-. apply inits_refreshDevices.
  - injection Hstep as <-.
    destruct (destroy_fields s) as (_ & _ & _ & _ & _ & _ & _ & Hh & _ & _ & Hi & _).
    eapply inits_other_calls; [by rewrite Hh|exact Hi|].
    apply list.Forall_forall. intros i Hi'.
    by apply list_elem_of_fmap in Hi' as (d & -> & _).
  - injection Hstep as <-. unfold InputManager.setFeedback.
    destruct (InputManager.devices_read did s) as [|d| |]; try (by apply inits_same).
    eapply inits_trans; [|apply (inits_same _ (InputManager.await _ _)); done].
    eapply inits_trans; [|by apply inits_invoke].
    by apply inits_same.
  - injection Hstep as <-. unfold InputManager.clearFeedbackAll.
    destruct (obj_values (devices s)) as [|d ds]; cbn [InputManager.clearFeedbackAll_loop];
      [by apply inits_same|].
    eapply inits_trans; [|apply (inits_same _ (InputManager.await _ _)); done].
    eapply inits_trans; [|by apply inits_invoke].
    by apply inits_same.
  - destruct (timers s !! t) as [[|]|]; try done.
    injection Hstep as <-. apply inits_refreshDevices.
  - destruct (decide (f ∈ pending s)); [|done]. injection Hstep as <-.
    eapply inits_trans; [|apply inits_resume]. by apply inits_same.
  - unfold InputManager.device_emit in Hstep.
    destruct (heap s !! device); [|done].
    injection Hstep as <-. apply inits_fold_listeners.
  - destruct (heap s !! device); [|done]. injection Hstep as <-.
    apply inits_same; [|done]. sstate. apply length_alter.
Qed.

(** X17.  [init()] is called exactly once on every device object: in every
    reachable state the devices on which [init()] has been called, in the
    order of the calls, are the device objects created so far, each once and
    in the order of their creation.  No device is created without its
    [init()] being called, and none is initialised twice. *)
Theorem init_called_once_per_device (cfg : JSObject SomeDeviceConfig) (lg : Logger)
    (s : State) :
  reachable cfg lg s -> init_targets s = seq 0 (length (heap s)).
Proof.
  induction 1 as [|s l s' _ IH Hstep]; [done|].
  destruct (inits_step _ _ _ Hstep) as (k & Hh & Hi).
  by rewrite Hi, IH, Hh, seq_app.
Qed.

End Manager.

(** ** Scenarios

    The properties above hold whatever the integrations define.  The
    scenarios below are run with devices that have the members of [Device]
    and of [EventEmitter], and no other. *)

#[local] Existing Instance base_members.



(** The specification's scenario: device [a] emits [{triggerId: "t1"}] and
    the subscriber [7] receives [{deviceId: "a", triggerId: "t1"}]. *)
Lemma trigger_reemitted_with_deviceId_witness :
  reachable config_ab "logger" state_subscribed_ab
  /\ obj_get (devices state_subscribed_ab) "a" = Some 0
  /\ listening state_subscribed_ab 0
  /\ step (LDeviceEmit 0 (InputManager.EmitTrigger
             {| Device.triggerId := "t1"; Device.arguments := None;
                Device.replacesPrevious := None |})) state_subscribed_ab
     = Some (set_delivered
               [(7, {| triggerId := "t1"; arguments := None; replacesPrevious := None;
                       deviceId := "a" |})]
               state_subscribed_ab).
Proof.
  assert (listening state_subscribed_ab 0) as Hl
    by (eexists; split; [reflexivity | discriminate]).
  split; [exact reachable_subscribed_ab|]. split; [reflexivity|]. split; [exact Hl|].
  exact (trigger_reemitted_with_deviceId config_ab "logger" state_subscribed_ab "a" 0
           {| Device.triggerId := "t1"; Device.arguments := None;
              Device.replacesPrevious := None |}
           reachable_subscribed_ab eq_refl Hl).
Defined.








(** C8 as stated does not hold, in two ways.  Not every device is called:
    with [a] and [b] registered and the [clearFeedbackAll()] of the device of
    [a] rejecting, the promise of the Manager's [clearFeedbackAll()] is
    rejected, nothing is left in flight, and the device of [b] has not been
    called and never will be.  And two device calls can be in flight at
    once: when [clearFeedbackAll()] is called a second time before the first
    call on a device has settled, each invocation has called the device of
    [a] and waits for it. *)
Lemma clearFeedbackAll_stops_and_overlaps :
  (exists s,
     run [LClearFeedbackAll; LSettle (FClearFeedbackAll 1 0 [1]) (Rejected "Error: busy")]
       state_up_ab = Some s
     /\ obj_values (devices state_up_ab) = [0; 1]
     /\ result <$> calls s !! 1 = Some (Some (Rejected "Error: busy"))
     /\ pending s = []
     /\ cleared_by 1 s = [0]
     /\ ~ (exists i, i ∈ invoked s /\ target i = 1 /\ method i = MClearFeedbackAll))
  /\ (run overlap_ab state_up_ab = Some state_overlap_ab
      /\ result <$> calls state_overlap_ab !! 1 = Some None
      /\ result <$> calls state_overlap_ab !! 2 = Some None
      /\ pending state_overlap_ab = [FClearFeedbackAll 1 0 [1]; FClearFeedbackAll 2 0 [1]]
      /\ in_flight 1 state_overlap_ab = [FClearFeedbackAll 1 0 [1]]
      /\ in_flight 2 state_overlap_ab = [FClearFeedbackAll 2 0 [1]]
      /\ cleared_by 1 state_overlap_ab = [0]
      /\ cleared_by 2 state_overlap_ab = [0]).
Proof.
  split.
  - eexists. split; [vm_compute; reflexivity|].
    repeat split.
    intros (i & Hi & Ht & Hm).
    repeat (apply elem_of_cons in Hi as [->|Hi]; [discriminate|]).
    by apply elem_of_nil in Hi.
  - repeat split.
Qed.


(** With [a] and [b] registered: the device of [a] is called, and it is when
    its call resolves that the device of [b] is called. *)
Lemma clearFeedbackAll_sequential_witness :
  reachable config_ab "logger" state_up_ab
  /\ step LClearFeedbackAll state_up_ab = Some (InputManager.clearFeedbackAll state_up_ab)
  /\ sequential 1 [0; 1] (InputManager.clearFeedbackAll state_up_ab)
  /\ cleared_by 1 (InputManager.clearFeedbackAll state_up_ab) = [0]
  /\ exists s2,
       run [LSettle (FClearFeedbackAll 1 0 [1]) Resolved]
         (InputManager.clearFeedbackAll state_up_ab) = Some s2
       /\ sequential 1 [0; 1] s2
       /\ cleared_by 1 s2 = [0; 1].
Proof.
  destruct (clearFeedbackAll_sequential config_ab "logger" state_up_ab reachable_up_ab)
    as (Hstep & Hseq & _).
  split; [exact reachable_up_ab|]. split; [exact Hstep|].
  split; [exact (Hseq [] _ eq_refl)|]. split; [reflexivity|].
  eexists. split; [reflexivity|]. split; [|reflexivity].
  apply (Hseq [LSettle (FClearFeedbackAll 1 0 [1]) Resolved]). reflexivity.
Defined.


(** The [init()] of [b] rejects, [b] is torn down and evicted: the log is empty. *)
Lemma silent_without_error_event_witness :
  run b_failed_ab manager_ab = Some state_b_failed_ab
  /\ logged state_b_failed_ab = logged manager_ab.
Proof.
  assert (run b_failed_ab manager_ab = Some state_b_failed_ab) as Hrun
    by (vm_compute; reflexivity).
  split; [exact Hrun|].
  apply (silent_without_error_event b_failed_ab manager_ab state_b_failed_ab Hrun).
  - intros id d H. by apply elem_of_nil in H.
  - repeat (apply List.Forall_cons; [reflexivity|]). apply List.Forall_nil.
Defined.


(** Device [0] has been evicted after an error and the Manager destroyed:
    the object still carries the two listeners of [a]. *)
Lemma manager_keeps_device_objects_witness :
  run evicted_destroyed_ab manager_ab = Some state_evicted_destroyed_ab
  /\ devices state_evicted_destroyed_ab = []
  /\ exists o, heap state_evicted_destroyed_ab !! 0 = Some o
               /\ events_of o = standard_events "a" 0.
Proof.
  assert (run evicted_destroyed_ab manager_ab = Some state_evicted_destroyed_ab) as Hrun
    by (vm_compute; reflexivity).
  split; [exact Hrun|]. split; [reflexivity|].
  exists {| class := MIDI;
            base := {| Device.emitter := {| _events := standard_events "a" 0 |};
                       Device.logger := "logger" |} |}.
  split; [|reflexivity].
  apply (manager_keeps_device_objects (drop 2 evicted_destroyed_ab)
           state_start_ab state_evicted_destroyed_ab 0).
  - vm_compute. reflexivity.
  - repeat (apply List.Forall_cons; [reflexivity|]). apply List.Forall_nil.
  - reflexivity.
Defined.


(** The running Manager is destroyed and then initialised again: timer [0]
    stays cancelled (the new [init()] starts timer [1]). *)
Lemma cancelled_timer_never_fires_witness :
  reachable config_ab "logger" state_up_ab
  /\ refreshInterval state_up_ab = Some 0
  /\ run restart_ab (InputManager.destroy state_up_ab) = Some state_restart_ab
  /\ timers state_restart_ab = [false; true]
  /\ step (LTick 0) state_restart_ab = None.
Proof.
  assert (run restart_ab (InputManager.destroy state_up_ab) = Some state_restart_ab)
    as Hrun by (vm_compute; reflexivity).
  split; [exact reachable_up_ab|]. split; [reflexivity|]. split; [exact Hrun|].
  split; [reflexivity|].
  exact (proj2 (proj2 (cancelled_timer_never_fires config_ab "logger" state_up_ab
                         state_restart_ab 0 restart_ab reachable_up_ab eq_refl Hrun))).
Defined.


(** After a second [init()] the first timer is still running and
    [refreshInterval] holds the second; [destroy()] cancels the second only. *)
Lemma orphaned_timer_keeps_firing_witness :
  timers state_reinit_ab !! 0 = Some true
  /\ refreshInterval state_reinit_ab <> Some 0
  /\ run [LDestroy] state_reinit_ab = Some state_reinit_destroyed_ab
  /\ timers state_reinit_destroyed_ab = [true; false]
  /\ step (LTick 0) state_reinit_destroyed_ab
     = Some (InputManager.refreshDevices state_reinit_destroyed_ab).
Proof.
  assert (refreshInterval state_reinit_ab <> Some 0) as Hri by discriminate.
  assert (run [LDestroy] state_reinit_ab = Some state_reinit_destroyed_ab) as Hrun
    by (vm_compute; reflexivity).
  split; [reflexivity|]. split; [exact Hri|]. split; [exact Hrun|].
  split; [reflexivity|].
  exact (proj2 (orphaned_timer_keeps_firing [LDestroy] state_reinit_ab
                  state_reinit_destroyed_ab 0 eq_refl Hri Hrun)).
Defined.


(** The Manager with subscriber [7] is destroyed; device [0], whose
    listeners are still attached, then emits a trigger: nothing is delivered. *)
Lemma no_delivery_after_destroy_witness :
  subscribers state_subscribed_ab = [7]
  /\ run [emit_t1] (InputManager.destroy state_subscribed_ab) = Some state_destroyed_t1_ab
  /\ subscribers state_destroyed_t1_ab = []
  /\ delivered state_destroyed_t1_ab = delivered state_subscribed_ab.
Proof.
  assert (run [emit_t1] (InputManager.destroy state_subscribed_ab)
          = Some state_destroyed_t1_ab) as Hrun by (vm_compute; reflexivity).
  split; [reflexivity|]. split; [exact Hrun|].
  apply (no_delivery_after_destroy [emit_t1] state_subscribed_ab state_destroyed_t1_ab Hrun).
  repeat (apply List.Forall_cons; [reflexivity|]). apply List.Forall_nil.
Defined.


(** With [{a: midi, x: osc}]: [a] is registered, [x] has an unknown type. *)
Lemma refreshDevices_nothing_to_create_witness :
  nothing_to_create state_ax
  /\ obj_get (devices state_ax) "x" = None
  /\ step LRefreshDevices state_ax
     = Some (InputManager.new_call KRefreshDevices 0 (Some Resolved) state_ax).
Proof.
  assert (nothing_to_create state_ax) as H.
  { intros id cf Hin.
    apply elem_of_cons in Hin as [[= -> ->]|Hin]; [left; by eexists|].
    apply list_elem_of_singleton in Hin as [= -> ->]. by right. }
  split; [exact H|]. split; [reflexivity|].
  exact (refreshDevices_nothing_to_create state_ax H).
Defined.


(** After [b] has been evicted: the first pass creates device [2] for [b],
    whose [init()] is pending; the second pass leaves it alone. *)
Lemma consecutive_pass_creates_nothing_witness :
  NoDup (obj_keys (config state_b_failed_ab))
  /\ pending (InputManager.refreshDevices state_b_failed_ab) = [FDeviceInit 1 "b" 2]
  /\ run [LRefreshDevices; LRefreshDevices] state_b_failed_ab
     = Some (InputManager.new_call KRefreshDevices 0 (Some Resolved)
               (InputManager.refreshDevices state_b_failed_ab)).
Proof.
  assert (NoDup (obj_keys (config state_b_failed_ab))) as Hnd.
  { apply list.NoDup_cons. split; [|apply NoDup_singleton].
    intros H. apply list_elem_of_singleton in H. discriminate. }
  split; [exact Hnd|]. split; [reflexivity|].
  exact (consecutive_pass_creates_nothing state_b_failed_ab Hnd).
Defined.


(** With [{a: midi, x: osc}] after [init()]: only [a] is registered. *)
Lemma registry_within_configuration_witness :
  reachable config_ax "logger" state_ax
  /\ devices state_ax = [("a", 0)]
  /\ registered_configured state_ax.
Proof.
  assert (reachable config_ax "logger" state_ax) as Hr.
  { apply (run_reachable config_ax "logger"
             [LInit; LSettle (FInitBitmap 0) Resolved; LSettle (FDeviceInit 0 "a" 0) Resolved]
             (new_InputManager config_ax "logger")); [apply reachable_new|].
    vm_compute. reflexivity. }
  split; [exact Hr|]. split; [reflexivity|].
  exact (proj2 (registry_within_configuration config_ax "logger" state_ax Hr)).
Defined.


Lemma pending_promise_has_frame_witness :
  exists f, f ∈ pending state_start_ab /\ frame_call f = Some 0.
Proof.
  apply (pending_promise_has_frame config_ab "logger" state_start_ab 0
           {| kind := KInit; awaiting := 2; result := None |}).
  - apply (reachable_run start_ab). vm_compute. reflexivity.
  - reflexivity.
  - reflexivity.
Defined.


Lemma settled_promise_has_no_frame_witness :
  frame_call (FDeviceInit 1 "a" 2) <> Some 0.
Proof.
  apply (settled_promise_has_no_frame config_ab "logger" state_race_ab 0
           {| kind := KInit; awaiting := 0; result := Some Resolved |} Resolved
           (FDeviceInit 1 "a" 2)).
  - exact reachable_race_ab.
  - reflexivity.
  - reflexivity.
  - by left.
  - apply list_elem_of_In. simpl. tauto.
Defined.


Lemma destroy_clears_registry_at_last_witness :
  (devices state_destroying_done_ab = [] /\ devices_proto state_destroying_done_ab = None)
  /\ (let s := InputManager.destroy (new_InputManager [] "logger") in
      let s' := InputManager.resume (FDestroyEmpty 0) Resolved (set_pending [] s) in
      result <$> calls s !! 0 = Some None
      /\ result <$> calls s' !! 0 = Some (Some Resolved)).
Proof.
  split.
  - assert (reachable config_ab "logger" state_destroying_ab) as Hr.
    { apply (reachable_run destroying_ab). vm_compute. reflexivity. }
    assert (step (LSettle (FManagerDestroy 1 1) Resolved) state_destroying_ab
            = Some state_destroying_done_ab) as Hstep.
    { vm_compute. reflexivity. }
    apply (destroy_clears_registry_at_last config_ab "logger"
             (LSettle (FManagerDestroy 1 1) Resolved) state_destroying_ab
             state_destroying_done_ab 1
             {| kind := KDestroy; awaiting := 1; result := None |} Hr Hstep eq_refl
             eq_refl).
    + reflexivity.
    + reflexivity.
  - assert (reachable [] "logger" (InputManager.destroy (new_InputManager [] "logger")))
      as Hr.
    { apply (reachable_step [] "logger" (new_InputManager [] "logger") LDestroy);
        [apply reachable_new | reflexivity]. }
    split; [reflexivity|].
    apply (proj1 (destroy_clears_registry_at_last [] "logger"
             (LSettle (FDestroyEmpty 0) Resolved)
             (InputManager.destroy (new_InputManager [] "logger"))
             (InputManager.resume (FDestroyEmpty 0) Resolved
                (set_pending [] (InputManager.destroy (new_InputManager [] "logger"))))
             0 {| kind := KDestroy; awaiting := 1; result := None |} Hr eq_refl eq_refl
             eq_refl) eq_refl).
    exists (FDestroyEmpty 0), Resolved. split; [reflexivity|].
    split; [reflexivity|]. left. reflexivity.
Defined.

Lemma init_starts_timer_at_last_witness :
  (timers state_up_ab = timers state_a_up_ab ++ [true]
   /\ refreshInterval state_up_ab = Some (length (timers state_a_up_ab)))
  /\ (let s := InputManager.init (new_InputManager [] "logger") in
      let s' := InputManager.resume (FInitBitmap 0) Resolved
                  (set_pending [] s) in
      timers s' = timers s ++ [true] /\ refreshInterval s' = Some (length (timers s))).
Proof.
  split.
  - assert (reachable config_ab "logger" state_a_up_ab) as Hr.
    { apply (reachable_run a_up_ab). vm_compute. reflexivity. }
    assert (step (LSettle (FDeviceInit 0 "b" 1) Resolved) state_a_up_ab = Some state_up_ab)
      as Hstep.
    { vm_compute. reflexivity. }
    apply (init_starts_timer_at_last config_ab "logger"
             (LSettle (FDeviceInit 0 "b" 1) Resolved) state_a_up_ab state_up_ab 0
             {| kind := KInit; awaiting := 1; result := None |} Hr Hstep eq_refl eq_refl).
    + reflexivity.
    + reflexivity.
  - assert (reachable [] "logger" (InputManager.init (new_InputManager [] "logger")))
      as Hr.
    { apply (reachable_step [] "logger" (new_InputManager [] "logger") LInit);
        [apply reachable_new | reflexivity]. }
    apply (init_starts_timer_at_last [] "logger" (LSettle (FInitBitmap 0) Resolved)
             (InputManager.init (new_InputManager [] "logger"))
             (InputManager.resume (FInitBitmap 0) Resolved
                (set_pending [] (InputManager.init (new_InputManager [] "logger"))))
             0 {| kind := KInit; awaiting := 0; result := None |} Hr eq_refl eq_refl
             eq_refl).
    + reflexivity.
    + reflexivity.
Defined.

Lemma settle_runs_are_bounded_witness :
  length [LSettle (FInitBitmap 0) Resolved; LSettle (FDeviceInit 0 "a" 0) Resolved;
          LSettle (FDeviceInit 0 "b" 1) Resolved]
  + backlog state_up_ab <= backlog (InputManager.init manager_ab).
Proof.
  apply (settle_runs_are_bounded
           [LSettle (FInitBitmap 0) Resolved; LSettle (FDeviceInit 0 "a" 0) Resolved;
            LSettle (FDeviceInit 0 "b" 1) Resolved]
           (InputManager.init manager_ab) state_up_ab).
  - repeat (apply List.Forall_cons; [reflexivity|]). apply List.Forall_nil.
  - vm_compute. reflexivity.
Defined.


Lemma every_promise_settles_witness :
  exists ls s',
    Forall (settles_with (fun _ => Resolved)) ls /\ run ls state_busy_ab = Some s'
    /\ pending s' = []
    /\ length (calls s') = length (calls state_busy_ab)
    /\ Forall (fun cl => is_Some (result cl)) (calls s').
Proof.
  apply (every_promise_settles config_ab "logger" (fun _ => Resolved) state_busy_ab).
  apply (reachable_run busy_ab). vm_compute. reflexivity.
Defined.


Lemma rejection_is_passed_on_witness :
  exists f, LSettle (FManagerDestroy 1 1) (Rejected "Error: busy")
            = LSettle f (Rejected "Error: busy")
            /\ f ∈ pending state_destroy_called_ab /\ frame_call f = Some 1
            /\ KDestroy <> KRefreshDevices
            /\ match f with
               | FInitBitmap _ | FCreateDestroy _ _ _ => KDestroy = KInit
               | FManagerDestroy _ _ => KDestroy = KDestroy
               | FSetFeedback _ _ => KDestroy = KSetFeedback
               | FClearFeedbackAll _ _ _ => exists ds, KDestroy = KClearFeedbackAll ds
               | FDeviceInit _ _ _ | FErrorDestroy _ _ | FDestroyEmpty _ => False
               end.
Proof.
  apply (rejection_is_passed_on config_ab "logger"
           (LSettle (FManagerDestroy 1 1) (Rejected "Error: busy"))
           state_destroy_called_ab state_destroy_rejected_ab 1
           {| kind := KDestroy; awaiting := 2; result := None |}
           {| kind := KDestroy; awaiting := 1; result := Some (Rejected "Error: busy") |}
           "Error: busy").
  - apply (reachable_run destroy_called_ab). vm_compute. reflexivity.
  - vm_compute. reflexivity.
  - reflexivity.
  - reflexivity.
  - reflexivity.
  - reflexivity.
Defined.


Lemma init_called_once_per_device_witness :
  init_targets state_reinit_ab = seq 0 (length (heap state_reinit_ab)).
Proof.
  apply (init_called_once_per_device config_ab "logger" state_reinit_ab).
  apply (reachable_run reinit_ab). vm_compute. reflexivity.
Defined.



